(** * The audio module's port / patch / stream configuration manager

    A shallow embedding of [audio/aidl/default/Module.cpp].  Every operation
    of the C++ class [Module] is a function from the module state to a new
    state and an outcome.  The AIDL data types the module works on are
    records and inductive types; the [std::multimap] holding the patch usage
    index is a key-ordered association list; [std::set] and [std::map] are
    [gset] and [gmap].

    Integers of the source ([int32_t], [int64_t], [size_t]) are [Z]; where the
    source mixes signed and unsigned operands the conversion is written out.
    The two id counters are incremented without wrap-around: overflowing a
    signed counter is undefined behaviour in the source. *)

From Stdlib Require Import ZArith Lia Bool.
From stdpp Require Import gmap list strings sorting.

Open Scope Z_scope.

(** ** Results of an operation *)

(** The exception codes carried by [ndk::ScopedAStatus]. *)
Inductive ExceptionCode := EX_ILLEGAL_ARGUMENT | EX_ILLEGAL_STATE.

(** What an error line written with [LOG(ERROR)] says.  Only the lines that
    carry data are told apart. *)
Inductive LogLine :=
| LogSourceIdsNotFound (missingIds : list Z)
| LogSinkIdsNotFound (missingIds : list Z)
| LogOther.

(** An operation returns a value ([ScopedAStatus::ok()]), fails with an
    exception code after logging a line, or ends the process ([CHECK], access
    through a past-the-end iterator, [value()] of an empty optional, [get] of
    a union with another tag). *)
Inductive outcome (A : Type) :=
| Ret (a : A)
| Exn (code : ExceptionCode) (log : LogLine)
| Abort.
Arguments Ret {A} a.
Arguments Exn {A} code log.
Arguments Abort {A}.

Definition failed_with {A} (o : outcome A) (c : ExceptionCode) : Prop :=
  exists l, o = Exn c l.

(** ** Constants of [Module.h] *)

(** The constants are declared in [core-impl/Module.h] and in
    [AudioOutputFlags.aidl]; the development is parametric in them.
    [COMPRESS_OFFLOAD] is the ordinal of the flag, as the source shifts by it. *)
Class ModuleConstants := {
  kMinimumStreamBufferSizeFrames : Z;
  kMaximumStreamBufferSizeBytes : Z;
  kLatencyMs : Z;
  COMPRESS_OFFLOAD : Z
}.

(** ** Data model *)

Inductive PcmType :=
| UINT_8_BIT | INT_16_BIT | INT_32_BIT | FIXED_Q_8_24 | FLOAT_32_BIT | INT_24_BIT.

Inductive AudioFormatType := NON_PCM | PCM | SYS_RESERVED_INVALID.

Module AudioFormatDescription.
Record t := mk { type : AudioFormatType; pcm : PcmType; encoding : string }.
End AudioFormatDescription.

(** [AudioChannelLayout] is a tagged union; the three mask tags carry an
    [int32_t] bit field. *)
Module AudioChannelLayout.
Inductive t :=
| none
| invalid
| indexMask (m : Z)
| layoutMask (m : Z)
| voiceMask (m : Z).
End AudioChannelLayout.

Inductive AudioIoFlags :=
| input (bits : Z)
| output (bits : Z).

Module AudioProfile.
Record t := mk {
  format : AudioFormatDescription.t;
  channelMasks : list AudioChannelLayout.t;
  sampleRates : list Z
}.
End AudioProfile.

Module AudioDeviceDescription.
Record t := mk { type : Z; connection : string }.
End AudioDeviceDescription.

Module AudioDevice.
Record t := mk { type : AudioDeviceDescription.t; address : string }.
End AudioDevice.

Module AudioPortDeviceExt.
Record t := mk { device : AudioDevice.t; flags : Z }.
End AudioPortDeviceExt.

Module AudioPortMixExt.
Record t := mk { handle : Z; maxOpenStreamCount : Z }.
End AudioPortMixExt.

Module AudioPortExt.
Inductive t :=
| unspecified
| device (d : AudioPortDeviceExt.t)
| mix (m : AudioPortMixExt.t)
| session (s : Z).
End AudioPortExt.

Module AudioPort.
Record t := mk {
  id : Z;
  profiles : list AudioProfile.t;
  flags : AudioIoFlags;
  extraAudioDescriptors : list Z;
  ext : AudioPortExt.t
}.
End AudioPort.

(** The gain of a port config is copied and compared, never inspected; it is
    kept as an integer code. *)
Module AudioPortConfig.
Record t := mk {
  id : Z;
  portId : Z;
  sampleRate : option Z;
  channelMask : option AudioChannelLayout.t;
  format : option AudioFormatDescription.t;
  gain : option Z;
  flags : option AudioIoFlags;
  ext : AudioPortExt.t
}.
End AudioPortConfig.

Module AudioRoute.
Record t := mk {
  sourcePortIds : list Z;
  sinkPortId : Z;
  isExclusive : bool
}.
End AudioRoute.

Module AudioPatch.
Record t := mk {
  id : Z;
  sourcePortConfigIds : list Z;
  sinkPortConfigIds : list Z;
  minimumStreamBufferSizeFrames : Z;
  latenciesMs : list Z
}.
End AudioPatch.

#[global] Instance PcmType_eq_dec : EqDecision PcmType.
Proof. solve_decision. Defined.
#[global] Instance AudioFormatType_eq_dec : EqDecision AudioFormatType.
Proof. solve_decision. Defined.
#[global] Instance AudioFormatDescription_eq_dec : EqDecision AudioFormatDescription.t.
Proof. solve_decision. Defined.
#[global] Instance AudioChannelLayout_eq_dec : EqDecision AudioChannelLayout.t.
Proof. solve_decision. Defined.
#[global] Instance AudioIoFlags_eq_dec : EqDecision AudioIoFlags.
Proof. solve_decision. Defined.
#[global] Instance AudioProfile_eq_dec : EqDecision AudioProfile.t.
Proof. solve_decision. Defined.
#[global] Instance AudioDeviceDescription_eq_dec : EqDecision AudioDeviceDescription.t.
Proof. solve_decision. Defined.
#[global] Instance AudioDevice_eq_dec : EqDecision AudioDevice.t.
Proof. solve_decision. Defined.
#[global] Instance AudioPortDeviceExt_eq_dec : EqDecision AudioPortDeviceExt.t.
Proof. solve_decision. Defined.
#[global] Instance AudioPortMixExt_eq_dec : EqDecision AudioPortMixExt.t.
Proof. solve_decision. Defined.
#[global] Instance AudioPortExt_eq_dec : EqDecision AudioPortExt.t.
Proof. solve_decision. Defined.
#[global] Instance AudioPortConfig_eq_dec : EqDecision AudioPortConfig.t.
Proof. solve_decision. Defined.
#[global] Instance AudioPort_eq_dec : EqDecision AudioPort.t.
Proof. solve_decision. Defined.
#[global] Instance AudioRoute_eq_dec : EqDecision AudioRoute.t.
Proof. solve_decision. Defined.
#[global] Instance AudioPatch_eq_dec : EqDecision AudioPatch.t.
Proof. solve_decision. Defined.

(** Modelled from the spec: the store [internal::Configuration], declared in
    [core-impl/Configuration.h], which is not part of the sources at hand;
    the fields are the ones [Module.cpp] reads and writes. *)
Module Configuration.
Record t := mk {
  ports : list AudioPort.t;
  portConfigs : list AudioPortConfig.t;
  initialConfigs : list AudioPortConfig.t;
  connectedProfiles : gmap Z (list AudioProfile.t);
  routes : list AudioRoute.t;
  patches : list AudioPatch.t;
  nextPortId : Z;
  nextPatchId : Z
}.
End Configuration.

(** ** Frame size *)

Definition getPcmSampleSizeInBytes (pcm : PcmType) : Z :=
  match pcm with
  | UINT_8_BIT => 1
  | INT_16_BIT => 2
  | INT_32_BIT => 4
  | FIXED_Q_8_24 => 4
  | FLOAT_32_BIT => 4
  | INT_24_BIT => 3
  end.

(** [__builtin_popcount] takes an [unsigned int]: the 32 low bits of the
    mask are examined, lowest first. *)
Fixpoint popcount_loop (width : nat) (x : Z) : Z :=
  match width with
  | O => 0
  | S w => Z.b2z (Z.odd x) + popcount_loop w (Z.div2 x)
  end.

Definition builtin_popcount (x : Z) : Z := popcount_loop 32 x.

Definition getChannelCount (layout : AudioChannelLayout.t) : Z :=
  match layout with
  | AudioChannelLayout.none => 0
  | AudioChannelLayout.invalid => 0
  | AudioChannelLayout.indexMask m => builtin_popcount m
  | AudioChannelLayout.layoutMask m => builtin_popcount m
  | AudioChannelLayout.voiceMask m => builtin_popcount m
  end.

Definition getFrameSizeInBytes (format : AudioFormatDescription.t)
    (layout : AudioChannelLayout.t) : Z :=
  match AudioFormatDescription.type format with
  | PCM => getPcmSampleSizeInBytes (AudioFormatDescription.pcm format)
           * getChannelCount layout
  | _ => 1
  end.

(** ** Helpers of [core-impl/utils.h] *)

Section ById.
Context {T : Type} (key : T -> Z).

(** Modelled from the spec: [findById] of [core-impl/utils.h], which is not
    part of the sources at hand; it looks up the first element of a vector
    whose [id] field is the given id.  [None] stands for the past-the-end
    iterator. *)
Definition findById (v : list T) (id : Z) : option T :=
  List.find (fun e => bool_decide (key e = id)) v.

(** Assignment through the iterator [findById] returned. *)
Fixpoint assign_at_id (v : list T) (id : Z) (f : T -> T) : list T :=
  match v with
  | [] => []
  | e :: v' => if bool_decide (key e = id) then f e :: v'
               else e :: assign_at_id v' id f
  end.

(** [vector::erase] of the iterator [findById] returned. *)
Fixpoint erase_at_id (v : list T) (id : Z) : list T :=
  match v with
  | [] => []
  | e :: v' => if bool_decide (key e = id) then v'
               else e :: erase_at_id v' id
  end.

(** Modelled from the spec: [selectByIds] of [core-impl/utils.h] resolves
    every requested id and collects all the ids that do not resolve.  The
    result pairs the elements found with the list of missing ids. *)
Definition selectByIds (v : list T) (ids : list Z) : list T * list Z :=
  (omap (findById v) ids,
   List.filter (fun i => negb (bool_decide (is_Some (findById v i)))) ids).
End ById.

(** Modelled from the spec: [all_unique] of [core-impl/utils.h] tells whether
    a list of ids is duplicate-free. *)
Definition all_unique (v : list Z) : bool := bool_decide (NoDup v).

(** [erase_if] on a vector removes every element satisfying the predicate. *)
Definition erase_if {T} (v : list T) (p : T -> bool) : list T :=
  List.filter (fun e => negb (p e)) v.

(** ** The patch usage index: [std::multimap<int32_t, int32_t>] *)

Definition Patches := list (Z * Z).

(** [multimap::insert] keeps the keys in order and places a pair after the
    pairs with the same key. *)
Fixpoint multimap_insert {V} (k : Z) (x : V) (m : list (Z * V)) : list (Z * V) :=
  match m with
  | [] => [(k, x)]
  | (k', x') :: m' =>
      if k <? k' then (k, x) :: m else (k', x') :: multimap_insert k x m'
  end.

Definition multimap_count {V} (m : list (Z * V)) (k : Z) : Z :=
  Z.of_nat (length (List.filter (fun e => bool_decide (e.1 = k)) m)).

(** The values of [multimap::equal_range]. *)
Definition multimap_equal_range {V} (m : list (Z * V)) (k : Z) : list V :=
  List.map snd (List.filter (fun e => bool_decide (e.1 = k)) m).

(** Modelled from the spec: [erase_all_values] of [core-impl/utils.h] removes
    from the index every pair whose value (a patch id) is in the given set. *)
Definition erase_all_values (m : Patches) (values : gset Z) : Patches :=
  erase_if m (fun e => bool_decide (e.2 ∈ values)).

(** ** The stream registry *)

Inductive StreamObject :=
| StreamIn (sinkMetadata : Z)
| StreamOut (sourceMetadata : Z) (offloadInfo : option Z).

(** Modelled from the spec: the class of [mStreams], declared in
    [core-impl/Stream.h], which is not part of the sources at hand.  A stream
    is entered under its port config id and under the id of the owning port;
    [count] gives the number of streams entered under an id. *)
Module Streams.
Definition t := list (Z * StreamObject).
Definition count (s : t) (id : Z) : Z := multimap_count s id.
Definition insert (s : t) (portId portConfigId : Z) (sw : StreamObject) : t :=
  multimap_insert portId sw (multimap_insert portConfigId sw s).
End Streams.

(** ** The module *)

Module ModuleDebug.
Record t := mk { simulateDeviceConnections : bool }.
End ModuleDebug.

(** Modelled from the spec: the fields of [Module], declared in
    [core-impl/Module.h], which is not part of the sources at hand.
    [getConfig] creates the store on first access; here the store is there
    from the start. *)
Module Module_.
Record t := mk {
  mConfig : Configuration.t;
  mDebug : ModuleDebug.t;
  mConnectedDevicePorts : gset Z;
  mStreams : Streams.t;
  mPatches : Patches
}.
End Module_.
Import Module_.
Abbreviation Module := Module_.t.

Definition with_mPatches (st : Module) (p : Patches) : Module :=
  Module_.mk (mConfig st) (mDebug st) (mConnectedDevicePorts st) (mStreams st) p.

Definition with_mStreams (st : Module) (s : Streams.t) : Module :=
  Module_.mk (mConfig st) (mDebug st) (mConnectedDevicePorts st) s (mPatches st).

Definition with_mConnectedDevicePorts (st : Module) (c : gset Z) : Module :=
  Module_.mk (mConfig st) (mDebug st) c (mStreams st) (mPatches st).

Definition with_mConfig (st : Module) (c : Configuration.t) : Module :=
  Module_.mk c (mDebug st) (mConnectedDevicePorts st) (mStreams st) (mPatches st).

Definition with_patches (c : Configuration.t) (p : list AudioPatch.t) : Configuration.t :=
  Configuration.mk (Configuration.ports c) (Configuration.portConfigs c)
    (Configuration.initialConfigs c) (Configuration.connectedProfiles c)
    (Configuration.routes c) p (Configuration.nextPortId c)
    (Configuration.nextPatchId c).

Definition with_nextPatchId (c : Configuration.t) (n : Z) : Configuration.t :=
  Configuration.mk (Configuration.ports c) (Configuration.portConfigs c)
    (Configuration.initialConfigs c) (Configuration.connectedProfiles c)
    (Configuration.routes c) (Configuration.patches c)
    (Configuration.nextPortId c) n.

Definition with_portConfigs (c : Configuration.t) (l : list AudioPortConfig.t)
    : Configuration.t :=
  Configuration.mk (Configuration.ports c) l
    (Configuration.initialConfigs c) (Configuration.connectedProfiles c)
    (Configuration.routes c) (Configuration.patches c)
    (Configuration.nextPortId c) (Configuration.nextPatchId c).

Definition with_nextPortId (c : Configuration.t) (n : Z) : Configuration.t :=
  Configuration.mk (Configuration.ports c) (Configuration.portConfigs c)
    (Configuration.initialConfigs c) (Configuration.connectedProfiles c)
    (Configuration.routes c) (Configuration.patches c)
    n (Configuration.nextPatchId c).

Definition with_ports (c : Configuration.t) (l : list AudioPort.t) : Configuration.t :=
  Configuration.mk l (Configuration.portConfigs c)
    (Configuration.initialConfigs c) (Configuration.connectedProfiles c)
    (Configuration.routes c) (Configuration.patches c)
    (Configuration.nextPortId c) (Configuration.nextPatchId c).

Definition with_routes (c : Configuration.t) (l : list AudioRoute.t) : Configuration.t :=
  Configuration.mk (Configuration.ports c) (Configuration.portConfigs c)
    (Configuration.initialConfigs c) (Configuration.connectedProfiles c)
    l (Configuration.patches c)
    (Configuration.nextPortId c) (Configuration.nextPatchId c).

(** ** Stream descriptors and new streams *)

(** Conversion of a signed 64-bit value to [size_t], as done when the two
    are compared. *)
Definition to_size_t (z : Z) : Z := z mod 2 ^ 64.

Definition createStreamDescriptor `{K : ModuleConstants} (st : Module)
    (in_portConfigId in_bufferSizeFrames : Z) : outcome unit :=
  if in_bufferSizeFrames <=? 0 then Exn EX_ILLEGAL_ARGUMENT LogOther
  else if in_bufferSizeFrames <? kMinimumStreamBufferSizeFrames
  then Exn EX_ILLEGAL_ARGUMENT LogOther
  else
    match findById AudioPortConfig.id
            (Configuration.portConfigs (mConfig st)) in_portConfigId with
    | None => Abort
    | Some portConfig =>
        match AudioPortConfig.format portConfig,
              AudioPortConfig.channelMask portConfig with
        | Some format, Some channelMask =>
            let frameSize := getFrameSizeInBytes format channelMask in
            if frameSize =? 0 then Exn EX_ILLEGAL_ARGUMENT LogOther
            else if frameSize >?
                    to_size_t (kMaximumStreamBufferSizeBytes ÷ in_bufferSizeFrames)
            then Exn EX_ILLEGAL_ARGUMENT LogOther
            else Ret ()
        | _, _ => Abort
        end
    end.

Definition findPortIdForNewStream (st : Module) (in_portConfigId : Z)
    : outcome AudioPort.t :=
  match findById AudioPortConfig.id
          (Configuration.portConfigs (mConfig st)) in_portConfigId with
  | None => Exn EX_ILLEGAL_ARGUMENT LogOther
  | Some portConfig =>
      let portId := AudioPortConfig.portId portConfig in
      if bool_decide (portId = in_portConfigId) then Abort
      else
        match findById AudioPort.id (Configuration.ports (mConfig st)) portId with
        | None => Exn EX_ILLEGAL_ARGUMENT LogOther
        | Some port =>
            if negb (Streams.count (mStreams st) in_portConfigId =? 0)
            then Exn EX_ILLEGAL_STATE LogOther
            else
              match AudioPort.ext port with
              | AudioPortExt.mix m =>
                  let maxOpenStreamCount := AudioPortMixExt.maxOpenStreamCount m in
                  if negb (maxOpenStreamCount =? 0)
                     && (Streams.count (mStreams st) portId
                         >=? to_size_t maxOpenStreamCount)
                  then Exn EX_ILLEGAL_STATE LogOther
                  else Ret port
              | _ => Exn EX_ILLEGAL_ARGUMENT LogOther
              end
        end
  end.

(** ** Patches *)

Definition cleanUpPatch (st : Module) (patchId : Z) : Module :=
  with_mPatches st (erase_all_values (mPatches st) {[ patchId ]}).

(** Both id lists of a patch without the given port config id. *)
Definition strip_port_config (portConfigId : Z) (patch : AudioPatch.t) : AudioPatch.t :=
  AudioPatch.mk (AudioPatch.id patch)
    (erase_if (AudioPatch.sourcePortConfigIds patch)
       (fun e => bool_decide (e = portConfigId)))
    (erase_if (AudioPatch.sinkPortConfigIds patch)
       (fun e => bool_decide (e = portConfigId)))
    (AudioPatch.minimumStreamBufferSizeFrames patch)
    (AudioPatch.latenciesMs patch).

Definition is_empty {T} (v : list T) : bool :=
  match v with [] => true | _ => false end.

(** The second loop of [cleanUpPatches]: [i] runs from [size() - 1] down and
    the loop ends when [i] is [0]. *)
Fixpoint erase_empty_loop (i : nat) (patches : list AudioPatch.t)
    (erasedPatches : gset Z) : list AudioPatch.t * gset Z :=
  match i with
  | O => (patches, erasedPatches)
  | S j =>
      match patches !! i with
      | Some patch =>
          if is_empty (AudioPatch.sourcePortConfigIds patch)
             || is_empty (AudioPatch.sinkPortConfigIds patch)
          then erase_empty_loop j (delete i patches)
                 ({[ AudioPatch.id patch ]} ∪ erasedPatches)
          else erase_empty_loop j patches erasedPatches
      | None => erase_empty_loop j patches erasedPatches
      end
  end.

Definition cleanUpPatches (st : Module) (portConfigId : Z) : Module :=
  let patches := Configuration.patches (mConfig st) in
  if is_empty patches then st
  else
    let range := multimap_equal_range (mPatches st) portConfigId in
    let stripped :=
      foldl (fun ps patchId =>
               assign_at_id AudioPatch.id ps patchId (strip_port_config portConfigId))
            patches range in
    let '(kept, erasedPatches) :=
      erase_empty_loop (length stripped - 1) stripped ∅ in
    with_mPatches (with_mConfig st (with_patches (mConfig st) kept))
      (erase_all_values (mPatches st) erasedPatches).

(** The lambda [do_insert] of [registerPatch]. *)
Definition do_insert (configs : list AudioPortConfig.t) (patchId : Z)
    (index : Patches) (portConfigIds : list Z) : Patches :=
  foldl (fun idx portConfigId =>
           match findById AudioPortConfig.id configs portConfigId with
           | Some config =>
               let idx' := multimap_insert portConfigId patchId idx in
               if bool_decide (AudioPortConfig.portId config = portConfigId)
               then idx'
               else multimap_insert (AudioPortConfig.portId config) patchId idx'
           | None => idx
           end)
        index portConfigIds.

Definition registerPatch (st : Module) (patch : AudioPatch.t) : Module :=
  let configs := Configuration.portConfigs (mConfig st) in
  let idx1 := do_insert configs (AudioPatch.id patch) (mPatches st)
                (AudioPatch.sourcePortConfigIds patch) in
  let idx2 := do_insert configs (AudioPatch.id patch) idx1
                (AudioPatch.sinkPortConfigIds patch) in
  with_mPatches st idx2.

(** One step of the loop filling [allowedSinkPorts]: [operator[]] reads
    [false] for a sink port not seen yet. *)
Definition allow_route (portId : Z) (allowed : gmap Z bool) (r : AudioRoute.t)
    : gmap Z bool :=
  if bool_decide (portId ∈ AudioRoute.sourcePortIds r) then
    if negb (default false (allowed !! AudioRoute.sinkPortId r))
    then <[ AudioRoute.sinkPortId r := negb (AudioRoute.isExclusive r) ]> allowed
    else allowed
  else allowed.

Definition allowedSinkPorts (routes : list AudioRoute.t)
    (sources : list AudioPortConfig.t) : gmap Z bool :=
  foldl (fun allowed src =>
           foldl (allow_route (AudioPortConfig.portId src)) allowed routes)
        ∅ sources.

(** The loop validating the requested patch: some sink port has only an
    exclusive route and is in the index. *)
Definition exclusive_sink_in_use (allowed : gmap Z bool) (index : Patches) : bool :=
  existsb (fun e => negb e.2 && negb (multimap_count index e.1 =? 0))
          (map_to_list allowed).

Definition setAudioPatch `{K : ModuleConstants} (st : Module) (in_requested : AudioPatch.t)
    : Module * outcome AudioPatch.t :=
  let sourceIds := AudioPatch.sourcePortConfigIds in_requested in
  let sinkIds := AudioPatch.sinkPortConfigIds in_requested in
  if is_empty sourceIds then (st, Exn EX_ILLEGAL_ARGUMENT LogOther)
  else if negb (all_unique sourceIds) then (st, Exn EX_ILLEGAL_ARGUMENT LogOther)
  else if is_empty sinkIds then (st, Exn EX_ILLEGAL_ARGUMENT LogOther)
  else if negb (all_unique sinkIds) then (st, Exn EX_ILLEGAL_ARGUMENT LogOther)
  else
    let configs := Configuration.portConfigs (mConfig st) in
    let '(sources, missingIds) := selectByIds AudioPortConfig.id configs sourceIds in
    if negb (is_empty missingIds)
    then (st, Exn EX_ILLEGAL_ARGUMENT (LogSourceIdsNotFound missingIds))
    else
      let '(sinks, missingIds) := selectByIds AudioPortConfig.id configs sinkIds in
      if negb (is_empty missingIds)
      then (st, Exn EX_ILLEGAL_ARGUMENT (LogSinkIdsNotFound missingIds))
      else
        let allowed := allowedSinkPorts (Configuration.routes (mConfig st)) sources in
        if existsb (fun sink => bool_decide (allowed !! AudioPortConfig.portId sink = None))
                   sinks
        then (st, Exn EX_ILLEGAL_ARGUMENT LogOther)
        else
          let patches := Configuration.patches (mConfig st) in
          let existing :=
            if bool_decide (AudioPatch.id in_requested = 0) then None
            else findById AudioPatch.id patches (AudioPatch.id in_requested) in
          if negb (bool_decide (AudioPatch.id in_requested = 0))
             && negb (bool_decide (is_Some existing))
          then (st, Exn EX_ILLEGAL_ARGUMENT LogOther)
          else
            let patchesBackup := match existing with
                                 | Some _ => Some (mPatches st)
                                 | None => None
                                 end in
            let st1 := match existing with
                       | Some e => cleanUpPatch st (AudioPatch.id e)
                       | None => st
                       end in
            if exclusive_sink_in_use allowed (mPatches st1)
            then (match patchesBackup with
                  | Some backup => with_mPatches st1 backup
                  | None => st1
                  end, Exn EX_ILLEGAL_STATE LogOther)
            else
              let result :=
                AudioPatch.mk (AudioPatch.id in_requested) sourceIds sinkIds
                  kMinimumStreamBufferSizeFrames
                  (replicate (length sinkIds) kLatencyMs) in
              match existing with
              | None =>
                  let cfg := mConfig st1 in
                  let result' :=
                    AudioPatch.mk (Configuration.nextPatchId cfg) sourceIds sinkIds
                      (AudioPatch.minimumStreamBufferSizeFrames result)
                      (AudioPatch.latenciesMs result) in
                  let cfg' :=
                    with_patches (with_nextPatchId cfg (Configuration.nextPatchId cfg + 1))
                      (patches ++ [result']) in
                  (registerPatch (with_mConfig st1 cfg') result', Ret result')
              | Some _ =>
                  let cfg' :=
                    with_patches (mConfig st1)
                      (assign_at_id AudioPatch.id patches (AudioPatch.id in_requested)
                         (fun _ => result)) in
                  (registerPatch (with_mConfig st1 cfg') result, Ret result)
              end.

Definition resetAudioPatch (st : Module) (in_patchId : Z) : Module * outcome unit :=
  let patches := Configuration.patches (mConfig st) in
  match findById AudioPatch.id patches in_patchId with
  | Some patch =>
      let st1 := cleanUpPatch st (AudioPatch.id patch) in
      (with_mConfig st1
         (with_patches (mConfig st1) (erase_at_id AudioPatch.id patches in_patchId)),
       Ret ())
  | None => (st, Exn EX_ILLEGAL_ARGUMENT LogOther)
  end.

(** ** Port configs *)

(** [generateDefaultPortConfig]: [None] stands for the result [false]. *)
Definition generateDefaultPortConfig (port : AudioPort.t) : option AudioPortConfig.t :=
  match AudioPort.profiles port with
  | [] => None
  | profile :: _ =>
      match AudioProfile.channelMasks profile with
      | [] => None
      | channelMask :: _ =>
          match AudioProfile.sampleRates profile with
          | [] => None
          | sampleRate :: _ =>
              Some (AudioPortConfig.mk 0 (AudioPort.id port) (Some sampleRate)
                      (Some channelMask) (Some (AudioProfile.format profile)) None
                      (Some (AudioPort.flags port)) (AudioPort.ext port))
          end
      end
  end.

Definition findAudioProfile (port : AudioPort.t) (format : AudioFormatDescription.t)
    : option AudioProfile.t :=
  List.find (fun profile => bool_decide (AudioProfile.format profile = format))
            (AudioPort.profiles port).

Definition set_format (c : AudioPortConfig.t) (f : AudioFormatDescription.t) :=
  AudioPortConfig.mk (AudioPortConfig.id c) (AudioPortConfig.portId c)
    (AudioPortConfig.sampleRate c) (AudioPortConfig.channelMask c) (Some f)
    (AudioPortConfig.gain c) (AudioPortConfig.flags c) (AudioPortConfig.ext c).

Definition set_channelMask (c : AudioPortConfig.t) (m : AudioChannelLayout.t) :=
  AudioPortConfig.mk (AudioPortConfig.id c) (AudioPortConfig.portId c)
    (AudioPortConfig.sampleRate c) (Some m) (AudioPortConfig.format c)
    (AudioPortConfig.gain c) (AudioPortConfig.flags c) (AudioPortConfig.ext c).

Definition set_sampleRate (c : AudioPortConfig.t) (r : Z) :=
  AudioPortConfig.mk (AudioPortConfig.id c) (AudioPortConfig.portId c)
    (Some r) (AudioPortConfig.channelMask c) (AudioPortConfig.format c)
    (AudioPortConfig.gain c) (AudioPortConfig.flags c) (AudioPortConfig.ext c).

Definition set_gain (c : AudioPortConfig.t) (g : Z) :=
  AudioPortConfig.mk (AudioPortConfig.id c) (AudioPortConfig.portId c)
    (AudioPortConfig.sampleRate c) (AudioPortConfig.channelMask c)
    (AudioPortConfig.format c) (Some g) (AudioPortConfig.flags c)
    (AudioPortConfig.ext c).

Definition set_id (c : AudioPortConfig.t) (i : Z) :=
  AudioPortConfig.mk i (AudioPortConfig.portId c)
    (AudioPortConfig.sampleRate c) (AudioPortConfig.channelMask c)
    (AudioPortConfig.format c) (AudioPortConfig.gain c) (AudioPortConfig.flags c)
    (AudioPortConfig.ext c).

(** The local variables of [setAudioPortConfig] that the field checks
    update. *)
Record Negotiation := {
  out_suggested : AudioPortConfig.t;
  requestedIsValid : bool;
  requestedIsFullySpecified : bool
}.

Definition check_flags (port : AudioPort.t) (in_requested : AudioPortConfig.t)
    (n : Negotiation) : Negotiation :=
  match AudioPortConfig.flags in_requested with
  | Some flags =>
      if bool_decide (flags = AudioPort.flags port) then n
      else Build_Negotiation (out_suggested n) false (requestedIsFullySpecified n)
  | None => Build_Negotiation (out_suggested n) (requestedIsValid n) false
  end.

Definition check_format (port : AudioPort.t) (in_requested : AudioPortConfig.t)
    (n : Negotiation) : Negotiation :=
  match AudioPortConfig.format in_requested with
  | Some format =>
      match findAudioProfile port format with
      | Some _ => Build_Negotiation (set_format (out_suggested n) format)
                    (requestedIsValid n) (requestedIsFullySpecified n)
      | None => Build_Negotiation (out_suggested n) false (requestedIsFullySpecified n)
      end
  | None => Build_Negotiation (out_suggested n) (requestedIsValid n) false
  end.

Definition check_channelMask (portProfile : AudioProfile.t)
    (in_requested : AudioPortConfig.t) (n : Negotiation) : Negotiation :=
  match AudioPortConfig.channelMask in_requested with
  | Some channelMask =>
      if bool_decide (channelMask ∈ AudioProfile.channelMasks portProfile)
      then Build_Negotiation (set_channelMask (out_suggested n) channelMask)
             (requestedIsValid n) (requestedIsFullySpecified n)
      else Build_Negotiation (out_suggested n) false (requestedIsFullySpecified n)
  | None => Build_Negotiation (out_suggested n) (requestedIsValid n) false
  end.

Definition check_sampleRate (portProfile : AudioProfile.t)
    (in_requested : AudioPortConfig.t) (n : Negotiation) : Negotiation :=
  match AudioPortConfig.sampleRate in_requested with
  | Some sampleRate =>
      if bool_decide (sampleRate ∈ AudioProfile.sampleRates portProfile)
      then Build_Negotiation (set_sampleRate (out_suggested n) sampleRate)
             (requestedIsValid n) (requestedIsFullySpecified n)
      else Build_Negotiation (out_suggested n) false (requestedIsFullySpecified n)
  | None => Build_Negotiation (out_suggested n) (requestedIsValid n) false
  end.

Definition check_gain (in_requested : AudioPortConfig.t) (n : Negotiation)
    : Negotiation :=
  match AudioPortConfig.gain in_requested with
  | Some gain => Build_Negotiation (set_gain (out_suggested n) gain)
                   (requestedIsValid n) (requestedIsFullySpecified n)
  | None => n
  end.

Definition setAudioPortConfig (st : Module) (in_requested : AudioPortConfig.t)
    : Module * outcome (AudioPortConfig.t * bool) :=
  let cfg := mConfig st in
  let configs := Configuration.portConfigs cfg in
  let existing :=
    if bool_decide (AudioPortConfig.id in_requested = 0) then None
    else findById AudioPortConfig.id configs (AudioPortConfig.id in_requested) in
  if negb (bool_decide (AudioPortConfig.id in_requested = 0))
     && negb (bool_decide (is_Some existing))
  then (st, Exn EX_ILLEGAL_ARGUMENT LogOther)
  else
    let portId := match existing with
                  | Some e => AudioPortConfig.portId e
                  | None => AudioPortConfig.portId in_requested
                  end in
    if bool_decide (portId = 0) then (st, Exn EX_ILLEGAL_ARGUMENT LogOther)
    else
      match findById AudioPort.id (Configuration.ports cfg) portId with
      | None => (st, Exn EX_ILLEGAL_ARGUMENT LogOther)
      | Some port =>
          match (match existing with
                 | Some e => Some e
                 | None => generateDefaultPortConfig port
                 end) with
          | None => (st, Exn EX_ILLEGAL_ARGUMENT LogOther)
          | Some seed =>
              let n1 := check_flags port in_requested (Build_Negotiation seed true true) in
              let n2 := check_format port in_requested n1 in
              match AudioPortConfig.format (out_suggested n2) with
              | None => (st, Abort)
              | Some format =>
                  match findAudioProfile port format with
                  | None => (st, Exn EX_ILLEGAL_ARGUMENT LogOther)
                  | Some portProfile =>
                      let n3 := check_channelMask portProfile in_requested n2 in
                      let n4 := check_sampleRate portProfile in_requested n3 in
                      let n5 := check_gain in_requested n4 in
                      if negb (bool_decide (is_Some existing))
                         && requestedIsValid n5 && requestedIsFullySpecified n5
                      then
                        let created := set_id (out_suggested n5)
                                         (Configuration.nextPortId cfg) in
                        (with_mConfig st
                           (with_portConfigs
                              (with_nextPortId cfg (Configuration.nextPortId cfg + 1))
                              (configs ++ [created])),
                         Ret (created, true))
                      else if bool_decide (is_Some existing) && requestedIsValid n5
                      then
                        (with_mConfig st
                           (with_portConfigs cfg
                              (assign_at_id AudioPortConfig.id configs
                                 (AudioPortConfig.id in_requested)
                                 (fun _ => out_suggested n5))),
                         Ret (out_suggested n5, true))
                      else (st, Ret (out_suggested n5, false))
                  end
              end
          end
      end.

(** ** External devices *)

(** The ids of a [std::set<int32_t>] in iteration order. *)
Definition set_in_order (s : gset Z) : list Z := merge_sort Z.le (elements s).

(** The loop of [connectExternalDevice] over the connected device ports:
    [Some o] is an early exit with [o], [None] the end of the loop. *)
Fixpoint already_connected (ports : list AudioPort.t) (device : AudioDevice.t)
    (connected : list Z) : option (outcome AudioPort.t) :=
  match connected with
  | [] => None
  | connectedPortId :: rest =>
      match findById AudioPort.id ports connectedPortId with
      | None => Some Abort
      | Some connectedPort =>
          match AudioPort.ext connectedPort with
          | AudioPortExt.device d =>
              if bool_decide (AudioPortDeviceExt.device d = device)
              then Some (Exn EX_ILLEGAL_STATE LogOther)
              else already_connected ports device rest
          | _ => Some Abort
          end
      end
  end.

(** The loop of [connectExternalDevice] over the routes: the routes updated
    in place, and [newRoutes]. *)
Definition extend_route (templateId connectedId : Z) (r : AudioRoute.t) : AudioRoute.t :=
  if bool_decide (AudioRoute.sinkPortId r = templateId) then r
  else if bool_decide (templateId ∈ AudioRoute.sourcePortIds r)
  then AudioRoute.mk (AudioRoute.sourcePortIds r ++ [connectedId])
         (AudioRoute.sinkPortId r) (AudioRoute.isExclusive r)
  else r.

Definition clone_route (templateId connectedId : Z) (r : AudioRoute.t)
    : list AudioRoute.t :=
  if bool_decide (AudioRoute.sinkPortId r = templateId)
  then [AudioRoute.mk (AudioRoute.sourcePortIds r) connectedId (AudioRoute.isExclusive r)]
  else [].

Definition connect_routes (templateId connectedId : Z) (routes : list AudioRoute.t)
    : list AudioRoute.t :=
  List.map (extend_route templateId connectedId) routes
  ++ List.concat (List.map (clone_route templateId connectedId) routes).

Definition connectExternalDevice (st : Module)
    (in_templateIdAndAdditionalData : AudioPort.t) : Module * outcome AudioPort.t :=
  let cfg := mConfig st in
  let templateId := AudioPort.id in_templateIdAndAdditionalData in
  let ports := Configuration.ports cfg in
  match findById AudioPort.id ports templateId with
  | None => (st, Exn EX_ILLEGAL_ARGUMENT LogOther)
  | Some template =>
      match AudioPort.ext template with
      | AudioPortExt.device templateDevicePort =>
          if negb (is_empty (AudioPort.profiles template))
          then (st, Exn EX_ILLEGAL_ARGUMENT LogOther)
          else if bool_decide
                    (AudioDeviceDescription.connection
                       (AudioDevice.type (AudioPortDeviceExt.device templateDevicePort))
                     = EmptyString)
          then (st, Exn EX_ILLEGAL_ARGUMENT LogOther)
          else
            match AudioPort.ext in_templateIdAndAdditionalData with
            | AudioPortExt.device inputDevicePort =>
                let connectedDevice :=
                  AudioDevice.mk
                    (AudioDevice.type (AudioPortDeviceExt.device templateDevicePort))
                    (AudioDevice.address (AudioPortDeviceExt.device inputDevicePort)) in
                let connectedExt :=
                  AudioPortExt.device
                    (AudioPortDeviceExt.mk connectedDevice
                       (AudioPortDeviceExt.flags templateDevicePort)) in
                match already_connected ports connectedDevice
                        (set_in_order (mConnectedDevicePorts st)) with
                | Some o => (st, o)
                | None =>
                    if negb (ModuleDebug.simulateDeviceConnections (mDebug st))
                    then (st, Exn EX_ILLEGAL_STATE LogOther)
                    else
                      let connectedId := Configuration.nextPortId cfg + 1 in
                      let profiles :=
                        match Configuration.connectedProfiles cfg !! templateId with
                        | Some ps => ps
                        | None => AudioPort.profiles template
                        end in
                      let connectedPort :=
                        AudioPort.mk connectedId profiles (AudioPort.flags template)
                          (AudioPort.extraAudioDescriptors in_templateIdAndAdditionalData)
                          connectedExt in
                      let cfg' :=
                        with_routes
                          (with_ports (with_nextPortId cfg connectedId)
                             (ports ++ [connectedPort]))
                          (connect_routes templateId connectedId
                             (Configuration.routes cfg)) in
                      (with_mConnectedDevicePorts (with_mConfig st cfg')
                         ({[ connectedId ]} ∪ mConnectedDevicePorts st),
                       Ret connectedPort)
                end
            | _ => (st, Abort)
            end
      | _ => (st, Exn EX_ILLEGAL_ARGUMENT LogOther)
      end
  end.

(** The predicate of the [find_if] in [disconnectExternalDevice]: a config
    of the port that the client provided or changed. *)
Definition is_client_config (initials : list AudioPortConfig.t) (in_portId : Z)
    (config : AudioPortConfig.t) : bool :=
  if bool_decide (AudioPortConfig.portId config = in_portId) then
    match findById AudioPortConfig.id initials (AudioPortConfig.id config) with
    | None => true
    | Some initial => negb (bool_decide (config = initial))
    end
  else false.

(** The loop of [disconnectExternalDevice] over the routes. *)
Fixpoint disconnect_routes (in_portId : Z) (routes : list AudioRoute.t)
    : list AudioRoute.t :=
  match routes with
  | [] => []
  | r :: rest =>
      if bool_decide (AudioRoute.sinkPortId r = in_portId)
      then disconnect_routes in_portId rest
      else AudioRoute.mk
             (erase_if (AudioRoute.sourcePortIds r)
                (fun src => bool_decide (src = in_portId)))
             (AudioRoute.sinkPortId r) (AudioRoute.isExclusive r)
           :: disconnect_routes in_portId rest
  end.

Definition disconnectExternalDevice (st : Module) (in_portId : Z)
    : Module * outcome unit :=
  let cfg := mConfig st in
  let ports := Configuration.ports cfg in
  match findById AudioPort.id ports in_portId with
  | None => (st, Exn EX_ILLEGAL_ARGUMENT LogOther)
  | Some port =>
      match AudioPort.ext port with
      | AudioPortExt.device _ =>
          if negb (bool_decide (in_portId ∈ mConnectedDevicePorts st))
          then (st, Exn EX_ILLEGAL_ARGUMENT LogOther)
          else
            match List.find
                    (is_client_config (Configuration.initialConfigs cfg) in_portId)
                    (Configuration.portConfigs cfg) with
            | Some _ => (st, Exn EX_ILLEGAL_STATE LogOther)
            | None =>
                let cfg' :=
                  with_routes
                    (with_ports cfg (erase_at_id AudioPort.id ports in_portId))
                    (disconnect_routes in_portId (Configuration.routes cfg)) in
                (with_mConnectedDevicePorts (with_mConfig st cfg')
                   (mConnectedDevicePorts st ∖ {[ in_portId ]}),
                 Ret ())
            end
      | _ => (st, Exn EX_ILLEGAL_ARGUMENT LogOther)
      end
  end.

(** ** Opening streams *)

Module OpenInputStreamArguments.
Record t := mk { portConfigId : Z; sinkMetadata : Z; bufferSizeFrames : Z }.
End OpenInputStreamArguments.

Module OpenOutputStreamArguments.
Record t := mk {
  portConfigId : Z;
  sourceMetadata : Z;
  offloadInfo : option Z;
  bufferSizeFrames : Z
}.
End OpenOutputStreamArguments.

Definition openInputStream `{K : ModuleConstants} (st : Module)
    (in_args : OpenInputStreamArguments.t) : Module * outcome StreamObject :=
  let portConfigId := OpenInputStreamArguments.portConfigId in_args in
  match findPortIdForNewStream st portConfigId with
  | Exn c l => (st, Exn c l)
  | Abort => (st, Abort)
  | Ret port =>
      match AudioPort.flags port with
      | input _ =>
          match createStreamDescriptor st portConfigId
                  (OpenInputStreamArguments.bufferSizeFrames in_args) with
          | Exn c l => (st, Exn c l)
          | Abort => (st, Abort)
          | Ret _ =>
              let stream := StreamIn (OpenInputStreamArguments.sinkMetadata in_args) in
              (with_mStreams st
                 (Streams.insert (mStreams st) (AudioPort.id port) portConfigId stream),
               Ret stream)
          end
      | output _ => (st, Exn EX_ILLEGAL_ARGUMENT LogOther)
      end
  end.

Definition openOutputStream `{K : ModuleConstants} (st : Module)
    (in_args : OpenOutputStreamArguments.t) : Module * outcome StreamObject :=
  let portConfigId := OpenOutputStreamArguments.portConfigId in_args in
  match findPortIdForNewStream st portConfigId with
  | Exn c l => (st, Exn c l)
  | Abort => (st, Abort)
  | Ret port =>
      match AudioPort.flags port with
      | output bits =>
          if negb (Z.land bits (Z.shiftl 1 COMPRESS_OFFLOAD) =? 0)
             && negb (bool_decide (is_Some (OpenOutputStreamArguments.offloadInfo in_args)))
          then (st, Exn EX_ILLEGAL_ARGUMENT LogOther)
          else
            match createStreamDescriptor st portConfigId
                    (OpenOutputStreamArguments.bufferSizeFrames in_args) with
            | Exn c l => (st, Exn c l)
            | Abort => (st, Abort)
            | Ret _ =>
                let stream :=
                  StreamOut (OpenOutputStreamArguments.sourceMetadata in_args)
                    (OpenOutputStreamArguments.offloadInfo in_args) in
                (with_mStreams st
                   (Streams.insert (mStreams st) (AudioPort.id port) portConfigId stream),
                 Ret stream)
            end
      | input _ => (st, Exn EX_ILLEGAL_ARGUMENT LogOther)
      end
  end.

(** ** Resetting a port config, the debug flags and the getters *)

(** [multimap::find]: an entry with the key, the first one, or [None] for the
    past-the-end iterator. *)
Definition multimap_find {V} (m : list (Z * V)) (k : Z) : option (Z * V) :=
  List.find (fun e => bool_decide (e.1 = k)) m.

Definition resetAudioPortConfig (st : Module) (in_portConfigId : Z)
    : Module * outcome unit :=
  let cfg := mConfig st in
  let configs := Configuration.portConfigs cfg in
  match findById AudioPortConfig.id configs in_portConfigId with
  | Some config =>
      if negb (Streams.count (mStreams st) in_portConfigId =? 0)
      then (st, Exn EX_ILLEGAL_STATE LogOther)
      else
        match multimap_find (mPatches st) in_portConfigId with
        | Some _ => (st, Exn EX_ILLEGAL_STATE LogOther)
        | None =>
            match findById AudioPortConfig.id (Configuration.initialConfigs cfg)
                    in_portConfigId with
            | None =>
                (with_mConfig st
                   (with_portConfigs cfg
                      (erase_at_id AudioPortConfig.id configs in_portConfigId)),
                 Ret ())
            | Some initial =>
                if negb (bool_decide (config = initial))
                then (with_mConfig st
                        (with_portConfigs cfg
                           (assign_at_id AudioPortConfig.id configs in_portConfigId
                              (fun _ => initial))),
                      Ret ())
                else (st, Ret ())
            end
        end
  | None => (st, Exn EX_ILLEGAL_ARGUMENT LogOther)
  end.

Definition with_mDebug (st : Module) (d : ModuleDebug.t) : Module :=
  Module_.mk (mConfig st) d (mConnectedDevicePorts st) (mStreams st) (mPatches st).

Definition setModuleDebug (st : Module) (in_debug : ModuleDebug.t)
    : Module * outcome unit :=
  if negb (bool_decide (ModuleDebug.simulateDeviceConnections (mDebug st)
                        = ModuleDebug.simulateDeviceConnections in_debug))
     && negb (bool_decide (mConnectedDevicePorts st = ∅))
  then (st, Exn EX_ILLEGAL_STATE LogOther)
  else (with_mDebug st in_debug, Ret ()).

Definition getAudioPatches (st : Module) : outcome (list AudioPatch.t) :=
  Ret (Configuration.patches (mConfig st)).

Definition getAudioPort (st : Module) (in_portId : Z) : outcome AudioPort.t :=
  match findById AudioPort.id (Configuration.ports (mConfig st)) in_portId with
  | Some port => Ret port
  | None => Exn EX_ILLEGAL_ARGUMENT LogOther
  end.

Definition getAudioPortConfigs (st : Module) : outcome (list AudioPortConfig.t) :=
  Ret (Configuration.portConfigs (mConfig st)).

Definition getAudioPorts (st : Module) : outcome (list AudioPort.t) :=
  Ret (Configuration.ports (mConfig st)).

Definition getAudioRoutes (st : Module) : outcome (list AudioRoute.t) :=
  Ret (Configuration.routes (mConfig st)).

(** The predicate of the [copy_if] in [getAudioRoutesForAudioPort]. *)
Definition route_touches (in_portId : Z) (r : AudioRoute.t) : bool :=
  bool_decide (AudioRoute.sinkPortId r = in_portId)
  || bool_decide (in_portId ∈ AudioRoute.sourcePortIds r).

(** [getAudioRoutesForAudioPort] appends, through a [back_inserter], to the
    vector it is handed, [_aidl_return]. *)
Definition getAudioRoutesForAudioPort (st : Module) (in_portId : Z)
    (_aidl_return : list AudioRoute.t) : outcome (list AudioRoute.t) :=
  match findById AudioPort.id (Configuration.ports (mConfig st)) in_portId with
  | None => Exn EX_ILLEGAL_ARGUMENT LogOther
  | Some _ =>
      Ret (_aidl_return
           ++ List.filter (route_touches in_portId) (Configuration.routes (mConfig st)))
  end.

(** ** A small configuration to run the operations on *)

Module Sample.
#[export] Instance constants : ModuleConstants := {
  kMinimumStreamBufferSizeFrames := 16;
  kMaximumStreamBufferSizeBytes := 2 ^ 30;
  kLatencyMs := 10;
  COMPRESS_OFFLOAD := 4
}.

Definition pcm16 : AudioFormatDescription.t :=
  AudioFormatDescription.mk PCM INT_16_BIT EmptyString.
Definition stereo : AudioChannelLayout.t := AudioChannelLayout.layoutMask 3.
Definition profile16 : AudioProfile.t :=
  AudioProfile.mk pcm16 [stereo] [48000].

Definition speaker : AudioDevice.t :=
  AudioDevice.mk (AudioDeviceDescription.mk 2 EmptyString) EmptyString.
Definition usb_template : AudioDevice.t :=
  AudioDevice.mk (AudioDeviceDescription.mk 7 "usb") EmptyString.

(** Port 1: an output mix port; port 2: the attached speaker; port 3: the
    template of a USB device; port 4: an offload mix port; port 5: a second
    output mix port. *)
Definition mix_port : AudioPort.t :=
  AudioPort.mk 1 [profile16] (output 0) []
    (AudioPortExt.mix (AudioPortMixExt.mk 0 0)).
Definition speaker_port : AudioPort.t :=
  AudioPort.mk 2 [profile16] (output 0) []
    (AudioPortExt.device (AudioPortDeviceExt.mk speaker 0)).
Definition usb_port : AudioPort.t :=
  AudioPort.mk 3 [] (output 0) []
    (AudioPortExt.device (AudioPortDeviceExt.mk usb_template 0)).
Definition offload_port : AudioPort.t :=
  AudioPort.mk 4 [profile16] (output 16) []
    (AudioPortExt.mix (AudioPortMixExt.mk 0 0)).

Definition second_mix_port : AudioPort.t :=
  AudioPort.mk 5 [profile16] (output 0) []
    (AudioPortExt.mix (AudioPortMixExt.mk 0 0)).

Definition config_of (id portId : Z) (p : AudioPort.t) : AudioPortConfig.t :=
  AudioPortConfig.mk id portId (Some 48000) (Some stereo) (Some pcm16) None
    (Some (AudioPort.flags p)) (AudioPort.ext p).

(** Configs 10 and 11 belong to the mix port, 20 to the speaker, 30 to the
    USB template, 40 to the offload port, 45 to the second mix port. *)
Definition configs : list AudioPortConfig.t :=
  [config_of 10 1 mix_port; config_of 11 1 mix_port;
   config_of 20 2 speaker_port; config_of 30 3 usb_port;
   config_of 40 4 offload_port; config_of 45 5 second_mix_port].

Definition routes : list AudioRoute.t :=
  [AudioRoute.mk [1; 4] 2 true; AudioRoute.mk [5] 3 false].

Definition configuration : Configuration.t :=
  Configuration.mk
    [mix_port; speaker_port; usb_port; offload_port; second_mix_port] configs []
    {[ 3 := [profile16] ]} routes [] 50 1.

Definition module : Module :=
  Module_.mk configuration (ModuleDebug.mk true) ∅ [] [].

Definition patch (id : Z) (sources sinks : list Z) : AudioPatch.t :=
  AudioPatch.mk id sources sinks 0 [].

(** The request connecting a USB device at the template port 3, and the
    module after it. *)
Definition usb_request : AudioPort.t :=
  AudioPort.mk 3 [] (output 0) []
    (AudioPortExt.device
       (AudioPortDeviceExt.mk
          (AudioDevice.mk (AudioDeviceDescription.mk 0 EmptyString) "card0") 0)).
Definition usb_connected : Module := (connectExternalDevice module usb_request).1.

(** A fully specified request of a new config for the port [portId]. *)
Definition new_config_request (portId : Z) : AudioPortConfig.t :=
  AudioPortConfig.mk 0 portId (Some 48000) (Some stereo) (Some pcm16) None
    (Some (output 0)) AudioPortExt.unspecified.

(** The module after a first patch, from config 10 to the speaker over the
    exclusive route, and after a second one, from config 45 to the USB
    template over the other route. *)
Definition one_patch : Module :=
  (setAudioPatch module (patch 0 [10] [20])).1.
Definition two_patches : Module :=
  (setAudioPatch one_patch (patch 0 [45] [30])).1.
End Sample.

(** * Notions the properties are stated with *)

(** The number of bits set among the 32 bits of a mask, by position. *)
Definition mask_bits_set (m : Z) : Z :=
  Z.of_nat (length (List.filter (Z.testbit m) (List.map Z.of_nat (seq 0 32)))).

(** The channel count the frame size is specified with: the bits set in the
    mask of an index, layout or voice layout, and no channel otherwise. *)
Definition tagged_channel_count (layout : AudioChannelLayout.t) : Z :=
  match layout with
  | AudioChannelLayout.indexMask m
  | AudioChannelLayout.layoutMask m
  | AudioChannelLayout.voiceMask m => mask_bits_set m
  | _ => 0
  end.

(** The conditions under which a stream descriptor is refused, for a frame
    size and a buffer size in frames. *)
Definition descriptor_refused `{K : ModuleConstants} (frameSize n : Z) : Prop :=
  n <= 0 \/ n < kMinimumStreamBufferSizeFrames \/ frameSize = 0
  \/ frameSize > kMaximumStreamBufferSizeBytes ÷ n.

(** The ids a failure of [setAudioPatch] reports as missing. *)
Definition missing_ids_reported (o : outcome AudioPatch.t) : list Z :=
  match o with
  | Exn _ (LogSourceIdsNotFound l) => l
  | Exn _ (LogSinkIdsNotFound l) => l
  | _ => []
  end.

(** An id of a request that does not resolve to a port config. *)
Definition is_missing (st : Module) (i : Z) : Prop :=
  findById AudioPortConfig.id (Configuration.portConfigs (mConfig st)) i = None.

(** A failure of [setAudioPatch] that reports every missing id of the whole
    request. *)
Definition reports_all_missing_ids `{K : ModuleConstants} (st : Module)
    (req : AudioPatch.t) : Prop :=
  forall i,
    i ∈ AudioPatch.sourcePortConfigIds req ++ AudioPatch.sinkPortConfigIds req ->
    is_missing st i ->
    i ∈ missing_ids_reported (setAudioPatch st req).2.

(** The id lists of a request pass the first four checks of
    [setAudioPatch]. *)
Definition lists_well_formed (req : AudioPatch.t) : Prop :=
  AudioPatch.sourcePortConfigIds req <> []
  /\ NoDup (AudioPatch.sourcePortConfigIds req)
  /\ AudioPatch.sinkPortConfigIds req <> []
  /\ NoDup (AudioPatch.sinkPortConfigIds req).

(** A port config id resolves to a port config of the store. *)
Definition resolves_to (st : Module) (i : Z) (c : AudioPortConfig.t) : Prop :=
  findById AudioPortConfig.id (Configuration.portConfigs (mConfig st)) i = Some c.

(** A route of the store that leads from the port of a source of the request
    to the sink port [k]. *)
Definition route_for_request (st : Module) (req : AudioPatch.t) (k : Z)
    (r : AudioRoute.t) : Prop :=
  r ∈ Configuration.routes (mConfig st)
  /\ AudioRoute.sinkPortId r = k
  /\ exists i c, i ∈ AudioPatch.sourcePortConfigIds req /\ resolves_to st i c
                 /\ AudioPortConfig.portId c ∈ AudioRoute.sourcePortIds r.

(** The routes available to the request for the sink port [k] are all
    exclusive, and there is one. *)
Definition only_exclusive_routes (st : Module) (req : AudioPatch.t) (k : Z) : Prop :=
  (exists r, route_for_request st req k r)
  /\ forall r, route_for_request st req k r -> AudioRoute.isExclusive r = true.

(** The index has the port [k] under a patch other than the one the request
    updates. *)
Definition claimed_by_other (st : Module) (req : AudioPatch.t) (k : Z) : Prop :=
  exists patchId, (k, patchId) ∈ mPatches st
                  /\ (AudioPatch.id req = 0 \/ patchId <> AudioPatch.id req).

(** A request that gets as far as the check of exclusive sink ports: the id
    lists are non-empty and duplicate-free, every id resolves, every sink
    port has a route, and a request with an id names a patch of the store. *)
Definition reaches_exclusivity_check (st : Module) (req : AudioPatch.t) : Prop :=
  lists_well_formed req
  /\ (forall i, i ∈ AudioPatch.sourcePortConfigIds req ++ AudioPatch.sinkPortConfigIds req ->
         ~ is_missing st i)
  /\ (forall i c, i ∈ AudioPatch.sinkPortConfigIds req -> resolves_to st i c ->
         exists r, route_for_request st req (AudioPortConfig.portId c) r)
  /\ (AudioPatch.id req = 0
      \/ exists p, findById AudioPatch.id (Configuration.patches (mConfig st))
                     (AudioPatch.id req) = Some p).

(** The route [r] leads from the port [p] to the sink port [k]. *)
Definition serves (p k : Z) (r : AudioRoute.t) : bool :=
  bool_decide (p ∈ AudioRoute.sourcePortIds r)
  && bool_decide (AudioRoute.sinkPortId r = k).

Definition port_has_route (routes : list AudioRoute.t) (k : Z)
    (s : AudioPortConfig.t) : bool :=
  existsb (serves (AudioPortConfig.portId s) k) routes.

Definition port_has_open_route (routes : list AudioRoute.t) (k : Z)
    (s : AudioPortConfig.t) : bool :=
  existsb (fun r => serves (AudioPortConfig.portId s) k r
                    && negb (AudioRoute.isExclusive r)) routes.

(** No port, port config or route of the store refers to the port id [k]. *)
Definition port_id_unused (st : Module) (k : Z) : Prop :=
  Forall (fun p => AudioPort.id p <> k) (Configuration.ports (mConfig st))
  /\ Forall (fun c => AudioPortConfig.portId c <> k)
       (Configuration.portConfigs (mConfig st))
  /\ Forall (fun r => AudioRoute.sinkPortId r <> k /\ k ∉ AudioRoute.sourcePortIds r)
       (Configuration.routes (mConfig st)).

(** Every port id the store refers to is at most the counter of port ids. *)
Definition port_ids_bounded (st : Module) : Prop :=
  let n := Configuration.nextPortId (mConfig st) in
  Forall (fun p => AudioPort.id p <= n) (Configuration.ports (mConfig st))
  /\ Forall (fun c => AudioPortConfig.portId c <= n)
       (Configuration.portConfigs (mConfig st))
  /\ Forall (fun r => AudioRoute.sinkPortId r <= n
                      /\ Forall (fun s => s <= n) (AudioRoute.sourcePortIds r))
       (Configuration.routes (mConfig st)).








(** The module after a new config was appended under the next id. *)
Definition with_new_config (st : Module) (created : AudioPortConfig.t) : Module :=
  with_mConfig st
    (with_portConfigs
       (with_nextPortId (mConfig st) (Configuration.nextPortId (mConfig st) + 1))
       (Configuration.portConfigs (mConfig st) ++ [created])).

(** The module after the config with the given id was overwritten. *)
Definition with_updated_config (st : Module) (id : Z) (updated : AudioPortConfig.t)
    : Module :=
  with_mConfig st
    (with_portConfigs (mConfig st)
       (assign_at_id AudioPortConfig.id (Configuration.portConfigs (mConfig st)) id
          (fun _ => updated))).

(** The keys a patch is to have in the index: its source and sink port
    config ids and the ids of the ports these configs belong to. *)
Definition patch_key (st : Module) (p : AudioPatch.t) (k : Z) : Prop :=
  let ids := AudioPatch.sourcePortConfigIds p ++ AudioPatch.sinkPortConfigIds p in
  k ∈ ids
  \/ exists i c, i ∈ ids /\ resolves_to st i c /\ AudioPortConfig.portId c = k.

(** The index mirrors the patch list: for every patch of the store, the keys
    the index holds for the id of the patch are the keys of the patch. *)
Definition index_mirrors (st : Module) : Prop :=
  forall p, p ∈ Configuration.patches (mConfig st) ->
    forall k, (k, AudioPatch.id p) ∈ mPatches st <-> patch_key st p k.

(** The patch ids of the store are distinct and, like the patch ids in the
    index, below the counter of patch ids. *)
Definition patch_ids_consistent (st : Module) : Prop :=
  NoDup (List.map AudioPatch.id (Configuration.patches (mConfig st)))
  /\ Forall (fun p => AudioPatch.id p < Configuration.nextPatchId (mConfig st))
       (Configuration.patches (mConfig st))
  /\ Forall (fun e => e.2 < Configuration.nextPatchId (mConfig st)) (mPatches st).

(** Every id of the request resolves. *)
Definition all_resolve (st : Module) (req : AudioPatch.t) : Prop :=
  forall i,
    i ∈ AudioPatch.sourcePortConfigIds req ++ AudioPatch.sinkPortConfigIds req ->
    exists c, resolves_to st i c.

(** What [setAudioPatch] and [resetAudioPatch] keep true of the patches. *)
Definition patch_store_invariant (st : Module) : Prop :=
  index_mirrors st /\ patch_ids_consistent st.

(** Every entry of the index is under the id of a patch of the store. *)
Definition index_owned (st : Module) : Prop :=
  forall k v, (k, v) ∈ mPatches st ->
    exists p, p ∈ Configuration.patches (mConfig st) /\ AudioPatch.id p = v.

(** The entries of the index are exactly the keys of the patches of the
    store, each under the id of its patch. *)
Definition index_is_exact (st : Module) : Prop :=
  forall k v, (k, v) ∈ mPatches st
              <-> exists p, p ∈ Configuration.patches (mConfig st)
                            /\ AudioPatch.id p = v /\ patch_key st p k.

(** The patch that a successful [setAudioPatch] stores under the id [id]. *)
Definition stored_patch `{K : ModuleConstants} (id : Z) (req : AudioPatch.t)
    : AudioPatch.t :=
  AudioPatch.mk id (AudioPatch.sourcePortConfigIds req)
    (AudioPatch.sinkPortConfigIds req) kMinimumStreamBufferSizeFrames
    (replicate (length (AudioPatch.sinkPortConfigIds req)) kLatencyMs).

(** The module after [setAudioPatch] has made a new patch, and after it has
    updated a patch. *)
Definition with_new_patch `{K : ModuleConstants} (st : Module) (req : AudioPatch.t)
    : Module :=
  let p := stored_patch (Configuration.nextPatchId (mConfig st)) req in
  registerPatch
    (with_mConfig st
       (with_patches
          (with_nextPatchId (mConfig st) (Configuration.nextPatchId (mConfig st) + 1))
          (Configuration.patches (mConfig st) ++ [p])))
    p.

Definition with_updated_patch `{K : ModuleConstants} (st : Module) (req : AudioPatch.t)
    : Module :=
  let p := stored_patch (AudioPatch.id req) req in
  let st1 := cleanUpPatch st (AudioPatch.id req) in
  registerPatch
    (with_mConfig st1
       (with_patches (mConfig st1)
          (assign_at_id AudioPatch.id (Configuration.patches (mConfig st))
             (AudioPatch.id req) (fun _ => p))))
    p.

(** The states the module reaches from a store without patches by
    [setAudioPatch] and [resetAudioPatch], whatever these calls return. *)
Inductive patch_reachable `{K : ModuleConstants} (init : Module) : Module -> Prop :=
| reach_init : patch_reachable init init
| reach_set st req :
    patch_reachable init st -> patch_reachable init (setAudioPatch st req).1
| reach_reset st patchId :
    patch_reachable init st -> patch_reachable init (resetAudioPatch st patchId).1.

(** An operation that does not return a value leaves the module as it
    was. *)
Definition unchanged_on_failure {A} (st : Module) (r : Module * outcome A) : Prop :=
  match r.2 with
  | Ret _ => True
  | _ => r.1 = st
  end.

(** The ids of the port configs are distinct and below the counter of port
    ids. *)
Definition config_ids_consistent (st : Module) : Prop :=
  NoDup (List.map AudioPortConfig.id (Configuration.portConfigs (mConfig st)))
  /\ Forall (fun c => AudioPortConfig.id c < Configuration.nextPortId (mConfig st))
       (Configuration.portConfigs (mConfig st)).

(** A connected port that the loop of [connectExternalDevice] passes: it is
    in the port list, is a device port, and has another device. *)
Definition other_device (ports : list AudioPort.t) (device : AudioDevice.t) (i : Z)
    : Prop :=
  exists q d, findById AudioPort.id ports i = Some q
              /\ AudioPort.ext q = AudioPortExt.device d
              /\ AudioPortDeviceExt.device d <> device.

(** A patch with a source and a sink. *)
Definition has_both_ends (p : AudioPatch.t) : bool :=
  negb (is_empty (AudioPatch.sourcePortConfigIds p)
        || is_empty (AudioPatch.sinkPortConfigIds p)).

(** * Properties *)

(** ** Frame size *)

Lemma filter_testbit_shift (x : Z) (n : nat) :
  List.filter (Z.testbit x) (List.map Z.of_nat (seq 1 n))
  = List.map Z.succ
      (List.filter (Z.testbit (Z.div2 x)) (List.map Z.of_nat (seq 0 n))).
Proof.
  rewrite <- seq_shift.
  induction (seq 0 n) as [|i l IH]; [reflexivity|].
  cbn [List.map List.filter].
  rewrite Z.div2_spec, Z.shiftr_spec by lia.
  replace (Z.of_nat i + 1) with (Z.of_nat (S i)) by lia.
  destruct (Z.testbit x (Z.of_nat (S i))); cbn [List.map]; rewrite IH;
    [f_equal; lia | reflexivity].
Qed.

Lemma popcount_loop_counts_bits (n : nat) (x : Z) :
  popcount_loop n x
  = Z.of_nat (length (List.filter (Z.testbit x) (List.map Z.of_nat (seq 0 n)))).
Proof.
  revert x; induction n as [|n IH]; intros x; [reflexivity|].
  cbn [popcount_loop seq List.map List.filter].
  rewrite IH, filter_testbit_shift, Z.bit0_odd.
  destruct (Z.odd x); cbn [length Z.b2z]; rewrite ?length_map; lia.
Qed.

Lemma getChannelCount_counts_bits (layout : AudioChannelLayout.t) :
  getChannelCount layout = tagged_channel_count layout.
Proof.
  destruct layout; try reflexivity;
    unfold getChannelCount, tagged_channel_count, builtin_popcount, mask_bits_set;
    apply popcount_loop_counts_bits.
Qed.

Lemma mask_bits_set_bounds (m : Z) : 0 <= mask_bits_set m <= 32.
Proof.
  unfold mask_bits_set. split; [lia|].
  pose proof (filter_length_le (Z.testbit m) (List.map Z.of_nat (seq 0 32))) as H.
  rewrite length_map, length_seq in H. lia.
Qed.

(** C7.  For a PCM format the frame size is the byte size of the PCM subtype
    (1 for 8 bit, 2 for 16 bit, 3 for 24 bit, 4 for 32 bit, Q8.24 and float)
    times the number of bits set in the mask of an index, layout or voice
    channel layout, a layout tagged none or invalid counting no channel and
    giving the frame size 0; for any other format the frame size is 1
    whatever the layout is. *)
Theorem getFrameSizeInBytes_by_format (enc : string) (layout : AudioChannelLayout.t) :
  let pcm_format t := AudioFormatDescription.mk PCM t enc in
  getFrameSizeInBytes (pcm_format UINT_8_BIT) layout = 1 * tagged_channel_count layout
  /\ getFrameSizeInBytes (pcm_format INT_16_BIT) layout = 2 * tagged_channel_count layout
  /\ getFrameSizeInBytes (pcm_format INT_24_BIT) layout = 3 * tagged_channel_count layout
  /\ getFrameSizeInBytes (pcm_format INT_32_BIT) layout = 4 * tagged_channel_count layout
  /\ getFrameSizeInBytes (pcm_format FIXED_Q_8_24) layout = 4 * tagged_channel_count layout
  /\ getFrameSizeInBytes (pcm_format FLOAT_32_BIT) layout = 4 * tagged_channel_count layout
  /\ (forall t, getFrameSizeInBytes (pcm_format t) AudioChannelLayout.none = 0)
  /\ (forall t, getFrameSizeInBytes (pcm_format t) AudioChannelLayout.invalid = 0)
  /\ (forall t, getFrameSizeInBytes (AudioFormatDescription.mk NON_PCM t enc) layout = 1)
  /\ (forall t, getFrameSizeInBytes
                  (AudioFormatDescription.mk SYS_RESERVED_INVALID t enc) layout = 1).
Proof.
  cbn zeta. unfold getFrameSizeInBytes. cbn [AudioFormatDescription.type
    AudioFormatDescription.pcm getPcmSampleSizeInBytes].
  rewrite getChannelCount_counts_bits.
  repeat split; try reflexivity.
  - intros t; cbn; lia.
  - intros t; cbn; lia.
Qed.

(** The frame sizes named by the specification: 16-bit PCM on two channels
    takes 4 bytes, an encoded format 1 byte. *)
Example frame_size_pcm16_stereo :
  getFrameSizeInBytes Sample.pcm16 Sample.stereo = 4
  /\ getFrameSizeInBytes (AudioFormatDescription.mk NON_PCM UINT_8_BIT "mp3")
       Sample.stereo = 1.
Proof. split; reflexivity. Qed.

(** ** Stream descriptors *)

Lemma to_size_t_small (z : Z) : 0 <= z < 2 ^ 64 -> to_size_t z = z.
Proof. intros H. unfold to_size_t. apply Z.mod_small; lia. Qed.

Lemma quot_ceiling_bounds (maxBytes n : Z) :
  0 <= maxBytes < 2 ^ 63 -> 0 < n ->
  0 <= maxBytes ÷ n < 2 ^ 64 /\ maxBytes ÷ n = maxBytes / n.
Proof.
  intros Hm Hn. rewrite Z.quot_div_nonneg by lia. split; [|reflexivity].
  split; [apply Z.div_pos; lia|].
  apply Z.le_lt_trans with maxBytes; [|lia].
  apply Z.div_le_upper_bound; nia.
Qed.

Section StreamDescriptor.
Context `{K : ModuleConstants}.
Variables (st : Module) (in_portConfigId : Z) (portConfig : AudioPortConfig.t).
Variables (format : AudioFormatDescription.t) (channelMask : AudioChannelLayout.t).
Hypothesis ceiling_range : 0 <= kMaximumStreamBufferSizeBytes < 2 ^ 63.
Hypothesis config_found :
  findById AudioPortConfig.id (Configuration.portConfigs (mConfig st))
    in_portConfigId = Some portConfig.
Hypothesis has_format : AudioPortConfig.format portConfig = Some format.
Hypothesis has_channelMask : AudioPortConfig.channelMask portConfig = Some channelMask.

Let frameSize := getFrameSizeInBytes format channelMask.

Lemma createStreamDescriptor_cases (n : Z) :
  (descriptor_refused frameSize n /\
     createStreamDescriptor st in_portConfigId n = Exn EX_ILLEGAL_ARGUMENT LogOther)
  \/ (~ descriptor_refused frameSize n /\ createStreamDescriptor st in_portConfigId n = Ret ()).
Proof.
  unfold createStreamDescriptor, descriptor_refused.
  destruct (Z.leb_spec n 0) as [Hn|Hn]; [left; split; [lia|reflexivity]|].
  destruct (Z.ltb_spec n kMinimumStreamBufferSizeFrames) as [Hk|Hk];
    [left; split; [lia|reflexivity]|].
  rewrite config_found, has_format, has_channelMask. cbn zeta. fold frameSize.
  destruct (Z.eqb_spec frameSize 0) as [Hz|Hz]; [left; split; [lia|reflexivity]|].
  destruct (quot_ceiling_bounds _ n ceiling_range Hn) as [Hb _].
  rewrite (to_size_t_small _ Hb).
  destruct (Z.gtb_spec frameSize (kMaximumStreamBufferSizeBytes ÷ n)) as [Hg|Hg].
  - left; split; [lia|reflexivity].
  - right; split; [lia|reflexivity].
Qed.

(** C6.  For a port config that is found and has a format and a channel
    mask, and a byte ceiling that is a non-negative signed constant,
    [createStreamDescriptor] fails, with an illegal argument, exactly when
    the buffer size is not positive, or below the minimum number of
    frames, or the frame size is 0, or the frame size is larger than the
    byte ceiling divided by the buffer size; otherwise it succeeds.  With a
    frame size of 4, a buffer of a quarter of the ceiling plus one frame
    is refused and a buffer of a quarter of the ceiling is accepted. *)
Theorem createStreamDescriptor_refuses_exactly :
  (forall n,
     failed_with (createStreamDescriptor st in_portConfigId n) EX_ILLEGAL_ARGUMENT
     <-> descriptor_refused frameSize n)
  /\ (forall n, ~ descriptor_refused frameSize n ->
        createStreamDescriptor st in_portConfigId n = Ret ())
  /\ (frameSize = 4 ->
      0 < kMaximumStreamBufferSizeBytes ÷ 4 ->
      kMinimumStreamBufferSizeFrames <= kMaximumStreamBufferSizeBytes ÷ 4 ->
      failed_with
        (createStreamDescriptor st in_portConfigId
           (kMaximumStreamBufferSizeBytes ÷ 4 + 1)) EX_ILLEGAL_ARGUMENT
      /\ createStreamDescriptor st in_portConfigId
           (kMaximumStreamBufferSizeBytes ÷ 4) = Ret ()).
Proof.
  assert (Hiff : forall n,
    failed_with (createStreamDescriptor st in_portConfigId n) EX_ILLEGAL_ARGUMENT
    <-> descriptor_refused frameSize n).
  { intros n. destruct (createStreamDescriptor_cases n) as [[Hr He]|[Hr He]];
      rewrite He; split; intros H; try tauto.
    - exists LogOther; reflexivity.
    - destruct H as [l Hl]; discriminate. }
  assert (Hok : forall n, ~ descriptor_refused frameSize n ->
    createStreamDescriptor st in_portConfigId n = Ret ()).
  { intros n Hn. destruct (createStreamDescriptor_cases n) as [[Hr _]|[_ He]];
      [tauto|exact He]. }
  split; [exact Hiff|]. split; [exact Hok|].
  intros Hfs Hpos Hmin.
  set (q := kMaximumStreamBufferSizeBytes ÷ 4) in *.
  assert (Hq : q = kMaximumStreamBufferSizeBytes / 4).
  { unfold q. apply Z.quot_div_nonneg; lia. }
  split.
  - apply Hiff. unfold descriptor_refused. right; right; right.
    rewrite Hfs, Z.quot_div_nonneg by lia.
    apply Z.lt_gt, Z.div_lt_upper_bound; [lia|].
    pose proof (Z.mod_pos_bound kMaximumStreamBufferSizeBytes 4 ltac:(lia)).
    pose proof (Z.div_mod kMaximumStreamBufferSizeBytes 4 ltac:(lia)). lia.
  - apply Hok. unfold descriptor_refused. intros [H|[H|[H|H]]]; try lia.
    rewrite Hfs, Z.quot_div_nonneg in H by lia.
    assert (4 <= kMaximumStreamBufferSizeBytes / q); [|lia].
    apply Z.div_le_lower_bound; [lia|].
    pose proof (Z.mod_pos_bound kMaximumStreamBufferSizeBytes 4 ltac:(lia)).
    pose proof (Z.div_mod kMaximumStreamBufferSizeBytes 4 ltac:(lia)). lia.
Qed.
End StreamDescriptor.

Lemma createStreamDescriptor_refuses_exactly_witness :
  failed_with
    (createStreamDescriptor (K := Sample.constants) Sample.module 10 (2 ^ 28 + 1))
    EX_ILLEGAL_ARGUMENT
  /\ createStreamDescriptor (K := Sample.constants) Sample.module 10 (2 ^ 28) = Ret ().
Proof.
  assert (Hrange : 0 <= 2 ^ 30 < 2 ^ 63) by lia.
  destruct (createStreamDescriptor_refuses_exactly (K := Sample.constants)
              Sample.module 10 (Sample.config_of 10 1 Sample.mix_port)
              Sample.pcm16 Sample.stereo Hrange eq_refl eq_refl eq_refl)
    as (_ & _ & Hquarter).
  apply Hquarter; [reflexivity | reflexivity | discriminate].
Defined.

(** ** Opening an output stream on an offload port *)

Lemma land_flag_nonzero (bits c : Z) :
  0 <= c -> Z.testbit bits c = true -> Z.land bits (Z.shiftl 1 c) <> 0.
Proof.
  intros Hc Hbit Hzero.
  assert (H : Z.testbit (Z.land bits (Z.shiftl 1 c)) c = true).
  { rewrite Z.land_spec, Hbit, Z.shiftl_spec, Z.sub_diag by lia. reflexivity. }
  rewrite Hzero, Z.bits_0 in H. discriminate.
Qed.

(** C10.  When the port config of an [openOutputStream] request resolves, by
    [findPortIdForNewStream], to an output port with the COMPRESS_OFFLOAD
    flag set and the arguments carry no offload info, the call fails with an
    illegal argument and the module, its stream registry included, is as
    before. *)
Theorem openOutputStream_offload_needs_info `{K : ModuleConstants} (st : Module)
    (in_args : OpenOutputStreamArguments.t) (port : AudioPort.t) (bits : Z) :
  0 <= COMPRESS_OFFLOAD ->
  findPortIdForNewStream st (OpenOutputStreamArguments.portConfigId in_args) = Ret port ->
  AudioPort.flags port = output bits ->
  Z.testbit bits COMPRESS_OFFLOAD = true ->
  OpenOutputStreamArguments.offloadInfo in_args = None ->
  openOutputStream st in_args = (st, Exn EX_ILLEGAL_ARGUMENT LogOther).
Proof.
  intros Hc Hport Hflags Hbit Hinfo. unfold openOutputStream.
  rewrite Hport, Hflags, Hinfo.
  destruct (Z.eqb_spec (Z.land bits (Z.shiftl 1 COMPRESS_OFFLOAD)) 0) as [Hz|Hz].
  - exfalso. exact (land_flag_nonzero _ _ Hc Hbit Hz).
  - reflexivity.
Qed.

Lemma openOutputStream_offload_needs_info_witness :
  openOutputStream (K := Sample.constants) Sample.module
    (OpenOutputStreamArguments.mk 40 0 None 64)
  = (Sample.module, Exn EX_ILLEGAL_ARGUMENT LogOther).
Proof.
  apply (openOutputStream_offload_needs_info (K := Sample.constants) Sample.module
           (OpenOutputStreamArguments.mk 40 0 None 64) Sample.offload_port 16);
    first [reflexivity | discriminate].
Defined.

(** With offload info the same request goes through and the stream is
    entered under the port config and the port. *)
Example openOutputStream_offload_with_info :
  let r := openOutputStream (K := Sample.constants) Sample.module
             (OpenOutputStreamArguments.mk 40 0 (Some 1) 64) in
  r.2 = Ret (StreamOut 0 (Some 1))
  /\ mStreams r.1 = [(4, StreamOut 0 (Some 1)); (40, StreamOut 0 (Some 1))].
Proof. split; reflexivity. Qed.

(** ** Missing port config ids of a patch request *)

Lemma missing_of_selectByIds (configs : list AudioPortConfig.t) (ids : list Z) (i : Z) :
  i ∈ (selectByIds AudioPortConfig.id configs ids).2
  <-> i ∈ ids /\ findById AudioPortConfig.id configs i = None.
Proof.
  unfold selectByIds. cbn [snd].
  rewrite list_elem_of_In, filter_In, <- list_elem_of_In.
  destruct (findById AudioPortConfig.id configs i) as [c|] eqn:Hf.
  - rewrite bool_decide_eq_true_2 by eauto. cbn. split; intros [? ?]; discriminate.
  - rewrite bool_decide_eq_false_2 by (intros [? ?]; discriminate). cbn. tauto.
Qed.

Lemma is_empty_false {T} (v : list T) : v <> [] -> is_empty v = false.
Proof. destruct v; [congruence | reflexivity]. Qed.

Lemma all_unique_true (v : list Z) : NoDup v -> all_unique v = true.
Proof. intros H. unfold all_unique. apply bool_decide_eq_true_2, H. Qed.

(** The request of the sample module that misses a source id, 98, and a sink
    id, 99: only the source id is reported. *)
Lemma setAudioPatch_reports_sources_only :
  (setAudioPatch (K := Sample.constants) Sample.module
     (Sample.patch 0 [10; 98] [20; 99])).2
  = Exn EX_ILLEGAL_ARGUMENT (LogSourceIdsNotFound [98])
  /\ ~ reports_all_missing_ids (K := Sample.constants) Sample.module
        (Sample.patch 0 [10; 98] [20; 99]).
Proof.
  split; [reflexivity|].
  intros H. specialize (H 99).
  assert (Hin : 99 ∈ missing_ids_reported
                  (setAudioPatch (K := Sample.constants) Sample.module
                     (Sample.patch 0 [10; 98] [20; 99])).2).
  { apply H; [|reflexivity]. cbn. set_solver. }
  vm_compute in Hin. apply list_elem_of_In in Hin. cbn in Hin. lia.
Qed.

(** C8, amended.  A request whose id lists pass the first checks and that
    names a source id that does not resolve fails with an illegal argument
    and reports exactly the source ids that do not resolve; when every
    source id resolves and a sink id does not, it fails with an illegal
    argument and reports exactly the sink ids that do not resolve.  The
    module is unchanged in both cases. *)
Theorem setAudioPatch_reports_missing_per_list `{K : ModuleConstants} (st : Module)
    (req : AudioPatch.t) :
  lists_well_formed req ->
  ((exists i, i ∈ AudioPatch.sourcePortConfigIds req /\ is_missing st i) ->
   exists l, setAudioPatch st req = (st, Exn EX_ILLEGAL_ARGUMENT (LogSourceIdsNotFound l))
             /\ forall i, i ∈ l <-> i ∈ AudioPatch.sourcePortConfigIds req /\ is_missing st i)
  /\ ((forall i, i ∈ AudioPatch.sourcePortConfigIds req -> ~ is_missing st i) ->
      (exists i, i ∈ AudioPatch.sinkPortConfigIds req /\ is_missing st i) ->
      exists l, setAudioPatch st req = (st, Exn EX_ILLEGAL_ARGUMENT (LogSinkIdsNotFound l))
                /\ forall i, i ∈ l <-> i ∈ AudioPatch.sinkPortConfigIds req /\ is_missing st i).
Proof.
  intros (Hs & Hsu & Hk & Hku).
  pose proof (missing_of_selectByIds (Configuration.portConfigs (mConfig st))
                (AudioPatch.sourcePortConfigIds req)) as Hsrc.
  pose proof (missing_of_selectByIds (Configuration.portConfigs (mConfig st))
                (AudioPatch.sinkPortConfigIds req)) as Hsnk.
  unfold setAudioPatch.
  rewrite (is_empty_false _ Hs), (is_empty_false _ Hk),
    (all_unique_true _ Hsu), (all_unique_true _ Hku). cbn [negb].
  destruct (selectByIds AudioPortConfig.id (Configuration.portConfigs (mConfig st))
              (AudioPatch.sourcePortConfigIds req)) as [sources missingSrc].
  destruct (selectByIds AudioPortConfig.id (Configuration.portConfigs (mConfig st))
              (AudioPatch.sinkPortConfigIds req)) as [sinks missingSnk].
  cbn [snd] in Hsrc, Hsnk. split.
  - intros (i & Hi & Hm).
    assert (Hne : missingSrc <> []).
    { intros ->. assert (Hnil : i ∈ @nil Z) by (apply Hsrc; auto). inversion Hnil. }
    rewrite (is_empty_false _ Hne). cbn [negb]. exists missingSrc. split; [reflexivity|].
    exact Hsrc.
  - intros Hall (i & Hi & Hm).
    assert (He : missingSrc = []).
    { destruct missingSrc as [|j l]; [reflexivity|].
      assert (Hj : j ∈ j :: l) by apply list_elem_of_here.
      apply Hsrc in Hj. destruct Hj as [Hj1 Hj2]. exfalso. exact (Hall j Hj1 Hj2). }
    rewrite He. cbn [is_empty negb].
    assert (Hne : missingSnk <> []).
    { intros ->. assert (Hnil : i ∈ @nil Z) by (apply Hsnk; auto). inversion Hnil. }
    rewrite (is_empty_false _ Hne). cbn [negb]. exists missingSnk. split; [reflexivity|].
    exact Hsnk.
Qed.

Lemma setAudioPatch_reports_missing_per_list_witness :
  exists l,
    setAudioPatch (K := Sample.constants) Sample.module (Sample.patch 0 [10] [20; 99; 97])
    = (Sample.module, Exn EX_ILLEGAL_ARGUMENT (LogSinkIdsNotFound l))
    /\ forall i, i ∈ l <-> i ∈ [20; 99; 97] /\ is_missing Sample.module i.
Proof.
  assert (Hwf : lists_well_formed (Sample.patch 0 [10] [20; 99; 97])).
  { repeat split; try discriminate; compute_done. }
  destruct (setAudioPatch_reports_missing_per_list (K := Sample.constants)
              Sample.module (Sample.patch 0 [10] [20; 99; 97]) Hwf) as [_ Hsinks].
  apply Hsinks.
  - intros i Hi Hm. cbn in Hi. apply list_elem_of_In in Hi. cbn in Hi.
    destruct Hi as [<-|[]]. vm_compute in Hm. discriminate.
  - exists 99. split; [compute_done | reflexivity].
Defined.

(** ** The sink ports a request may use *)

Lemma allow_route_lookup (p k : Z) (m : gmap Z bool) (r : AudioRoute.t) :
  allow_route p m r !! k
  = if serves p k r
    then Some (default false (m !! k) || negb (AudioRoute.isExclusive r))
    else m !! k.
Proof.
  unfold allow_route, serves.
  destruct (bool_decide (p ∈ AudioRoute.sourcePortIds r)); [|reflexivity].
  cbn [andb]. case_bool_decide as Hk.
  - subst k. destruct (m !! AudioRoute.sinkPortId r) as [[|]|] eqn:Hm; cbn.
    + exact Hm.
    + apply lookup_insert_eq.
    + apply lookup_insert_eq.
  - destruct (negb _); [|reflexivity]. apply lookup_insert_ne, Hk.
Qed.

Lemma existsb_hit_false {A} (hit opn : A -> bool) (l : list A) :
  existsb hit l = false -> existsb (fun a => hit a && opn a) l = false.
Proof.
  induction l as [|a l IH]; [reflexivity|]. cbn.
  destruct (hit a); cbn; [discriminate | exact IH].
Qed.

Lemma foldl_flags {A} (f : gmap Z bool -> A -> gmap Z bool) (hit opn : A -> bool)
    (k : Z) :
  (forall m a, f m a !! k
               = if hit a then Some (default false (m !! k) || opn a) else m !! k) ->
  forall l m,
    foldl f m l !! k
    = if existsb hit l
      then Some (default false (m !! k) || existsb (fun a => hit a && opn a) l)
      else m !! k.
Proof.
  intros Hf l. induction l as [|a l IH]; intros m; [reflexivity|].
  cbn [foldl existsb]. rewrite IH, Hf.
  pose proof (existsb_hit_false hit opn l) as Hnone.
  destruct (hit a), (existsb hit l); cbn;
    rewrite ?Hnone by reflexivity;
    try reflexivity; destruct (m !! k) as [[|]|]; cbn;
    try reflexivity; destruct (opn a); reflexivity.
Qed.

Lemma allowedSinkPorts_lookup (routes : list AudioRoute.t)
    (sources : list AudioPortConfig.t) (k : Z) :
  allowedSinkPorts routes sources !! k
  = if existsb (port_has_route routes k) sources
    then Some (existsb (fun s => port_has_route routes k s
                                 && port_has_open_route routes k s) sources)
    else None.
Proof.
  unfold allowedSinkPorts.
  rewrite (foldl_flags _ (port_has_route routes k) (port_has_open_route routes k) k).
  - rewrite lookup_empty. reflexivity.
  - intros m s.
    rewrite (foldl_flags _ (serves (AudioPortConfig.portId s) k)
               (fun r => negb (AudioRoute.isExclusive r)) k).
    + reflexivity.
    + intros m' r. apply allow_route_lookup.
Qed.

(** Projections of an updated module or store. *)
Ltac simpl_store :=
  cbn [mConfig mDebug mConnectedDevicePorts mStreams mPatches
       with_mPatches with_mStreams with_mConnectedDevicePorts with_mConfig
       with_patches with_nextPatchId with_portConfigs with_nextPortId
       with_ports with_routes
       Configuration.ports Configuration.portConfigs Configuration.initialConfigs
       Configuration.connectedProfiles Configuration.routes Configuration.patches
       Configuration.nextPortId Configuration.nextPatchId] in *.

(** ** Helper facts on the look-ups *)

Lemma findById_Some {T} (key : T -> Z) (v : list T) (i : Z) (e : T) :
  findById key v i = Some e -> e ∈ v /\ key e = i.
Proof.
  unfold findById. intros H. apply find_some in H. destruct H as [Hin Hk].
  split; [apply list_elem_of_In, Hin | exact (proj1 (bool_decide_eq_true _) Hk)].
Qed.

Lemma findById_None {T} (key : T -> Z) (v : list T) (i : Z) :
  findById key v i = None <-> forall e, e ∈ v -> key e <> i.
Proof.
  unfold findById. split.
  - intros H e He Hk. apply list_elem_of_In in He.
    pose proof (find_none _ _ H e He) as Hf. cbn in Hf.
    rewrite bool_decide_eq_true_2 in Hf by exact Hk. discriminate.
  - intros H. destruct (List.find _ v) as [e|] eqn:Hf; [|reflexivity].
    apply find_some in Hf. destruct Hf as [Hin Hk].
    exfalso. apply (H e); [apply list_elem_of_In, Hin | exact (proj1 (bool_decide_eq_true _) Hk)].
Qed.

Lemma selectByIds_found (configs : list AudioPortConfig.t) (ids : list Z)
    (c : AudioPortConfig.t) :
  c ∈ (selectByIds AudioPortConfig.id configs ids).1
  <-> exists i, i ∈ ids /\ findById AudioPortConfig.id configs i = Some c.
Proof. unfold selectByIds. cbn [fst]. apply list_elem_of_omap. Qed.

Lemma selectByIds_none_missing (configs : list AudioPortConfig.t) (ids : list Z) :
  (forall i, i ∈ ids -> findById AudioPortConfig.id configs i <> None) ->
  (selectByIds AudioPortConfig.id configs ids).2 = [].
Proof.
  intros H.
  destruct ((selectByIds AudioPortConfig.id configs ids).2) as [|j l] eqn:Hm;
    [reflexivity|].
  assert (Hj : j ∈ (selectByIds AudioPortConfig.id configs ids).2).
  { rewrite Hm. apply list_elem_of_here. }
  apply missing_of_selectByIds in Hj. destruct Hj as [Hj1 Hj2].
  exfalso. exact (H j Hj1 Hj2).
Qed.

Lemma multimap_count_pos {V} (m : list (Z * V)) (k : Z) (x : V) :
  (k, x) ∈ m -> (multimap_count m k =? 0) = false.
Proof.
  intros Hin. unfold multimap_count. apply Z.eqb_neq.
  assert (Hf : (k, x) ∈ List.filter (fun e : Z * V => bool_decide (e.1 = k)) m).
  { apply list_elem_of_In, filter_In. split; [apply list_elem_of_In, Hin|].
    apply bool_decide_eq_true_2. reflexivity. }
  destruct (List.filter _ m); [inversion Hf | cbn; lia].
Qed.

Lemma elem_of_erase_all_values (m : Patches) (values : gset Z) (e : Z * Z) :
  e ∈ erase_all_values m values <-> e ∈ m /\ e.2 ∉ values.
Proof.
  unfold erase_all_values, erase_if.
  rewrite list_elem_of_In, filter_In, <- list_elem_of_In.
  case_bool_decide; cbn; intuition congruence.
Qed.

Lemma restore_backup (st : Module) (idx : Patches) :
  with_mPatches (with_mPatches st idx) (mPatches st) = st.
Proof. destruct st. reflexivity. Qed.

(** ** Routes of a request, as propositions *)

Lemma serves_true (p k : Z) (r : AudioRoute.t) :
  serves p k r = true <-> p ∈ AudioRoute.sourcePortIds r /\ AudioRoute.sinkPortId r = k.
Proof.
  unfold serves. rewrite andb_true_iff, !bool_decide_eq_true. reflexivity.
Qed.

Lemma sources_have_route (st : Module) (req : AudioPatch.t) (k : Z) :
  existsb (port_has_route (Configuration.routes (mConfig st)) k)
    (selectByIds AudioPortConfig.id (Configuration.portConfigs (mConfig st))
       (AudioPatch.sourcePortConfigIds req)).1 = true
  <-> exists r, route_for_request st req k r.
Proof.
  rewrite existsb_exists. unfold port_has_route, route_for_request, resolves_to. split.
  - intros (c & Hc & Hr). apply list_elem_of_In, selectByIds_found in Hc.
    destruct Hc as (i & Hi & Hf).
    apply existsb_exists in Hr. destruct Hr as (r & Hr & Hs).
    apply serves_true in Hs. destruct Hs as [Hs1 Hs2].
    exists r. split; [apply list_elem_of_In, Hr|]. split; [exact Hs2|]. eauto.
  - intros (r & Hr & Hk & i & c & Hi & Hf & Hp).
    exists c. split.
    + apply list_elem_of_In, selectByIds_found. eauto.
    + apply existsb_exists. exists r. split; [apply list_elem_of_In, Hr|].
      apply serves_true. auto.
Qed.

Lemma sources_have_open_route (st : Module) (req : AudioPatch.t) (k : Z) :
  existsb (fun s => port_has_route (Configuration.routes (mConfig st)) k s
                    && port_has_open_route (Configuration.routes (mConfig st)) k s)
    (selectByIds AudioPortConfig.id (Configuration.portConfigs (mConfig st))
       (AudioPatch.sourcePortConfigIds req)).1 = true
  -> exists r, route_for_request st req k r /\ AudioRoute.isExclusive r = false.
Proof.
  rewrite existsb_exists. unfold port_has_open_route, route_for_request, resolves_to.
  intros (c & Hc & Hr). apply list_elem_of_In, selectByIds_found in Hc.
  destruct Hc as (i & Hi & Hf).
  apply andb_true_iff in Hr. destruct Hr as [_ Hr].
  apply existsb_exists in Hr. destruct Hr as (r & Hr & Hs).
  apply andb_true_iff in Hs. destruct Hs as [Hs He].
  apply serves_true in Hs. destruct Hs as [Hs1 Hs2].
  exists r. split.
  - split; [apply list_elem_of_In, Hr|]. split; [exact Hs2|]. eauto.
  - destruct (AudioRoute.isExclusive r); [discriminate | reflexivity].
Qed.

(** What [allowedSinkPorts] holds for a sink port with routes that are all
    exclusive, and with no route at all. *)
Lemma allowed_exclusive_only (st : Module) (req : AudioPatch.t) (k : Z) :
  only_exclusive_routes st req k ->
  allowedSinkPorts (Configuration.routes (mConfig st))
    (selectByIds AudioPortConfig.id (Configuration.portConfigs (mConfig st))
       (AudioPatch.sourcePortConfigIds req)).1 !! k = Some false.
Proof.
  intros [Hex Hall]. rewrite allowedSinkPorts_lookup.
  apply sources_have_route in Hex. rewrite Hex. f_equal.
  match goal with |- ?b = false => destruct b eqn:Ho end; [|reflexivity].
  apply sources_have_open_route in Ho. destruct Ho as (r & Hr & He).
  rewrite (Hall r Hr) in He. discriminate.
Qed.

Lemma allowed_has_route (st : Module) (req : AudioPatch.t) (k : Z) :
  allowedSinkPorts (Configuration.routes (mConfig st))
    (selectByIds AudioPortConfig.id (Configuration.portConfigs (mConfig st))
       (AudioPatch.sourcePortConfigIds req)).1 !! k <> None
  <-> exists r, route_for_request st req k r.
Proof.
  rewrite allowedSinkPorts_lookup, <- sources_have_route.
  destruct (existsb (port_has_route _ k) _); split; congruence.
Qed.

(** ** A sink port in exclusive use *)

Lemma exclusive_sink_in_use_true (allowed : gmap Z bool) (index : Patches)
    (k patchId : Z) :
  allowed !! k = Some false -> (k, patchId) ∈ index ->
  exclusive_sink_in_use allowed index = true.
Proof.
  intros Ha Hin. unfold exclusive_sink_in_use. apply existsb_exists.
  exists (k, false). split.
  - apply list_elem_of_In, elem_of_map_to_list, Ha.
  - cbn. rewrite (multimap_count_pos _ _ _ Hin). reflexivity.
Qed.

(** C2.  A request that passes the checks made before the one of exclusive
    sink ports, one of whose sinks belongs to a port that the request can
    reach over exclusive routes only and that the index has under another
    patch, fails with an illegal state, and the module (the patch list and
    the index with it) is what it was before the call; for a request that
    updates a patch, the index entries of that patch are back. *)
Theorem setAudioPatch_exclusive_sink_claimed `{K : ModuleConstants} (st : Module)
    (req : AudioPatch.t) (i : Z) (c : AudioPortConfig.t) :
  reaches_exclusivity_check st req ->
  i ∈ AudioPatch.sinkPortConfigIds req ->
  resolves_to st i c ->
  only_exclusive_routes st req (AudioPortConfig.portId c) ->
  claimed_by_other st req (AudioPortConfig.portId c) ->
  setAudioPatch st req = (st, Exn EX_ILLEGAL_STATE LogOther).
Proof.
  intros ((Hs & Hsu & Hk & Hku) & Hres & Hroute & Hid) Hi Hc Hexcl (pid & Hpid & Hother).
  pose proof (allowed_exclusive_only st req _ Hexcl) as Hallowed.
  assert (Hms : (selectByIds AudioPortConfig.id
                   (Configuration.portConfigs (mConfig st))
                   (AudioPatch.sourcePortConfigIds req)).2 = []).
  { apply selectByIds_none_missing. intros j Hj. apply Hres, elem_of_app. auto. }
  assert (Hmk : (selectByIds AudioPortConfig.id
                   (Configuration.portConfigs (mConfig st))
                   (AudioPatch.sinkPortConfigIds req)).2 = []).
  { apply selectByIds_none_missing. intros j Hj. apply Hres, elem_of_app. auto. }
  assert (Hsinks : forall sink,
             sink ∈ (selectByIds AudioPortConfig.id
                       (Configuration.portConfigs (mConfig st))
                       (AudioPatch.sinkPortConfigIds req)).1 ->
             allowedSinkPorts (Configuration.routes (mConfig st))
               (selectByIds AudioPortConfig.id
                  (Configuration.portConfigs (mConfig st))
                  (AudioPatch.sourcePortConfigIds req)).1
             !! AudioPortConfig.portId sink <> None).
  { intros sink Hsink. apply selectByIds_found in Hsink.
    destruct Hsink as (j & Hj & Hf). apply allowed_has_route. eauto. }
  unfold setAudioPatch.
  rewrite (is_empty_false _ Hs), (is_empty_false _ Hk),
    (all_unique_true _ Hsu), (all_unique_true _ Hku). cbn [negb].
  destruct (selectByIds AudioPortConfig.id (Configuration.portConfigs (mConfig st))
              (AudioPatch.sourcePortConfigIds req)) as [sources ms].
  destruct (selectByIds AudioPortConfig.id (Configuration.portConfigs (mConfig st))
              (AudioPatch.sinkPortConfigIds req)) as [sinks mk].
  cbn [fst snd] in *. subst ms mk. cbn [is_empty negb].
  assert (Hnoroute :
    existsb (fun sink =>
               bool_decide (allowedSinkPorts (Configuration.routes (mConfig st)) sources
                            !! AudioPortConfig.portId sink = None)) sinks = false).
  { destruct (existsb _ sinks) eqn:He; [|reflexivity].
    apply existsb_exists in He. destruct He as (sink & Hsink & Hnone).
    apply bool_decide_eq_true in Hnone.
    exfalso. exact (Hsinks sink (proj2 (list_elem_of_In _ _) Hsink) Hnone). }
  rewrite Hnoroute.
  destruct (decide (AudioPatch.id req = 0)) as [Hzero|Hnz].
  - rewrite bool_decide_eq_true_2 by exact Hzero. cbn [negb andb].
    rewrite (exclusive_sink_in_use_true _ _ _ pid Hallowed Hpid).
    reflexivity.
  - destruct Hid as [Hzero|(p & Hp)]; [contradiction|].
    destruct Hother as [Hzero|Hother]; [contradiction|].
    rewrite bool_decide_eq_false_2 by exact Hnz. rewrite Hp.
    rewrite (bool_decide_eq_true_2 (is_Some (Some p))) by eauto. cbn [negb andb].
    apply findById_Some in Hp. destruct Hp as [_ Hpid'].
    assert (Hkept : (AudioPortConfig.portId c, pid)
                    ∈ mPatches (cleanUpPatch st (AudioPatch.id p))).
    { unfold cleanUpPatch. cbn. apply elem_of_erase_all_values. split; [exact Hpid|].
      cbn. rewrite Hpid'. set_solver. }
    rewrite (exclusive_sink_in_use_true _ _ _ pid Hallowed Hkept).
    unfold cleanUpPatch. rewrite restore_backup. reflexivity.
Qed.


Lemma setAudioPatch_exclusive_sink_claimed_witness :
  setAudioPatch (K := Sample.constants) Sample.two_patches (Sample.patch 2 [40] [20])
  = (Sample.two_patches, Exn EX_ILLEGAL_STATE LogOther).
Proof.
  apply (setAudioPatch_exclusive_sink_claimed (K := Sample.constants)
           Sample.two_patches (Sample.patch 2 [40] [20]) 20
           (Sample.config_of 20 2 Sample.speaker_port)).
  - split; [repeat split; first [discriminate | compute_done]|].
    split; [|split].
    + intros j Hj. apply list_elem_of_In in Hj. cbn in Hj.
      destruct Hj as [<-|[<-|[]]]; intros Hm; vm_compute in Hm; discriminate Hm.
    + intros j cj Hj Hcj. apply list_elem_of_In in Hj. cbn in Hj.
      destruct Hj as [<-|[]]. vm_compute in Hcj. injection Hcj as <-.
      exists (AudioRoute.mk [1; 4] 2 true).
      split; [compute_done|]. split; [reflexivity|].
      exists 40, (Sample.config_of 40 4 Sample.offload_port).
      split; [compute_done|]. split; [vm_compute; reflexivity | compute_done].
    + right. eexists. vm_compute. reflexivity.
  - compute_done.
  - vm_compute. reflexivity.
  - split.
    + exists (AudioRoute.mk [1; 4] 2 true).
      split; [compute_done|]. split; [reflexivity|].
      exists 40, (Sample.config_of 40 4 Sample.offload_port).
      split; [compute_done|]. split; [vm_compute; reflexivity | compute_done].
    + intros r (Hr & Hsink & _). apply list_elem_of_In in Hr. vm_compute in Hr.
      destruct Hr as [<-|[<-|[]]]; [reflexivity | discriminate Hsink].
  - exists 1. split; [compute_done | right; discriminate].
Defined.

(** The same request as a new patch, after the first patch only. *)
Example new_patch_on_claimed_exclusive_sink :
  setAudioPatch (K := Sample.constants) Sample.one_patch (Sample.patch 0 [40] [20])
  = (Sample.one_patch, Exn EX_ILLEGAL_STATE LogOther).
Proof. vm_compute. reflexivity. Qed.

(** ** [cleanUpPatches] and the first patch of the list *)

Lemma erase_empty_loop_keeps_head (i : nat) (p : AudioPatch.t)
    (rest : list AudioPatch.t) (erased : gset Z) :
  exists rest', (erase_empty_loop i (p :: rest) erased).1 = p :: rest'.
Proof.
  revert rest erased. induction i as [|j IH]; intros rest erased; [eauto|].
  cbn [erase_empty_loop]. destruct ((p :: rest) !! S j) as [q|]; [|apply IH].
  destruct (is_empty _ || is_empty _); [|apply IH].
  cbn [delete]. apply IH.
Qed.

Lemma length_assign_at_id {T} (key : T -> Z) (v : list T) (i : Z) (f : T -> T) :
  length (assign_at_id key v i f) = length v.
Proof.
  induction v as [|e v IH]; [reflexivity|]. cbn.
  case_bool_decide; cbn; [reflexivity | rewrite IH; reflexivity].
Qed.

Lemma length_strip_all (c : Z) (range : list Z) (patches : list AudioPatch.t) :
  length (foldl (fun ps patchId =>
                   assign_at_id AudioPatch.id ps patchId (strip_port_config c))
                patches range) = length patches.
Proof.
  revert patches. induction range as [|x range IH]; intros patches; [reflexivity|].
  cbn [foldl]. rewrite IH. apply length_assign_at_id.
Qed.

(** The first patch of the list survives [cleanUpPatches], whatever its id
    lists become. *)
Lemma cleanUpPatches_keeps_first (st : Module) (portConfigId : Z) :
  Configuration.patches (mConfig st) <> [] ->
  exists p rest,
    Configuration.patches (mConfig (cleanUpPatches st portConfigId)) = p :: rest.
Proof.
  intros Hne. unfold cleanUpPatches. rewrite (is_empty_false _ Hne).
  cbn zeta.
  pose proof (length_strip_all portConfigId
                (multimap_equal_range (mPatches st) portConfigId)
                (Configuration.patches (mConfig st))) as Hlen.
  destruct (foldl _ (Configuration.patches (mConfig st)) _) as [|p rest].
  - destruct (Configuration.patches (mConfig st)); [congruence | discriminate Hlen].
  - destruct (erase_empty_loop_keeps_head (length (p :: rest) - 1) p rest ∅)
      as [rest' Hr].
    destruct (erase_empty_loop _ _ _) as [kept erasedPatches]. cbn in Hr. subst kept.
    cbn. eauto.
Qed.

(** C3, at the module with the one patch 1 from config 10 to config 20.
    [cleanUpPatches 10] strips 10 from the patch, whose source list is then
    empty; the patch, the first of the list, is still in the list and the
    index still has its four entries. *)
Theorem cleanUpPatches_leaves_first_patch_empty :
  let st := cleanUpPatches Sample.one_patch 10 in
  Configuration.patches (mConfig st) = [AudioPatch.mk 1 [] [20] 16 [10]]
  /\ mPatches st = [(1, 1); (2, 1); (10, 1); (20, 1)].
Proof. vm_compute. split; reflexivity. Qed.

(** An emptied patch that is not the first of the list is deleted, and its
    index entries with it. *)
Example cleanUpPatches_deletes_second_patch :
  let st := cleanUpPatches Sample.two_patches 45 in
  Configuration.patches (mConfig st) = [AudioPatch.mk 1 [10] [20] 16 [10]]
  /\ mPatches st = [(1, 1); (2, 1); (10, 1); (20, 1)].
Proof. vm_compute. split; reflexivity. Qed.

(** ** Ids of ports and of port configs *)

Lemma already_connected_no_value (ports : list AudioPort.t) (device : AudioDevice.t)
    (connected : list Z) (port : AudioPort.t) :
  already_connected ports device connected <> Some (Ret port).
Proof.
  induction connected as [|i l IH]; cbn; [discriminate|].
  destruct (findById AudioPort.id ports i) as [q|]; [|discriminate].
  destruct (AudioPort.ext q); try discriminate.
  case_bool_decide; [discriminate | exact IH].
Qed.

(** What a successful [connectExternalDevice] has done. *)
Lemma connectExternalDevice_Ret (st st' : Module) (request port : AudioPort.t) :
  connectExternalDevice st request = (st', Ret port) ->
  exists template,
    findById AudioPort.id (Configuration.ports (mConfig st)) (AudioPort.id request)
    = Some template
    /\ (exists d, AudioPort.ext port = AudioPortExt.device d)
    /\ AudioPort.id port = Configuration.nextPortId (mConfig st) + 1
    /\ st' = with_mConnectedDevicePorts
               (with_mConfig st
                  (with_routes
                     (with_ports
                        (with_nextPortId (mConfig st) (AudioPort.id port))
                        (Configuration.ports (mConfig st) ++ [port]))
                     (connect_routes (AudioPort.id request) (AudioPort.id port)
                        (Configuration.routes (mConfig st)))))
               ({[ AudioPort.id port ]} ∪ mConnectedDevicePorts st).
Proof.
  unfold connectExternalDevice. intros H.
  destruct (findById AudioPort.id _ (AudioPort.id request)) as [template|];
    [|discriminate H].
  destruct (AudioPort.ext template) as [|tdp| |]; try discriminate H.
  destruct (negb (is_empty (AudioPort.profiles template))); [discriminate H|].
  destruct (bool_decide _); [discriminate H|].
  destruct (AudioPort.ext request) as [|idp| |]; try discriminate H.
  destruct (already_connected _ _ _) as [o|] eqn:Hc.
  - injection H as _ ->. exfalso. exact (already_connected_no_value _ _ _ _ Hc).
  - destruct (negb (ModuleDebug.simulateDeviceConnections (mDebug st)));
      [discriminate H|].
    injection H as <- <-. exists template. cbn. eauto.
Qed.

(** The port made by [connectExternalDevice] has the value the counter is
    left at. *)
Lemma connectExternalDevice_id_is_counter (st st' : Module) (request port : AudioPort.t) :
  connectExternalDevice st request = (st', Ret port) ->
  AudioPort.id port = Configuration.nextPortId (mConfig st').
Proof.
  intros H. apply connectExternalDevice_Ret in H.
  destruct H as (template & _ & _ & Hid & ->). reflexivity.
Qed.

(** C9, on the sample module.  Connecting the USB device makes the port 51
    and leaves the counter at 51; the config then made for that port by
    [setAudioPortConfig] takes its id from the same counter and is 51 as
    well, the id of its own port; [findPortIdForNewStream] on this config
    ends the process, and so does [openOutputStream]. *)
Theorem port_config_id_equals_port_id :
  let connected := connectExternalDevice Sample.module Sample.usb_request in
  let created := setAudioPortConfig connected.1 (Sample.new_config_request 51) in
  (exists port, connected.2 = Ret port /\ AudioPort.id port = 51)
  /\ (exists config, created.2 = Ret (config, true)
                     /\ AudioPortConfig.id config = 51
                     /\ AudioPortConfig.portId config = 51)
  /\ findPortIdForNewStream created.1 51 = Abort
  /\ (openOutputStream (K := Sample.constants) created.1
        (OpenOutputStreamArguments.mk 51 0 None 64)).2 = Abort.
Proof.
  vm_compute. split; [|split; [|split]].
  - eexists. split; reflexivity.
  - eexists. repeat split; reflexivity.
  - reflexivity.
  - reflexivity.
Qed.

(** ** Connecting and disconnecting an external device *)

Lemma findById_app_new {T} (key : T -> Z) (v : list T) (x : T) :
  Forall (fun e => key e <> key x) v -> findById key (v ++ [x]) (key x) = Some x.
Proof.
  unfold findById. induction 1 as [|e v He _ IH]; cbn.
  - rewrite bool_decide_eq_true_2 by reflexivity. reflexivity.
  - rewrite bool_decide_eq_false_2 by exact He. exact IH.
Qed.

Lemma erase_at_id_app_new {T} (key : T -> Z) (v : list T) (x : T) :
  Forall (fun e => key e <> key x) v -> erase_at_id key (v ++ [x]) (key x) = v.
Proof.
  induction 1 as [|e v He _ IH]; cbn.
  - rewrite bool_decide_eq_true_2 by reflexivity. reflexivity.
  - rewrite bool_decide_eq_false_2 by exact He. rewrite IH. reflexivity.
Qed.

Lemma find_all_false {T} (f : T -> bool) (v : list T) :
  Forall (fun e => f e = false) v -> List.find f v = None.
Proof. induction 1 as [|e v He _ IH]; cbn; [reflexivity|]. rewrite He. exact IH. Qed.

Lemma erase_if_absent (k : Z) (v : list Z) :
  k ∉ v -> erase_if v (fun src => bool_decide (src = k)) = v.
Proof.
  unfold erase_if. induction v as [|x v IH]; intros Hk; [reflexivity|].
  apply not_elem_of_cons in Hk. destruct Hk as [Hx Hv]. cbn.
  rewrite bool_decide_eq_false_2 by congruence. cbn. rewrite IH by exact Hv.
  reflexivity.
Qed.

Lemma erase_if_appended (k : Z) (v : list Z) :
  k ∉ v -> erase_if (v ++ [k]) (fun src => bool_decide (src = k)) = v.
Proof.
  unfold erase_if. induction v as [|x v IH]; intros Hk; cbn.
  - rewrite bool_decide_eq_true_2 by reflexivity. reflexivity.
  - apply not_elem_of_cons in Hk. destruct Hk as [Hx Hv].
    rewrite bool_decide_eq_false_2 by congruence. cbn. rewrite IH by exact Hv.
    reflexivity.
Qed.

Lemma disconnect_routes_app (k : Z) (l1 l2 : list AudioRoute.t) :
  disconnect_routes k (l1 ++ l2) = disconnect_routes k l1 ++ disconnect_routes k l2.
Proof.
  induction l1 as [|r l1 IH]; [reflexivity|]. cbn.
  case_bool_decide; rewrite IH; reflexivity.
Qed.

Lemma disconnect_cloned_routes (t k : Z) (routes : list AudioRoute.t) :
  disconnect_routes k (List.concat (List.map (clone_route t k) routes)) = [].
Proof.
  induction routes as [|r routes IH]; [reflexivity|].
  cbn [List.map List.concat]. rewrite disconnect_routes_app, IH, app_nil_r.
  unfold clone_route. case_bool_decide; [|reflexivity]. cbn.
  rewrite bool_decide_eq_true_2 by reflexivity. reflexivity.
Qed.

Lemma extend_route_fields (t k : Z) (r : AudioRoute.t) :
  AudioRoute.sinkPortId (extend_route t k r) = AudioRoute.sinkPortId r
  /\ AudioRoute.isExclusive (extend_route t k r) = AudioRoute.isExclusive r
  /\ (AudioRoute.sourcePortIds (extend_route t k r) = AudioRoute.sourcePortIds r
      \/ AudioRoute.sourcePortIds (extend_route t k r)
         = AudioRoute.sourcePortIds r ++ [k]).
Proof.
  unfold extend_route. do 2 (case_bool_decide; [auto|]); auto.
Qed.

Lemma disconnect_extended_routes (t k : Z) (routes : list AudioRoute.t) :
  Forall (fun r => AudioRoute.sinkPortId r <> k /\ k ∉ AudioRoute.sourcePortIds r)
    routes ->
  disconnect_routes k (List.map (extend_route t k) routes) = routes.
Proof.
  induction 1 as [|r routes [Hsink Hsrc] _ IH]; [reflexivity|].
  cbn [List.map disconnect_routes]. rewrite IH.
  destruct (extend_route_fields t k r) as (-> & -> & Hsources).
  rewrite bool_decide_eq_false_2 by exact Hsink.
  assert (Hstrip : erase_if (AudioRoute.sourcePortIds (extend_route t k r))
                     (fun src => bool_decide (src = k))
                   = AudioRoute.sourcePortIds r).
  { destruct Hsources as [-> | ->];
      [apply erase_if_absent | apply erase_if_appended]; exact Hsrc. }
  rewrite Hstrip. destruct r; reflexivity.
Qed.

Lemma disconnect_connected_routes (t k : Z) (routes : list AudioRoute.t) :
  Forall (fun r => AudioRoute.sinkPortId r <> k /\ k ∉ AudioRoute.sourcePortIds r)
    routes ->
  disconnect_routes k (connect_routes t k routes) = routes.
Proof.
  intros H. unfold connect_routes.
  rewrite disconnect_routes_app, disconnect_cloned_routes, app_nil_r.
  apply disconnect_extended_routes, H.
Qed.

(** C5.  In a store where the id the counter gives next is not referred to
    by any port, port config or route, when [connectExternalDevice] succeeds
    and makes a port, [disconnectExternalDevice] of that port, called next,
    succeeds, and the port list and the route list are then what they were
    before the connection, element for element. *)
Theorem connect_then_disconnect_restores (st st' : Module) (request port : AudioPort.t) :
  port_id_unused st (Configuration.nextPortId (mConfig st) + 1) ->
  connectExternalDevice st request = (st', Ret port) ->
  exists st'',
    disconnectExternalDevice st' (AudioPort.id port) = (st'', Ret ())
    /\ Configuration.ports (mConfig st'') = Configuration.ports (mConfig st)
    /\ Configuration.routes (mConfig st'') = Configuration.routes (mConfig st).
Proof.
  intros (Hports & Hconfigs & Hroutes) Hconnect.
  apply connectExternalDevice_Ret in Hconnect.
  destruct Hconnect as (template & _ & (d & Hext) & Hid & ->).
  rewrite <- Hid in Hports, Hconfigs, Hroutes.
  unfold disconnectExternalDevice. simpl_store.
  rewrite (findById_app_new AudioPort.id _ port Hports), Hext.
  rewrite bool_decide_eq_true_2 by set_solver. cbn [negb].
  rewrite find_all_false.
  - eexists. split; [reflexivity|]. simpl_store.
    rewrite (erase_at_id_app_new AudioPort.id _ port Hports).
    rewrite (disconnect_connected_routes _ _ _ Hroutes). split; reflexivity.
  - eapply Forall_impl; [exact Hconfigs|]. intros c Hc. unfold is_client_config.
    rewrite bool_decide_eq_false_2 by exact Hc. reflexivity.
Qed.

Lemma connect_then_disconnect_restores_witness :
  exists st'',
    disconnectExternalDevice Sample.usb_connected 51 = (st'', Ret ())
    /\ Configuration.ports (mConfig st'') = Configuration.ports (mConfig Sample.module)
    /\ Configuration.routes (mConfig st'') = Configuration.routes (mConfig Sample.module).
Proof.
  assert (Hunused : port_id_unused Sample.module
                      (Configuration.nextPortId (mConfig Sample.module) + 1)).
  { compute_done. }
  assert (Hconnect : connectExternalDevice Sample.module Sample.usb_request
                     = (Sample.usb_connected,
                        Ret (AudioPort.mk 51 [Sample.profile16] (output 0) []
                               (AudioPortExt.device
                                  (AudioPortDeviceExt.mk
                                     (AudioDevice.mk
                                        (AudioDeviceDescription.mk 7 "usb") "card0")
                                     0))))).
  { vm_compute. reflexivity. }
  exact (connect_then_disconnect_restores _ _ _ _ Hunused Hconnect).
Defined.

(** ** The counter of port ids bounds the port ids in use *)

Lemma bounded_next_unused (st : Module) :
  port_ids_bounded st ->
  port_id_unused st (Configuration.nextPortId (mConfig st) + 1).
Proof.
  intros (Hp & Hc & Hr). split; [|split].
  - eapply Forall_impl; [exact Hp|]. cbn. lia.
  - eapply Forall_impl; [exact Hc|]. cbn. lia.
  - eapply Forall_impl; [exact Hr|]. cbn. intros r [Hsink Hsrc].
    split; [lia|]. intros Hin. rewrite Forall_forall in Hsrc.
    specialize (Hsrc _ Hin). lia.
Qed.

Lemma connectExternalDevice_failure (st st' : Module) (request : AudioPort.t)
    (o : outcome AudioPort.t) :
  connectExternalDevice st request = (st', o) ->
  (forall port, o <> Ret port) -> st' = st.
Proof.
  unfold connectExternalDevice. intros H Hfail.
  repeat match type of H with
         | (match ?x with _ => _ end) = _ => destruct x
         | (if ?x then _ else _) = _ => destruct x
         end;
    injection H as <- <-; first [reflexivity | exfalso; eapply Hfail; reflexivity].
Qed.

Lemma bounded_connect_routes (t k n : Z) (routes : list AudioRoute.t) :
  n <= k ->
  Forall (fun r => AudioRoute.sinkPortId r <= n
                   /\ Forall (fun s => s <= n) (AudioRoute.sourcePortIds r)) routes ->
  Forall (fun r => AudioRoute.sinkPortId r <= k
                   /\ Forall (fun s => s <= k) (AudioRoute.sourcePortIds r))
    (connect_routes t k routes).
Proof.
  intros Hn Hr. unfold connect_routes. apply Forall_app. split.
  - induction Hr as [|r routes [Hsink Hsrc] _ IH]; cbn; [constructor|].
    constructor; [|exact IH].
    destruct (extend_route_fields t k r) as (-> & _ & [-> | ->]).
    + split; [lia|]. eapply Forall_impl; [exact Hsrc|]. cbn. lia.
    + split; [lia|]. apply Forall_app. split.
      * eapply Forall_impl; [exact Hsrc|]. cbn. lia.
      * apply Forall_singleton. lia.
  - induction Hr as [|r routes [Hsink Hsrc] _ IH]; cbn; [constructor|].
    apply Forall_app. split; [|exact IH]. unfold clone_route.
    case_bool_decide; [|constructor]. apply Forall_singleton. cbn.
    split; [lia|]. eapply Forall_impl; [exact Hsrc|]. cbn. lia.
Qed.

(** [connectExternalDevice] keeps the port ids in use bounded by the
    counter, whatever it returns. *)
Lemma bounded_connectExternalDevice (st : Module) (request : AudioPort.t) :
  port_ids_bounded st -> port_ids_bounded (connectExternalDevice st request).1.
Proof.
  intros Hb. destruct (connectExternalDevice st request) as [st' o] eqn:Hc. cbn [fst].
  destruct o as [port| |].
  - apply connectExternalDevice_Ret in Hc.
    destruct Hc as (_ & _ & _ & Hid & ->). destruct Hb as (Hp & Hcfg & Hr).
    unfold port_ids_bounded. simpl_store. rewrite Hid. split; [|split].
    + apply Forall_app. split.
      * eapply Forall_impl; [exact Hp|]. cbn. lia.
      * apply Forall_singleton. lia.
    + eapply Forall_impl; [exact Hcfg|]. cbn. lia.
    + apply (bounded_connect_routes _ _ (Configuration.nextPortId (mConfig st)));
        [lia | exact Hr].
  - rewrite (connectExternalDevice_failure _ _ _ _ Hc); [exact Hb | discriminate].
  - rewrite (connectExternalDevice_failure _ _ _ _ Hc); [exact Hb | discriminate].
Qed.

Lemma Forall_erase_at_id {T} (key : T -> Z) (P : T -> Prop) (v : list T) (i : Z) :
  Forall P v -> Forall P (erase_at_id key v i).
Proof.
  induction 1 as [|e v He Hv IH]; cbn; [constructor|].
  case_bool_decide; [exact Hv | constructor; assumption].
Qed.

Lemma Forall_assign_at_id {T} (key : T -> Z) (P : T -> Prop) (v : list T) (i : Z)
    (f : T -> T) :
  (forall e, e ∈ v -> P e -> P (f e)) -> Forall P v -> Forall P (assign_at_id key v i f).
Proof.
  intros Hf Hv. induction Hv as [|e v He Hv IH]; cbn; [constructor|].
  case_bool_decide.
  - constructor; [apply Hf; [apply list_elem_of_here | exact He] | exact Hv].
  - constructor; [exact He|]. apply IH. intros x Hx. apply Hf, list_elem_of_further, Hx.
Qed.

Lemma bounded_disconnect_routes (k n : Z) (routes : list AudioRoute.t) :
  Forall (fun r => AudioRoute.sinkPortId r <= n
                   /\ Forall (fun s => s <= n) (AudioRoute.sourcePortIds r)) routes ->
  Forall (fun r => AudioRoute.sinkPortId r <= n
                   /\ Forall (fun s => s <= n) (AudioRoute.sourcePortIds r))
    (disconnect_routes k routes).
Proof.
  induction 1 as [|r routes [Hsink Hsrc] _ IH]; cbn; [constructor|].
  case_bool_decide; [exact IH|]. constructor; [|exact IH]. cbn.
  split; [exact Hsink|]. unfold erase_if.
  apply Forall_forall. intros x Hx. apply list_elem_of_In, filter_In in Hx.
  rewrite Forall_forall in Hsrc. apply Hsrc, list_elem_of_In, Hx.
Qed.

Lemma bounded_disconnectExternalDevice (st : Module) (portId : Z) :
  port_ids_bounded st -> port_ids_bounded (disconnectExternalDevice st portId).1.
Proof.
  intros Hb. unfold disconnectExternalDevice.
  repeat match goal with
         | |- port_ids_bounded (match ?x with _ => _ end).1 => destruct x
         | |- port_ids_bounded (if ?x then _ else _).1 => destruct x
         end; cbn [fst]; try exact Hb.
  destruct Hb as (Hp & Hcfg & Hr). unfold port_ids_bounded. simpl_store.
  split; [|split].
  - apply Forall_erase_at_id, Hp.
  - exact Hcfg.
  - apply bounded_disconnect_routes, Hr.
Qed.

(** ** Negotiating a port config *)



Section Negotiation.
Variables (port : AudioPort.t) (profile : AudioProfile.t).
Variables (seed req : AudioPortConfig.t).

Let n2 := check_format port req (check_flags port req (Build_Negotiation seed true true)).
Let n5 := check_gain req (check_sampleRate profile req (check_channelMask profile req n2)).



End Negotiation.

Lemma portId_after_checks (port : AudioPort.t) (profile : AudioProfile.t)
    (seed req : AudioPortConfig.t) :
  AudioPortConfig.portId
    (out_suggested
       (check_gain req
          (check_sampleRate profile req
             (check_channelMask profile req
                (check_format port req
                   (check_flags port req (Build_Negotiation seed true true)))))))
  = AudioPortConfig.portId seed.
Proof.
  unfold check_gain, check_sampleRate, check_channelMask, check_format, check_flags.
  destruct (AudioPortConfig.flags req) as [fl|];
    destruct (AudioPortConfig.format req) as [f|];
    destruct (AudioPortConfig.channelMask req) as [m|];
    destruct (AudioPortConfig.sampleRate req) as [r|];
    destruct (AudioPortConfig.gain req) as [g|];
    repeat case_bool_decide;
    try destruct (findAudioProfile port f);
    reflexivity.
Qed.

Lemma generateDefaultPortConfig_portId (port : AudioPort.t) (seed : AudioPortConfig.t) :
  generateDefaultPortConfig port = Some seed ->
  AudioPortConfig.portId seed = AudioPort.id port.
Proof.
  unfold generateDefaultPortConfig. intros H.
  destruct (AudioPort.profiles port) as [|profile ?]; [discriminate H|].
  destruct (AudioProfile.channelMasks profile); [discriminate H|].
  destruct (AudioProfile.sampleRates profile); [discriminate H|].
  injection H as <-. reflexivity.
Qed.

(** [setAudioPortConfig] keeps the port ids in use bounded by the counter,
    whatever it returns. *)
Lemma bounded_setAudioPortConfig (st : Module) (req : AudioPortConfig.t) :
  port_ids_bounded st -> port_ids_bounded (setAudioPortConfig st req).1.
Proof.
  intros Hb. pose proof Hb as (Hp & Hcfg & Hr). unfold setAudioPortConfig. cbn zeta.
  set (existing := if bool_decide (AudioPortConfig.id req = 0) then None
                   else findById AudioPortConfig.id
                          (Configuration.portConfigs (mConfig st))
                          (AudioPortConfig.id req)).
  destruct (negb (bool_decide (AudioPortConfig.id req = 0)) && _); [exact Hb|].
  assert (Hex : forall e, existing = Some e ->
                          AudioPortConfig.portId e
                          <= Configuration.nextPortId (mConfig st)).
  { intros e He. unfold existing in He. case_bool_decide; [discriminate He|].
    apply findById_Some in He. rewrite Forall_forall in Hcfg.
    exact (Hcfg e (proj1 He)). }
  destruct (bool_decide (match existing with
                         | Some e => AudioPortConfig.portId e
                         | None => AudioPortConfig.portId req
                         end = 0)); [exact Hb|].
  destruct (findById AudioPort.id (Configuration.ports (mConfig st)) _)
    as [port|] eqn:Hport; [|exact Hb].
  apply findById_Some in Hport. destruct Hport as [Hin _].
  rewrite Forall_forall in Hp. pose proof (Hp port Hin) as Hportid.
  destruct (match existing with Some e => Some e | None => _ end)
    as [seed|] eqn:Hseed; [|exact Hb].
  assert (Hseedid : AudioPortConfig.portId seed
                    <= Configuration.nextPortId (mConfig st)).
  { destruct existing as [e|].
    - injection Hseed as <-. apply Hex. reflexivity.
    - rewrite (generateDefaultPortConfig_portId _ _ Hseed). exact Hportid. }
  destruct (AudioPortConfig.format _) as [f|]; [|exact Hb].
  destruct (findAudioProfile port f) as [profile|]; [|exact Hb].
  pose proof (portId_after_checks port profile seed req) as Hsame.
  destruct (negb _ && _ && _); [|destruct (_ && _); [|exact Hb]].
  - unfold port_ids_bounded. simpl_store. split; [|split].
    + apply Forall_forall. intros q Hq. specialize (Hp q Hq). cbn. lia.
    + apply Forall_app. split.
      * eapply Forall_impl; [exact Hcfg|]. cbn. lia.
      * apply Forall_singleton. cbn [set_id AudioPortConfig.portId].
        rewrite Hsame.
        apply Z.le_trans with (Configuration.nextPortId (mConfig st));
          [exact Hseedid | cbn; lia].
    + eapply Forall_impl; [exact Hr|]. cbn. intros r [Hsink Hsrc].
      split; [lia|]. eapply Forall_impl; [exact Hsrc|]. cbn. lia.
  - unfold port_ids_bounded. simpl_store. split; [|split].
    + apply Forall_forall. exact Hp.
    + apply Forall_assign_at_id; [|exact Hcfg]. intros _ _ _. cbn beta.
      simpl_store. rewrite Hsame. exact Hseedid.
    + exact Hr.
Qed.






(** An update that supplies a gain only is applied, and the config of the
    store then holds that gain, which it did not hold before. *)
Example setAudioPortConfig_update_stores_gain :
  let req := AudioPortConfig.mk 10 0 None None None (Some 5) None
               AudioPortExt.unspecified in
  let st' := (setAudioPortConfig Sample.module req).1 in
  option_map AudioPortConfig.gain
    (findById AudioPortConfig.id (Configuration.portConfigs (mConfig Sample.module)) 10)
  = Some None
  /\ option_map AudioPortConfig.gain
       (findById AudioPortConfig.id (Configuration.portConfigs (mConfig st')) 10)
     = Some (Some 5).
Proof. vm_compute. split; reflexivity. Qed.

(** A fully specified request without id makes the config 50; the same
    request once more makes another config, 51; a request that leaves the
    sample rate out is not applied and changes nothing; a request that holds
    the id of a config and a sample rate only is applied. *)
Example setAudioPortConfig_runs :
  let first := setAudioPortConfig Sample.module (Sample.new_config_request 1) in
  let second := setAudioPortConfig first.1 (Sample.new_config_request 1) in
  let partial := AudioPortConfig.mk 0 1 None (Some Sample.stereo) (Some Sample.pcm16)
                   None (Some (output 0)) AudioPortExt.unspecified in
  let update := AudioPortConfig.mk 10 0 (Some 48000) None None None None
                  AudioPortExt.unspecified in
  (exists c, first.2 = Ret (c, true) /\ AudioPortConfig.id c = 50)
  /\ (exists c, second.2 = Ret (c, true) /\ AudioPortConfig.id c = 51)
  /\ length (Configuration.portConfigs (mConfig second.1)) = 8%nat
  /\ (exists c, setAudioPortConfig Sample.module partial = (Sample.module, Ret (c, false)))
  /\ (exists c, (setAudioPortConfig Sample.module update).2 = Ret (c, true)).
Proof.
  vm_compute. repeat split; try (eexists; split; reflexivity); eexists; reflexivity.
Qed.

(** ** The index mirrors the patch list *)

Lemma elem_of_multimap_insert {V} (k : Z) (x : V) (m : list (Z * V)) (e : Z * V) :
  e ∈ multimap_insert k x m <-> e = (k, x) \/ e ∈ m.
Proof.
  induction m as [|[k' x'] m IH]; cbn.
  - rewrite list_elem_of_singleton, elem_of_nil. tauto.
  - destruct (k <? k'); rewrite !elem_of_cons; [tauto|]. rewrite IH. tauto.
Qed.

Lemma elem_of_do_insert (configs : list AudioPortConfig.t) (patchId : Z)
    (ids : list Z) (index : Patches) (e : Z * Z) :
  e ∈ do_insert configs patchId index ids
  <-> e ∈ index
      \/ (e.2 = patchId
          /\ exists i c, i ∈ ids /\ findById AudioPortConfig.id configs i = Some c
                         /\ (e.1 = i \/ e.1 = AudioPortConfig.portId c)).
Proof.
  unfold do_insert. revert index. induction ids as [|j ids IH]; intros index.
  - cbn. split; [auto|]. intros [H|(_ & i & c & Hi & _)]; [exact H|inversion Hi].
  - cbn [foldl]. rewrite IH. clear IH.
    destruct (findById AudioPortConfig.id configs j) as [cj|] eqn:Hj.
    + assert (Hstep : forall idx',
                idx' = (if bool_decide (AudioPortConfig.portId cj = j)
                        then multimap_insert j patchId index
                        else multimap_insert (AudioPortConfig.portId cj) patchId
                               (multimap_insert j patchId index)) ->
                (e ∈ idx' <-> e ∈ index
                              \/ e = (j, patchId)
                              \/ e = (AudioPortConfig.portId cj, patchId))).
      { intros idx' ->. case_bool_decide as Heq.
        - rewrite elem_of_multimap_insert, Heq. tauto.
        - rewrite !elem_of_multimap_insert. tauto. }
      rewrite (Hstep _ eq_refl). destruct e as [k v]. cbn [fst snd]. split.
      * intros [[H|[H|H]]|(Hv & i & c & Hi & Hc & Hk)].
        -- auto.
        -- injection H as -> ->. right. split; [reflexivity|].
           exists j, cj. rewrite elem_of_cons. auto.
        -- injection H as -> ->. right. split; [reflexivity|].
           exists j, cj. rewrite elem_of_cons. auto.
        -- right. split; [exact Hv|]. exists i, c. rewrite elem_of_cons. auto.
      * intros [H|(Hv & i & c & Hi & Hc & Hk)]; [auto|].
        apply elem_of_cons in Hi. destruct Hi as [->|Hi].
        -- rewrite Hj in Hc. injection Hc as <-. subst v.
           destruct Hk as [->| ->]; auto.
        -- right. split; [exact Hv|]. exists i, c. auto.
    + split.
      * intros [H|(Hv & i & c & Hi & Hc & Hk)]; [auto|].
        right. split; [exact Hv|]. exists i, c. rewrite elem_of_cons. auto.
      * intros [H|(Hv & i & c & Hi & Hc & Hk)]; [auto|].
        apply elem_of_cons in Hi. destruct Hi as [->|Hi]; [congruence|].
        right. split; [exact Hv|]. exists i, c. auto.
Qed.

(** The index after [registerPatch]: the entries it had, and for the patch
    the ids that resolve and the ports of their configs. *)
Lemma elem_of_registerPatch (st : Module) (p : AudioPatch.t) (e : Z * Z) :
  e ∈ mPatches (registerPatch st p)
  <-> e ∈ mPatches st
      \/ (e.2 = AudioPatch.id p
          /\ exists i c,
               i ∈ AudioPatch.sourcePortConfigIds p ++ AudioPatch.sinkPortConfigIds p
               /\ resolves_to st i c
               /\ (e.1 = i \/ e.1 = AudioPortConfig.portId c)).
Proof.
  unfold registerPatch, resolves_to. simpl_store.
  rewrite !elem_of_do_insert. split.
  - intros [[H|(Hv & i & c & Hi & Hc)]|(Hv & i & c & Hi & Hc)]; [auto| |];
      right; (split; [exact Hv|]); exists i, c; rewrite elem_of_app; auto.
  - intros [H|(Hv & i & c & Hi & Hc)]; [auto|].
    apply elem_of_app in Hi. destruct Hi as [Hi|Hi]; [left; right | right];
      (split; [exact Hv|]); exists i, c; auto.
Qed.

Section ByIdFacts.
Context {T : Type} (key : T -> Z).

Lemma elem_of_assign_at_id (v : list T) (i : Z) (p q : T) :
  NoDup (List.map key v) -> key p = i ->
  q ∈ assign_at_id key v i (fun _ => p) -> q = p \/ (q ∈ v /\ key q <> i).
Proof.
  intros Hnd Hp. induction v as [|e v IH]; cbn; [intros H; inversion H|].
  cbn in Hnd. apply NoDup_cons in Hnd. destruct Hnd as [He Hnd].
  case_bool_decide as Hk; rewrite elem_of_cons.
  - intros [->|Hq]; [auto|]. right. split; [apply list_elem_of_further, Hq|].
    intros Hq'. apply He. rewrite Hk, <- Hq'.
    apply list_elem_of_In, in_map, list_elem_of_In, Hq.
  - intros [->|Hq].
    + right. split; [apply list_elem_of_here | exact Hk].
    + destruct (IH Hnd Hq) as [->|[Hin Hne]]; [auto|].
      right. split; [apply list_elem_of_further, Hin | exact Hne].
Qed.

Lemma map_assign_at_id (v : list T) (i : Z) (p : T) :
  key p = i -> List.map key (assign_at_id key v i (fun _ => p)) = List.map key v.
Proof.
  intros Hp. induction v as [|e v IH]; [reflexivity|]. cbn.
  case_bool_decide as Hk; cbn; [rewrite Hp, Hk | rewrite IH]; reflexivity.
Qed.

Lemma elem_of_erase_at_id (v : list T) (i : Z) (q : T) :
  NoDup (List.map key v) -> q ∈ erase_at_id key v i -> q ∈ v /\ key q <> i.
Proof.
  intros Hnd. induction v as [|e v IH]; cbn; [intros H; inversion H|].
  cbn in Hnd. apply NoDup_cons in Hnd. destruct Hnd as [He Hnd].
  case_bool_decide as Hk.
  - intros Hq. split; [apply list_elem_of_further, Hq|].
    intros Hq'. apply He. rewrite Hk, <- Hq'.
    apply list_elem_of_In, in_map, list_elem_of_In, Hq.
  - rewrite elem_of_cons. intros [->|Hq].
    + split; [apply list_elem_of_here | exact Hk].
    + destruct (IH Hnd Hq) as [Hin Hne].
      split; [apply list_elem_of_further, Hin | exact Hne].
Qed.

Lemma NoDup_erase_at_id (v : list T) (i : Z) :
  NoDup (List.map key v) -> NoDup (List.map key (erase_at_id key v i)).
Proof.
  induction v as [|e v IH]; cbn; [auto|]. intros Hnd.
  apply NoDup_cons in Hnd. destruct Hnd as [He Hnd].
  case_bool_decide as Hk; [exact Hnd|]. cbn. apply NoDup_cons. split; [|auto].
  intros Hin. apply He. apply list_elem_of_In, in_map_iff in Hin.
  destruct Hin as (q & Hq & Hin). apply list_elem_of_In in Hin.
  apply list_elem_of_In, in_map_iff. exists q. split; [exact Hq|].
  apply list_elem_of_In. exact (proj1 (elem_of_erase_at_id v i q Hnd Hin)).
Qed.
End ByIdFacts.

(** The three ways [setAudioPatch] ends: a failure that leaves the module as
    it was, a new patch, an updated patch. *)
Lemma setAudioPatch_cases `{K : ModuleConstants} (st : Module) (req : AudioPatch.t) :
  (exists c l, setAudioPatch st req = (st, Exn c l))
  \/ (AudioPatch.id req = 0 /\ all_resolve st req
      /\ setAudioPatch st req
         = (with_new_patch st req,
            Ret (stored_patch (Configuration.nextPatchId (mConfig st)) req)))
  \/ (AudioPatch.id req <> 0 /\ all_resolve st req
      /\ (exists e, findById AudioPatch.id (Configuration.patches (mConfig st))
                      (AudioPatch.id req) = Some e)
      /\ setAudioPatch st req
         = (with_updated_patch st req, Ret (stored_patch (AudioPatch.id req) req))).
Proof.
  pose proof (missing_of_selectByIds (Configuration.portConfigs (mConfig st))
                (AudioPatch.sourcePortConfigIds req)) as Hsrc.
  pose proof (missing_of_selectByIds (Configuration.portConfigs (mConfig st))
                (AudioPatch.sinkPortConfigIds req)) as Hsnk.
  unfold setAudioPatch.
  destruct (is_empty (AudioPatch.sourcePortConfigIds req)); [left; eauto|].
  destruct (negb (all_unique (AudioPatch.sourcePortConfigIds req))); [left; eauto|].
  destruct (is_empty (AudioPatch.sinkPortConfigIds req)); [left; eauto|].
  destruct (negb (all_unique (AudioPatch.sinkPortConfigIds req))); [left; eauto|].
  destruct (selectByIds AudioPortConfig.id (Configuration.portConfigs (mConfig st))
              (AudioPatch.sourcePortConfigIds req)) as [sources ms].
  destruct (selectByIds AudioPortConfig.id (Configuration.portConfigs (mConfig st))
              (AudioPatch.sinkPortConfigIds req)) as [sinks mk].
  cbn [snd] in Hsrc, Hsnk.
  destruct ms as [|? ?]; cbn [is_empty negb]; [|left; eauto].
  destruct mk as [|? ?]; cbn [is_empty negb]; [|left; eauto].
  assert (Hall : all_resolve st req).
  { intros i Hi. unfold resolves_to.
    destruct (findById AudioPortConfig.id (Configuration.portConfigs (mConfig st)) i)
      as [c|] eqn:Hc; [eauto|]. exfalso.
    apply elem_of_app in Hi. destruct Hi as [Hi|Hi].
    - assert (Hnil : i ∈ @nil Z) by (apply Hsrc; auto). inversion Hnil.
    - assert (Hnil : i ∈ @nil Z) by (apply Hsnk; auto). inversion Hnil. }
  destruct (existsb _ sinks); [left; eauto|].
  destruct (decide (AudioPatch.id req = 0)) as [Hzero|Hnz].
  - rewrite (bool_decide_eq_true_2 _ Hzero). cbn [negb andb].
    destruct (exclusive_sink_in_use _ _).
    + left. eauto.
    + right. left. split; [exact Hzero|]. split; [exact Hall|]. reflexivity.
  - rewrite (bool_decide_eq_false_2 _ Hnz).
    destruct (findById AudioPatch.id (Configuration.patches (mConfig st))
                (AudioPatch.id req)) as [e|] eqn:He.
    + rewrite (bool_decide_eq_true_2 (is_Some (Some e))) by eauto. cbn [negb andb].
      apply findById_Some in He. destruct He as [Hin He]. rewrite He.
      destruct (exclusive_sink_in_use _ _).
      * left. unfold cleanUpPatch. rewrite restore_backup. eauto.
      * right. right. split; [exact Hnz|]. split; [exact Hall|].
        split; [|reflexivity].
        destruct (findById AudioPatch.id (Configuration.patches (mConfig st))
                    (AudioPatch.id req)) as [e'|] eqn:He'; [eauto|].
        exfalso. exact (proj1 (findById_None _ _ _) He' e Hin He).
    + rewrite (bool_decide_eq_false_2 (is_Some None)) by (intros [? ?]; discriminate).
      cbn [negb andb]. left. eauto.
Qed.

Lemma patch_key_same_configs (st st' : Module) (p : AudioPatch.t) (k : Z) :
  Configuration.portConfigs (mConfig st') = Configuration.portConfigs (mConfig st) ->
  patch_key st' p k <-> patch_key st p k.
Proof. intros H. unfold patch_key, resolves_to. rewrite H. reflexivity. Qed.

Lemma registered_keys (st : Module) (p : AudioPatch.t) (k : Z) :
  (forall i, i ∈ AudioPatch.sourcePortConfigIds p ++ AudioPatch.sinkPortConfigIds p ->
             exists c, resolves_to st i c) ->
  (exists i c, i ∈ AudioPatch.sourcePortConfigIds p ++ AudioPatch.sinkPortConfigIds p
               /\ resolves_to st i c /\ (k = i \/ k = AudioPortConfig.portId c))
  <-> patch_key st p k.
Proof.
  intros Hall. unfold patch_key. cbn zeta. split.
  - intros (i & c & Hi & Hc & [->| ->]); [left; exact Hi|]. right. eauto.
  - intros [Hk|(i & c & Hi & Hc & <-)].
    + destruct (Hall k Hk) as [c Hc]. exists k, c. auto.
    + exists i, c. auto.
Qed.

Lemma index_values_below (st : Module) (k v : Z) :
  patch_ids_consistent st -> (k, v) ∈ mPatches st ->
  v < Configuration.nextPatchId (mConfig st).
Proof.
  intros (_ & _ & Hidx) Hin. rewrite Forall_forall in Hidx. exact (Hidx _ Hin).
Qed.

Lemma patch_ids_below (st : Module) (q : AudioPatch.t) :
  patch_ids_consistent st -> q ∈ Configuration.patches (mConfig st) ->
  AudioPatch.id q < Configuration.nextPatchId (mConfig st).
Proof.
  intros (_ & Hids & _) Hin. rewrite Forall_forall in Hids. exact (Hids _ Hin).
Qed.

Lemma invariant_new_patch `{K : ModuleConstants} (st : Module) (req : AudioPatch.t) :
  patch_store_invariant st -> all_resolve st req ->
  patch_store_invariant (with_new_patch st req).
Proof.
  intros [Hmirror Hcons] Hall.
  set (next := Configuration.nextPatchId (mConfig st)).
  set (p := stored_patch next req).
  set (st0 := with_mConfig st
                (with_patches (with_nextPatchId (mConfig st) (next + 1))
                   (Configuration.patches (mConfig st) ++ [p]))).
  assert (Hst : with_new_patch st req = registerPatch st0 p) by reflexivity.
  assert (Hallp : forall i,
             i ∈ AudioPatch.sourcePortConfigIds p ++ AudioPatch.sinkPortConfigIds p ->
             exists c, resolves_to st0 i c) by exact Hall.
  rewrite Hst. split.
  - intros q Hq k.
    change (Configuration.patches (mConfig (registerPatch st0 p)))
      with (Configuration.patches (mConfig st) ++ [p]) in Hq.
    rewrite elem_of_registerPatch. cbn [fst snd].
    rewrite (patch_key_same_configs st0 (registerPatch st0 p)) by reflexivity.
    change (mPatches st0) with (mPatches st).
    apply elem_of_app in Hq. destruct Hq as [Hq|Hq].
    + pose proof (patch_ids_below st q Hcons Hq) as Hlt.
      rewrite (patch_key_same_configs st st0) by reflexivity.
      rewrite <- (Hmirror q Hq k). split; [|auto].
      intros [H|[Hid _]]; [exact H|]. cbn in Hid. fold next in Hlt. lia.
    + apply list_elem_of_singleton in Hq. subst q.
      rewrite <- (registered_keys st0 p k Hallp). split; [|auto].
      intros [H|[_ H]]; [|exact H].
      pose proof (index_values_below st _ _ Hcons H) as Hlt. cbn in Hlt.
      fold next in Hlt. lia.
  - destruct Hcons as (Hnd & Hids & Hidx).
    unfold patch_ids_consistent.
    change (Configuration.patches (mConfig (registerPatch st0 p)))
      with (Configuration.patches (mConfig st) ++ [p]).
    change (Configuration.nextPatchId (mConfig (registerPatch st0 p)))
      with (next + 1).
    split; [|split].
    + rewrite map_app. apply NoDup_app. split; [exact Hnd|]. split.
      * intros x Hx Hx'. cbn in Hx'. apply list_elem_of_singleton in Hx'. subst x.
        apply list_elem_of_In, in_map_iff in Hx. destruct Hx as (q & Hq & Hin).
        rewrite Forall_forall in Hids.
        pose proof (Hids q (proj2 (list_elem_of_In _ _) Hin)) as Hlt.
        fold next in Hlt. lia.
      * cbn. apply NoDup_singleton.
    + apply Forall_app. split.
      * eapply Forall_impl; [exact Hids|]. intros q Hq. cbn in Hq. fold next in Hq. lia.
      * apply Forall_singleton. cbn. lia.
    + apply Forall_forall. intros [k v] Hin.
      apply elem_of_registerPatch in Hin. cbn [fst snd] in *.
      destruct Hin as [Hin|[-> _]]; [|cbn; lia].
      change (mPatches st0) with (mPatches st) in Hin.
      rewrite Forall_forall in Hidx. pose proof (Hidx _ Hin) as Hlt.
      cbn in Hlt. fold next in Hlt. lia.
Qed.

Lemma invariant_updated_patch `{K : ModuleConstants} (st : Module) (req : AudioPatch.t) :
  patch_store_invariant st -> all_resolve st req ->
  (exists e, findById AudioPatch.id (Configuration.patches (mConfig st))
               (AudioPatch.id req) = Some e) ->
  patch_store_invariant (with_updated_patch st req).
Proof.
  intros [Hmirror Hcons] Hall (e & He).
  apply findById_Some in He. destruct He as [Hein Heid].
  pose proof (patch_ids_below st e Hcons Hein) as Hbelow. rewrite Heid in Hbelow.
  set (p := stored_patch (AudioPatch.id req) req).
  set (patches' := assign_at_id AudioPatch.id (Configuration.patches (mConfig st))
                     (AudioPatch.id req) (fun _ => p)).
  set (st0 := with_mConfig (cleanUpPatch st (AudioPatch.id req))
                (with_patches (mConfig (cleanUpPatch st (AudioPatch.id req))) patches')).
  assert (Hst : with_updated_patch st req = registerPatch st0 p) by reflexivity.
  assert (Hallp : forall i,
             i ∈ AudioPatch.sourcePortConfigIds p ++ AudioPatch.sinkPortConfigIds p ->
             exists c, resolves_to st0 i c) by exact Hall.
  assert (Hidx0 : forall x, x ∈ mPatches st0
                            <-> x ∈ mPatches st /\ x.2 <> AudioPatch.id req).
  { intros x. change (mPatches st0)
      with (erase_all_values (mPatches st) {[ AudioPatch.id req ]}).
    rewrite elem_of_erase_all_values, elem_of_singleton. reflexivity. }
  rewrite Hst. destruct Hcons as (Hnd & Hids & Hidx). split.
  - intros q Hq k.
    change (Configuration.patches (mConfig (registerPatch st0 p))) with patches' in Hq.
    rewrite elem_of_registerPatch, Hidx0. cbn [fst snd].
    rewrite (patch_key_same_configs st0 (registerPatch st0 p)) by reflexivity.
    apply (elem_of_assign_at_id AudioPatch.id _ _ p q Hnd eq_refl) in Hq.
    destruct Hq as [->|[Hq Hne]].
    + rewrite <- (registered_keys st0 p k Hallp). split; [|auto].
      intros [[_ H]|[_ H]]; [|exact H]. exfalso. apply H. reflexivity.
    + rewrite (patch_key_same_configs st st0) by reflexivity.
      rewrite <- (Hmirror q Hq k). split; [|auto].
      intros [[H _]|[Hid _]]; [exact H|]. cbn in Hid. contradiction.
  - unfold patch_ids_consistent.
    change (Configuration.patches (mConfig (registerPatch st0 p))) with patches'.
    change (Configuration.nextPatchId (mConfig (registerPatch st0 p)))
      with (Configuration.nextPatchId (mConfig st)).
    split; [|split].
    + unfold patches'. rewrite map_assign_at_id by reflexivity. exact Hnd.
    + apply Forall_forall. intros q Hq.
      apply (elem_of_assign_at_id AudioPatch.id _ _ p q Hnd eq_refl) in Hq.
      rewrite Forall_forall in Hids.
      destruct Hq as [->|[Hq _]]; [exact Hbelow | exact (Hids q Hq)].
    + apply Forall_forall. intros [k v] Hin.
      apply elem_of_registerPatch in Hin. cbn [fst snd] in *.
      rewrite Forall_forall in Hidx.
      destruct Hin as [Hin|[-> _]]; [|exact Hbelow].
      apply Hidx0 in Hin. exact (Hidx _ (proj1 Hin)).
Qed.

Lemma invariant_resetAudioPatch (st : Module) (patchId : Z) :
  patch_store_invariant st -> patch_store_invariant (resetAudioPatch st patchId).1.
Proof.
  intros [Hmirror Hcons]. unfold resetAudioPatch.
  destruct (findById AudioPatch.id (Configuration.patches (mConfig st)) patchId)
    as [e|] eqn:He; [|split; assumption].
  apply findById_Some in He. destruct He as [_ ->].
  destruct Hcons as (Hnd & Hids & Hidx). cbn [fst]. split.
  - intros q Hq k. unfold cleanUpPatch in *. simpl_store.
    apply (elem_of_erase_at_id AudioPatch.id _ _ q Hnd) in Hq.
    destruct Hq as [Hq Hne].
    rewrite elem_of_erase_all_values. cbn [snd].
    rewrite (Hmirror q Hq k). unfold patch_key, resolves_to. simpl_store.
    split; [intros [H _]; exact H | intros H; split; [exact H|]].
    rewrite elem_of_singleton. exact Hne.
  - unfold patch_ids_consistent, cleanUpPatch. simpl_store. split; [|split].
    + apply NoDup_erase_at_id, Hnd.
    + apply Forall_forall. intros q Hq.
      apply (elem_of_erase_at_id AudioPatch.id _ _ q Hnd) in Hq.
      rewrite Forall_forall in Hids. exact (Hids q (proj1 Hq)).
    + apply Forall_forall. intros x Hx. apply elem_of_erase_all_values in Hx.
      rewrite Forall_forall in Hidx. exact (Hidx x (proj1 Hx)).
Qed.

Lemma invariant_setAudioPatch `{K : ModuleConstants} (st : Module) (req : AudioPatch.t) :
  patch_store_invariant st -> patch_store_invariant (setAudioPatch st req).1.
Proof.
  intros Hinv.
  destruct (setAudioPatch_cases st req)
    as [(c & l & ->)|[(_ & Hall & ->)|(_ & Hall & Hex & ->)]]; cbn [fst].
  - exact Hinv.
  - apply invariant_new_patch; assumption.
  - apply invariant_updated_patch; assumption.
Qed.

(** In every state reached from a store without patches and with an empty
    index by [setAudioPatch] and [resetAudioPatch], the index mirrors the
    patch list. *)
Theorem index_mirrors_after_set_and_reset `{K : ModuleConstants} (init st : Module) :
  Configuration.patches (mConfig init) = [] -> mPatches init = [] ->
  patch_reachable init st -> index_mirrors st.
Proof.
  intros Hp Hi Hreach.
  assert (Hinv : patch_store_invariant st); [|exact (proj1 Hinv)].
  induction Hreach as [|st req _ IH|st patchId _ IH].
  - split.
    + intros q Hq. rewrite Hp in Hq. inversion Hq.
    + unfold patch_ids_consistent. rewrite Hp, Hi. cbn.
      split; [apply NoDup_nil_2|]. split; apply Forall_nil_2.
  - apply invariant_setAudioPatch, IH.
  - apply invariant_resetAudioPatch, IH.
Qed.

Lemma index_mirrors_after_set_and_reset_witness : index_mirrors Sample.two_patches.
Proof.
  apply (index_mirrors_after_set_and_reset (K := Sample.constants) Sample.module);
    [reflexivity | reflexivity |].
  apply (reach_set (K := Sample.constants)), (reach_set (K := Sample.constants)),
    reach_init.
Defined.

(** C1, at two states [setAudioPatch] reaches, in both of which the index
    mirrors the patch list.  After the patch 1 from the config 10 to the
    config 20, [cleanUpPatches 10] leaves the patch, the first of the list,
    in the list with no source, and the index as it is; after the patch 1
    from the configs 10 and 11 to the config 20, it takes 10 out of the
    patch and leaves the index as it is.  In both cases the index still has
    the key 10 for the patch 1, which is not a key of the patch any more. *)
Theorem cleanUpPatches_breaks_index_mirror :
  let st1 := Sample.one_patch in
  let st2 := (setAudioPatch (K := Sample.constants) Sample.module
                (Sample.patch 0 [10; 11] [20])).1 in
  (index_mirrors st1
   /\ Configuration.patches (mConfig (cleanUpPatches st1 10))
      = [AudioPatch.mk 1 [] [20] 16 [10]]
   /\ (10, 1) ∈ mPatches (cleanUpPatches st1 10)
   /\ ~ index_mirrors (cleanUpPatches st1 10))
  /\ (index_mirrors st2
      /\ Configuration.patches (mConfig (cleanUpPatches st2 10))
         = [AudioPatch.mk 1 [11] [20] 16 [10]]
      /\ (10, 1) ∈ mPatches (cleanUpPatches st2 10)
      /\ ~ index_mirrors (cleanUpPatches st2 10)).
Proof.
  cbn zeta.
  assert (Hreach : forall req,
            index_mirrors (setAudioPatch (K := Sample.constants) Sample.module req).1).
  { intros req.
    apply (index_mirrors_after_set_and_reset (K := Sample.constants) Sample.module);
      [reflexivity | reflexivity |].
    apply (reach_set (K := Sample.constants)), reach_init. }
  assert (Hkey : forall st sources,
            Configuration.portConfigs (mConfig st) = Sample.configs ->
            10 ∉ sources ++ [20] -> 1 ∉ sources ++ [20] ->
            (forall i, i ∈ sources ++ [20] -> i = 11 \/ i = 20) ->
            ~ patch_key st (AudioPatch.mk 1 sources [20] 16 [10]) 10).
  { intros st sources Hcfg H10 H1 Hids [Hk|(i & c & Hi & Hc & Hp)].
    - exact (H10 Hk).
    - unfold resolves_to in Hc. rewrite Hcfg in Hc. cbn in Hi.
      destruct (Hids i Hi) as [-> | ->]; vm_compute in Hc; injection Hc as <-;
        vm_compute in Hp; discriminate Hp. }
  split; (split; [apply Hreach|]; split; [vm_compute; reflexivity|];
          split; [compute_done|]; intros Hmirror).
  - apply (Hkey (cleanUpPatches Sample.one_patch 10) []); try reflexivity;
      try compute_done.
    + intros i Hi. apply list_elem_of_In in Hi. cbn in Hi. destruct Hi as [<-|[]]. auto.
    + apply Hmirror; compute_done.
  - apply (Hkey (cleanUpPatches
                   (setAudioPatch (K := Sample.constants) Sample.module
                      (Sample.patch 0 [10; 11] [20])).1 10) [11]);
      try reflexivity; try compute_done.
    + intros i Hi. apply list_elem_of_In in Hi. cbn in Hi.
      destruct Hi as [<-|[<-|[]]]; auto.
    + apply Hmirror; compute_done.
Qed.


(** * Further properties of the operations *)

(** ** Frame sizes and buffers *)

Lemma mask_bits_set_zero (m : Z) : mask_bits_set m = 0 <-> m mod 2 ^ 32 = 0.
Proof.
  unfold mask_bits_set. split.
  - intros H. apply Z.bits_inj'. intros i Hi. rewrite Z.bits_0.
    destruct (Z.lt_ge_cases i 32) as [Hlt|Hge].
    + rewrite Z.mod_pow2_bits_low by lia.
      destruct (Z.testbit m i) eqn:Hb; [|reflexivity]. exfalso.
      assert (Hin : In i (List.filter (Z.testbit m) (List.map Z.of_nat (seq 0 32)))).
      { apply filter_In. split; [|exact Hb]. apply in_map_iff.
        exists (Z.to_nat i). split; [lia|]. apply in_seq. lia. }
      destruct (List.filter _ _); [exact Hin | cbn in H; lia].
    + apply Z.mod_pow2_bits_high. lia.
  - intros H.
    destruct (List.filter (Z.testbit m) (List.map Z.of_nat (seq 0 32)))
      as [|i l] eqn:Hf; [reflexivity|]. exfalso.
    assert (Hin : In i (List.filter (Z.testbit m) (List.map Z.of_nat (seq 0 32)))).
    { rewrite Hf. left. reflexivity. }
    apply filter_In in Hin. destruct Hin as [Hin Hb].
    apply in_map_iff in Hin. destruct Hin as (j & <- & Hj). apply in_seq in Hj.
    assert (Hlow : Z.testbit (m mod 2 ^ 32) (Z.of_nat j) = true).
    { rewrite Z.mod_pow2_bits_low by lia. exact Hb. }
    rewrite H, Z.bits_0 in Hlow. discriminate Hlow.
Qed.

Lemma getFrameSizeInBytes_nonneg (format : AudioFormatDescription.t)
    (layout : AudioChannelLayout.t) : 0 <= getFrameSizeInBytes format layout.
Proof.
  unfold getFrameSizeInBytes. rewrite getChannelCount_counts_bits.
  assert (Hcount : 0 <= tagged_channel_count layout).
  { destruct layout; cbn; try lia; apply mask_bits_set_bounds. }
  destruct (AudioFormatDescription.type format); try lia.
  destruct (AudioFormatDescription.pcm format); cbn; lia.
Qed.

(** A frame takes at most 128 bytes, and takes none exactly for a PCM format
    with a layout tagged none or invalid or with a mask whose 32 bits are all
    clear. *)
Theorem frame_size_range (format : AudioFormatDescription.t)
    (layout : AudioChannelLayout.t) :
  0 <= getFrameSizeInBytes format layout <= 128
  /\ (getFrameSizeInBytes format layout = 0
      <-> AudioFormatDescription.type format = PCM
          /\ match layout with
             | AudioChannelLayout.indexMask m
             | AudioChannelLayout.layoutMask m
             | AudioChannelLayout.voiceMask m => m mod 2 ^ 32 = 0
             | _ => True
             end).
Proof.
  unfold getFrameSizeInBytes. rewrite getChannelCount_counts_bits.
  assert (Hsize : 1 <= getPcmSampleSizeInBytes (AudioFormatDescription.pcm format) <= 4).
  { destruct (AudioFormatDescription.pcm format); cbn; lia. }
  assert (Hcount : 0 <= tagged_channel_count layout <= 32).
  { destruct layout; cbn; try lia; apply mask_bits_set_bounds. }
  assert (Hzero : tagged_channel_count layout = 0
                  <-> match layout with
                      | AudioChannelLayout.indexMask m
                      | AudioChannelLayout.layoutMask m
                      | AudioChannelLayout.voiceMask m => m mod 2 ^ 32 = 0
                      | _ => True
                      end).
  { destruct layout; cbn; try tauto; apply mask_bits_set_zero. }
  destruct (AudioFormatDescription.type format).
  - split; [lia|]. split; [discriminate | intros [Hty _]; discriminate Hty].
  - split; [nia|]. rewrite <- Hzero. split; [intros H; split; [reflexivity|nia]|].
    intros [_ ->]. lia.
  - split; [lia|]. split; [discriminate | intros [Hty _]; discriminate Hty].
Qed.

(** For a config that is found and has a format and a channel mask, and a
    byte ceiling that is a non-negative signed constant, a buffer is accepted
    exactly when it has at least one frame and at least the minimum number of
    frames, the frame size is not 0, and the buffer, frame size times number
    of frames, fits under the byte ceiling. *)
Theorem createStreamDescriptor_accepts_what_fits `{K : ModuleConstants} (st : Module)
    (in_portConfigId n : Z) (portConfig : AudioPortConfig.t)
    (format : AudioFormatDescription.t) (channelMask : AudioChannelLayout.t) :
  0 <= kMaximumStreamBufferSizeBytes < 2 ^ 63 ->
  findById AudioPortConfig.id (Configuration.portConfigs (mConfig st))
    in_portConfigId = Some portConfig ->
  AudioPortConfig.format portConfig = Some format ->
  AudioPortConfig.channelMask portConfig = Some channelMask ->
  createStreamDescriptor st in_portConfigId n = Ret ()
  <-> 0 < n /\ kMinimumStreamBufferSizeFrames <= n
      /\ 0 < getFrameSizeInBytes format channelMask
      /\ getFrameSizeInBytes format channelMask * n <= kMaximumStreamBufferSizeBytes.
Proof.
  intros Hmax Hfound Hformat Hmask.
  pose proof (getFrameSizeInBytes_nonneg format channelMask) as Hfs.
  assert (Hq : 0 < n ->
               (getFrameSizeInBytes format channelMask
                <= kMaximumStreamBufferSizeBytes ÷ n
                <-> getFrameSizeInBytes format channelMask * n
                    <= kMaximumStreamBufferSizeBytes)).
  { intros Hn. rewrite Z.quot_div_nonneg by lia. split; intros H.
    - pose proof (Z.mul_div_le kMaximumStreamBufferSizeBytes n Hn). nia.
    - apply Z.div_le_lower_bound; lia. }
  destruct (createStreamDescriptor_cases st in_portConfigId portConfig format
              channelMask Hmax Hfound Hformat Hmask n) as [[Hr He]|[Hr He]];
    rewrite He; unfold descriptor_refused in Hr.
  - split; [discriminate|]. intros (H1 & H2 & H3 & H4). exfalso.
    apply Hq in H4; [|exact H1]. lia.
  - split; [|reflexivity]. intros _.
    assert (Hn : 0 < n) by lia. pose proof (Hq Hn). lia.
Qed.

Lemma createStreamDescriptor_accepts_what_fits_witness :
  createStreamDescriptor (K := Sample.constants) Sample.module 10 64 = Ret ()
  <-> 0 < 64 /\ 16 <= 64
      /\ 0 < getFrameSizeInBytes Sample.pcm16 Sample.stereo
      /\ getFrameSizeInBytes Sample.pcm16 Sample.stereo * 64 <= 2 ^ 30.
Proof.
  assert (Hrange : 0 <= 2 ^ 30 < 2 ^ 63) by lia.
  exact (createStreamDescriptor_accepts_what_fits (K := Sample.constants)
           Sample.module 10 64 (Sample.config_of 10 1 Sample.mix_port)
           Sample.pcm16 Sample.stereo Hrange eq_refl eq_refl eq_refl).
Defined.

(** ** Failures change nothing *)

Ltac step_operation :=
  match goal with
  | |- unchanged_on_failure _ (match ?x with _ => _ end) => destruct x
  end.

Ltac solve_unchanged :=
  repeat step_operation; unfold unchanged_on_failure; cbn [fst snd];
  first [exact I | reflexivity].

(** Whatever the request, an operation of the module that fails, with either
    exception code, leaves the whole module as it was: ports, configs,
    routes, patches, counters, the index, the stream registry, the connected
    ports and the debug flags. *)
Theorem failed_operation_changes_nothing `{K : ModuleConstants} (st : Module) :
  (forall req, unchanged_on_failure st (setAudioPatch st req))
  /\ (forall patchId, unchanged_on_failure st (resetAudioPatch st patchId))
  /\ (forall req, unchanged_on_failure st (setAudioPortConfig st req))
  /\ (forall id, unchanged_on_failure st (resetAudioPortConfig st id))
  /\ (forall req, unchanged_on_failure st (connectExternalDevice st req))
  /\ (forall portId, unchanged_on_failure st (disconnectExternalDevice st portId))
  /\ (forall args, unchanged_on_failure st (openInputStream st args))
  /\ (forall args, unchanged_on_failure st (openOutputStream st args))
  /\ (forall debug, unchanged_on_failure st (setModuleDebug st debug)).
Proof.
  repeat split.
  - intros req.
    destruct (setAudioPatch_cases st req)
      as [(c & l & ->)|[(_ & _ & ->)|(_ & _ & _ & ->)]];
      unfold unchanged_on_failure; cbn [fst snd]; first [exact I | reflexivity].
  - intros patchId. unfold resetAudioPatch. cbn zeta. solve_unchanged.
  - intros req. unfold setAudioPortConfig. cbn zeta. solve_unchanged.
  - intros id. unfold resetAudioPortConfig. cbn zeta. solve_unchanged.
  - intros req.
    destruct (connectExternalDevice st req) as [st' o] eqn:Hc.
    unfold unchanged_on_failure. cbn [fst snd].
    destruct o; [exact I| |];
      apply (connectExternalDevice_failure _ _ _ _ Hc); discriminate.
  - intros portId. unfold disconnectExternalDevice. cbn zeta. solve_unchanged.
  - intros args. unfold openInputStream. cbn zeta. solve_unchanged.
  - intros args. unfold openOutputStream. cbn zeta. solve_unchanged.
  - intros debug. unfold setModuleDebug. solve_unchanged.
Qed.

(** ** Patches: what the store keeps, and making and removing a patch *)

Section ByIdMembers.
Context {T : Type} (key : T -> Z).

Lemma elem_of_erase_at_id_other (v : list T) (i : Z) (q : T) :
  q ∈ v -> key q <> i -> q ∈ erase_at_id key v i.
Proof.
  intros Hq Hne. induction v as [|e v IH]; [inversion Hq|]. cbn.
  apply elem_of_cons in Hq. case_bool_decide as Hk.
  - destruct Hq as [->|Hq]; [contradiction | exact Hq].
  - destruct Hq as [->|Hq]; [apply list_elem_of_here|].
    apply list_elem_of_further, IH, Hq.
Qed.

Lemma elem_of_assign_at_id_other (v : list T) (i : Z) (f : T -> T) (q : T) :
  q ∈ v -> key q <> i -> q ∈ assign_at_id key v i f.
Proof.
  intros Hq Hne. induction v as [|e v IH]; [inversion Hq|]. cbn.
  apply elem_of_cons in Hq. case_bool_decide as Hk.
  - destruct Hq as [->|Hq]; [contradiction | apply list_elem_of_further, Hq].
  - destruct Hq as [->|Hq]; [apply list_elem_of_here|].
    apply list_elem_of_further, IH, Hq.
Qed.

Lemma elem_of_assign_at_id_same (v : list T) (i : Z) (p e : T) :
  findById key v i = Some e -> p ∈ assign_at_id key v i (fun _ => p).
Proof.
  unfold findById. induction v as [|y v IH]; cbn; [discriminate|].
  case_bool_decide as Hk.
  - intros _. apply list_elem_of_here.
  - intros H. apply list_elem_of_further, IH, H.
Qed.
End ByIdMembers.

Lemma owned_new_patch `{K : ModuleConstants} (st : Module) (req : AudioPatch.t) :
  index_owned st -> index_owned (with_new_patch st req).
Proof.
  intros Howned k v Hin.
  set (p := stored_patch (Configuration.nextPatchId (mConfig st)) req).
  change (Configuration.patches (mConfig (with_new_patch st req)))
    with (Configuration.patches (mConfig st) ++ [p]).
  unfold with_new_patch in Hin. cbn zeta in Hin.
  apply elem_of_registerPatch in Hin. cbn [fst snd] in Hin.
  destruct Hin as [Hin|[Hv _]].
  - destruct (Howned k v Hin) as (q & Hq & Hid).
    exists q. split; [apply elem_of_app; left; exact Hq | exact Hid].
  - exists p. split; [|symmetry; exact Hv].
    apply elem_of_app. right. apply list_elem_of_singleton. reflexivity.
Qed.

Lemma owned_updated_patch `{K : ModuleConstants} (st : Module) (req e : AudioPatch.t) :
  findById AudioPatch.id (Configuration.patches (mConfig st)) (AudioPatch.id req)
  = Some e ->
  index_owned st -> index_owned (with_updated_patch st req).
Proof.
  intros He Howned k v Hin.
  set (p := stored_patch (AudioPatch.id req) req).
  change (Configuration.patches (mConfig (with_updated_patch st req)))
    with (assign_at_id AudioPatch.id (Configuration.patches (mConfig st))
            (AudioPatch.id req) (fun _ => p)).
  unfold with_updated_patch in Hin. cbn zeta in Hin.
  apply elem_of_registerPatch in Hin. cbn [fst snd] in Hin.
  destruct Hin as [Hin|[Hv _]].
  - change (mPatches _)
      with (erase_all_values (mPatches st) {[ AudioPatch.id req ]}) in Hin.
    apply elem_of_erase_all_values in Hin. destruct Hin as [Hin Hne].
    cbn [snd] in Hne. rewrite elem_of_singleton in Hne.
    destruct (Howned k v Hin) as (q & Hq & Hid).
    exists q. split; [|exact Hid].
    apply elem_of_assign_at_id_other; [exact Hq | congruence].
  - exists p. split; [|symmetry; exact Hv].
    exact (elem_of_assign_at_id_same AudioPatch.id _ _ p e He).
Qed.

Lemma owned_setAudioPatch `{K : ModuleConstants} (st : Module) (req : AudioPatch.t) :
  index_owned st -> index_owned (setAudioPatch st req).1.
Proof.
  intros Howned.
  destruct (setAudioPatch_cases st req)
    as [(c & l & ->)|[(_ & _ & ->)|(_ & _ & (e & He) & ->)]]; cbn [fst].
  - exact Howned.
  - apply owned_new_patch, Howned.
  - exact (owned_updated_patch st req e He Howned).
Qed.

Lemma owned_resetAudioPatch (st : Module) (patchId : Z) :
  index_owned st -> index_owned (resetAudioPatch st patchId).1.
Proof.
  intros Howned. unfold resetAudioPatch.
  destruct (findById AudioPatch.id (Configuration.patches (mConfig st)) patchId)
    as [e|] eqn:He; [|exact Howned].
  apply findById_Some in He. destruct He as [_ ->].
  cbn [fst]. intros k v Hin. unfold cleanUpPatch in *. simpl_store.
  apply elem_of_erase_all_values in Hin. destruct Hin as [Hin Hne].
  cbn [snd] in Hne. rewrite elem_of_singleton in Hne.
  destruct (Howned k v Hin) as (q & Hq & Hid).
  exists q. split; [|exact Hid].
  apply elem_of_erase_at_id_other; [exact Hq | congruence].
Qed.

Lemma index_exact_of_owned (st : Module) :
  index_mirrors st -> index_owned st -> index_is_exact st.
Proof.
  intros Hmirror Howned k v. split.
  - intros Hin. destruct (Howned k v Hin) as (p & Hp & <-).
    exists p. split; [exact Hp|]. split; [reflexivity|].
    apply (Hmirror p Hp k), Hin.
  - intros (p & Hp & <- & Hk). apply (Hmirror p Hp k), Hk.
Qed.

(** In every state reached from a store without patches and with an empty
    index by [setAudioPatch] and [resetAudioPatch], whether the calls succeed
    or fail, the index mirrors the patch list and holds nothing else: its
    entries are exactly the keys of the patches of the list, each under the
    id of its patch; the ids of the patches are distinct, and every patch id
    of the list and of the index is below the counter of patch ids. *)
Theorem patch_store_invariant_reachable `{K : ModuleConstants} (init st : Module) :
  Configuration.patches (mConfig init) = [] -> mPatches init = [] ->
  patch_reachable init st ->
  index_mirrors st /\ index_is_exact st /\ patch_ids_consistent st.
Proof.
  intros Hp Hi Hreach.
  assert (Hinv : patch_store_invariant st /\ index_owned st).
  { induction Hreach as [|st req _ [IH IHo]|st patchId _ [IH IHo]].
    - split; [split|].
      + intros q Hq. rewrite Hp in Hq. inversion Hq.
      + unfold patch_ids_consistent. rewrite Hp, Hi. cbn.
        split; [apply NoDup_nil_2|]. split; apply Forall_nil_2.
      + intros k v Hin. rewrite Hi in Hin. inversion Hin.
    - split; [apply invariant_setAudioPatch, IH | apply owned_setAudioPatch, IHo].
    - split; [apply invariant_resetAudioPatch, IH | apply owned_resetAudioPatch, IHo]. }
  destruct Hinv as [[Hmirror Hcons] Howned].
  split; [exact Hmirror|]. split; [|exact Hcons].
  apply index_exact_of_owned; assumption.
Qed.

Lemma patch_store_invariant_reachable_witness :
  index_mirrors Sample.two_patches /\ index_is_exact Sample.two_patches
  /\ patch_ids_consistent Sample.two_patches.
Proof.
  apply (patch_store_invariant_reachable (K := Sample.constants) Sample.module);
    [reflexivity | reflexivity |].
  apply (reach_set (K := Sample.constants)), (reach_set (K := Sample.constants)),
    reach_init.
Defined.

Lemma erase_multimap_insert (k v : Z) (m : Patches) :
  erase_all_values (multimap_insert k v m) {[ v ]} = erase_all_values m {[ v ]}.
Proof.
  unfold erase_all_values, erase_if.
  induction m as [|[k' v'] m IH]; cbn.
  - rewrite bool_decide_eq_true_2 by set_solver. reflexivity.
  - destruct (k <? k'); cbn.
    + rewrite (bool_decide_eq_true_2 (v ∈ ({[ v ]} : gset Z))) by set_solver.
      reflexivity.
    + rewrite IH. reflexivity.
Qed.

Lemma erase_do_insert (configs : list AudioPortConfig.t) (v : Z) (ids : list Z)
    (m : Patches) :
  erase_all_values (do_insert configs v m ids) {[ v ]} = erase_all_values m {[ v ]}.
Proof.
  unfold do_insert. revert m. induction ids as [|i ids IH]; intros m; [reflexivity|].
  cbn [foldl]. rewrite IH.
  destruct (findById AudioPortConfig.id configs i) as [c|]; [|reflexivity].
  case_bool_decide; rewrite ?erase_multimap_insert; reflexivity.
Qed.

Lemma erase_absent_value (v : Z) (m : Patches) :
  Forall (fun e => e.2 <> v) m -> erase_all_values m {[ v ]} = m.
Proof.
  unfold erase_all_values, erase_if.
  induction 1 as [|e m He _ IH]; [reflexivity|]. cbn.
  rewrite bool_decide_eq_false_2 by (rewrite elem_of_singleton; exact He).
  cbn. rewrite IH. reflexivity.
Qed.

(** In a store whose patch ids, in the list and in the index, are below the
    counter, a patch made by [setAudioPatch] (a request without id) is in the
    patch list under the id returned, and [resetAudioPatch] of that id, called
    next, succeeds and gives back the patch list and the index of before,
    entry for entry. *)
Theorem new_patch_then_reset_restores `{K : ModuleConstants} (st st' : Module)
    (req p : AudioPatch.t) :
  patch_ids_consistent st ->
  AudioPatch.id req = 0 ->
  setAudioPatch st req = (st', Ret p) ->
  findById AudioPatch.id (Configuration.patches (mConfig st')) (AudioPatch.id p)
  = Some p
  /\ exists st'',
       resetAudioPatch st' (AudioPatch.id p) = (st'', Ret ())
       /\ Configuration.patches (mConfig st'') = Configuration.patches (mConfig st)
       /\ mPatches st'' = mPatches st.
Proof.
  intros (_ & Hids & Hidx) Hzero Hset.
  destruct (setAudioPatch_cases st req)
    as [(c & l & He)|[(_ & _ & He)|(Hnz & _)]]; [| |contradiction];
    rewrite He in Hset; [discriminate Hset|].
  injection Hset as <- <-.
  set (next := Configuration.nextPatchId (mConfig st)) in *.
  set (p := stored_patch next req).
  assert (Hfresh : Forall (fun q => AudioPatch.id q <> AudioPatch.id p)
                     (Configuration.patches (mConfig st))).
  { eapply Forall_impl; [exact Hids|]. intros q Hq. cbn beta in Hq.
    unfold p. cbn [stored_patch AudioPatch.id]. lia. }
  assert (Hfind : findById AudioPatch.id
                    (Configuration.patches (mConfig (with_new_patch st req)))
                    (AudioPatch.id p) = Some p).
  { exact (findById_app_new AudioPatch.id _ p Hfresh). }
  split; [exact Hfind|].
  unfold resetAudioPatch. cbn zeta. rewrite Hfind.
  eexists. split; [reflexivity|]. split.
  - exact (erase_at_id_app_new AudioPatch.id _ p Hfresh).
  - unfold cleanUpPatch, with_new_patch, registerPatch. simpl_store.
    fold next. fold p. rewrite !erase_do_insert.
    apply erase_absent_value. eapply Forall_impl; [exact Hidx|].
    intros e Hlt. cbn beta in Hlt. unfold p. cbn [stored_patch AudioPatch.id]. lia.
Qed.

Lemma new_patch_then_reset_restores_witness :
  findById AudioPatch.id (Configuration.patches (mConfig Sample.two_patches)) 2
  = Some (AudioPatch.mk 2 [45] [30] 16 [10])
  /\ exists st'',
       resetAudioPatch Sample.two_patches 2 = (st'', Ret ())
       /\ Configuration.patches (mConfig st'')
          = Configuration.patches (mConfig Sample.one_patch)
       /\ mPatches st'' = mPatches Sample.one_patch.
Proof.
  assert (Hcons : patch_ids_consistent Sample.one_patch) by compute_done.
  assert (Hset : setAudioPatch (K := Sample.constants) Sample.one_patch
                   (Sample.patch 0 [45] [30])
                 = (Sample.two_patches, Ret (AudioPatch.mk 2 [45] [30] 16 [10]))).
  { vm_compute. reflexivity. }
  exact (new_patch_then_reset_restores (K := Sample.constants) Sample.one_patch
           Sample.two_patches (Sample.patch 0 [45] [30])
           (AudioPatch.mk 2 [45] [30] 16 [10]) Hcons eq_refl Hset).
Defined.

(** ** The three outcomes of [setAudioPatch] *)

Lemma all_unique_NoDup (v : list Z) : all_unique v = true <-> NoDup v.
Proof. unfold all_unique. apply bool_decide_eq_true. Qed.

Lemma multimap_count_none {V} (m : list (Z * V)) (k : Z) :
  (multimap_count m k =? 0) = true <-> forall x, (k, x) ∉ m.
Proof.
  split.
  - intros H x Hin. rewrite (multimap_count_pos _ _ _ Hin) in H. discriminate.
  - intros H. unfold multimap_count. apply Z.eqb_eq.
    destruct (List.filter _ m) as [|[k' x] l] eqn:Hf; [reflexivity|].
    assert (Hin : In (k', x) (List.filter (fun e : Z * V => bool_decide (e.1 = k)) m)).
    { rewrite Hf. left. reflexivity. }
    apply filter_In in Hin. destruct Hin as [Hin Hk].
    apply bool_decide_eq_true in Hk. cbn in Hk. subst k'.
    exfalso. apply (H x), list_elem_of_In, Hin.
Qed.

Lemma exclusive_sink_in_use_spec (allowed : gmap Z bool) (index : Patches) :
  exclusive_sink_in_use allowed index = true
  <-> exists k x, allowed !! k = Some false /\ (k, x) ∈ index.
Proof.
  split.
  - unfold exclusive_sink_in_use. intros H. apply existsb_exists in H.
    destruct H as ([k b] & Hin & Hc). cbn in Hc.
    apply list_elem_of_In, elem_of_map_to_list in Hin.
    destruct b; [discriminate Hc|]. cbn in Hc.
    destruct (multimap_count index k =? 0) eqn:Hz; [discriminate Hc|].
    destruct (List.filter (fun e : Z * Z => bool_decide (e.1 = k)) index)
      as [|[k' x] l] eqn:Hf.
    + unfold multimap_count in Hz. rewrite Hf in Hz. discriminate Hz.
    + assert (Hx : In (k', x)
                     (List.filter (fun e : Z * Z => bool_decide (e.1 = k)) index)).
      { rewrite Hf. left. reflexivity. }
      apply filter_In in Hx. destruct Hx as [Hx Hk].
      apply bool_decide_eq_true in Hk. cbn in Hk. subst k'.
      exists k, x. split; [exact Hin | apply list_elem_of_In, Hx].
  - intros (k & x & Ha & Hin). exact (exclusive_sink_in_use_true _ _ _ _ Ha Hin).
Qed.

Lemma sources_have_open_route_iff (st : Module) (req : AudioPatch.t) (k : Z) :
  existsb (fun s => port_has_route (Configuration.routes (mConfig st)) k s
                    && port_has_open_route (Configuration.routes (mConfig st)) k s)
    (selectByIds AudioPortConfig.id (Configuration.portConfigs (mConfig st))
       (AudioPatch.sourcePortConfigIds req)).1 = true
  <-> exists r, route_for_request st req k r /\ AudioRoute.isExclusive r = false.
Proof.
  split; [apply sources_have_open_route|].
  intros (r & (Hr & Hk & i & c & Hi & Hc & Hp) & He).
  apply existsb_exists. exists c. split.
  - apply list_elem_of_In, selectByIds_found. eauto.
  - assert (Hs : serves (AudioPortConfig.portId c) k r = true)
      by (apply serves_true; auto).
    apply andb_true_iff. split.
    + apply existsb_exists. exists r. split; [apply list_elem_of_In, Hr | exact Hs].
    + apply existsb_exists. exists r. split; [apply list_elem_of_In, Hr|].
      rewrite Hs, He. reflexivity.
Qed.

Lemma allowed_false_iff (st : Module) (req : AudioPatch.t) (k : Z) :
  allowedSinkPorts (Configuration.routes (mConfig st))
    (selectByIds AudioPortConfig.id (Configuration.portConfigs (mConfig st))
       (AudioPatch.sourcePortConfigIds req)).1 !! k = Some false
  <-> only_exclusive_routes st req k.
Proof.
  split; [|apply allowed_exclusive_only].
  rewrite allowedSinkPorts_lookup. intros H.
  pose proof (sources_have_route st req k) as Hhas.
  pose proof (sources_have_open_route_iff st req k) as Hopen.
  destruct (existsb (port_has_route (Configuration.routes (mConfig st)) k) _);
    [|discriminate H].
  match type of H with
  | Some ?b = Some false => assert (Ho : b = false) by congruence
  end.
  rewrite Ho in Hopen. split; [apply Hhas; reflexivity|].
  intros r Hroute. destruct (AudioRoute.isExclusive r) eqn:He; [reflexivity|].
  assert (Hfalse : false = true) by (apply Hopen; eauto). discriminate Hfalse.
Qed.

(** How [setAudioPatch] ends, by the request and the store: an illegal
    argument when the request does not reach the check of exclusive sink
    ports, an illegal state when it does and a sink port it can only reach
    over exclusive routes is in the index under another patch, a patch
    otherwise. *)
Lemma setAudioPatch_outcome `{K : ModuleConstants} (st : Module) (req : AudioPatch.t) :
  (~ reaches_exclusivity_check st req
   /\ exists l, setAudioPatch st req = (st, Exn EX_ILLEGAL_ARGUMENT l))
  \/ (reaches_exclusivity_check st req
      /\ (exists k, only_exclusive_routes st req k /\ claimed_by_other st req k)
      /\ setAudioPatch st req = (st, Exn EX_ILLEGAL_STATE LogOther))
  \/ (reaches_exclusivity_check st req
      /\ (forall k, only_exclusive_routes st req k -> ~ claimed_by_other st req k)
      /\ exists st' p, setAudioPatch st req = (st', Ret p)).
Proof.
  pose proof (missing_of_selectByIds (Configuration.portConfigs (mConfig st))
                (AudioPatch.sourcePortConfigIds req)) as Hsrc.
  pose proof (missing_of_selectByIds (Configuration.portConfigs (mConfig st))
                (AudioPatch.sinkPortConfigIds req)) as Hsnk.
  pose proof (selectByIds_found (Configuration.portConfigs (mConfig st))
                (AudioPatch.sinkPortConfigIds req)) as Hfound.
  pose proof (allowed_has_route st req) as Hroute.
  pose proof (allowed_false_iff st req) as Hexcl.
  unfold setAudioPatch, reaches_exclusivity_check, lists_well_formed.
  destruct (is_empty (AudioPatch.sourcePortConfigIds req)) eqn:E1.
  { left. split; [|eauto]. destruct (AudioPatch.sourcePortConfigIds req);
      [tauto | discriminate E1]. }
  destruct (all_unique (AudioPatch.sourcePortConfigIds req)) eqn:E2; cbn [negb];
    [|left; split; [|eauto]; rewrite <- all_unique_NoDup, E2;
      intros ((_ & H & _) & _); discriminate H].
  destruct (is_empty (AudioPatch.sinkPortConfigIds req)) eqn:E3.
  { left. split; [|eauto]. destruct (AudioPatch.sinkPortConfigIds req);
      [tauto | discriminate E3]. }
  destruct (all_unique (AudioPatch.sinkPortConfigIds req)) eqn:E4; cbn [negb];
    [|left; split; [|eauto]; rewrite <- (all_unique_NoDup (AudioPatch.sinkPortConfigIds _)), E4;
      intros ((_ & _ & _ & H) & _); discriminate H].
  assert (Hwf : (AudioPatch.sourcePortConfigIds req <> []
                 /\ NoDup (AudioPatch.sourcePortConfigIds req)
                 /\ AudioPatch.sinkPortConfigIds req <> []
                 /\ NoDup (AudioPatch.sinkPortConfigIds req))).
  { apply all_unique_NoDup in E2, E4.
    repeat split; try assumption; intros Hnil; rewrite Hnil in *; discriminate. }
  destruct (selectByIds AudioPortConfig.id (Configuration.portConfigs (mConfig st))
              (AudioPatch.sourcePortConfigIds req)) as [sources ms].
  destruct (selectByIds AudioPortConfig.id (Configuration.portConfigs (mConfig st))
              (AudioPatch.sinkPortConfigIds req)) as [sinks mk].
  cbn [fst snd] in *.
  destruct ms as [|j ms]; cbn [is_empty negb].
  2:{ left. split; [|eauto]. intros (_ & Hres & _).
      destruct (proj1 (Hsrc j) (list_elem_of_here _ _)) as [Hj Hnone].
      apply (Hres j); [apply elem_of_app; auto | exact Hnone]. }
  destruct mk as [|j mk]; cbn [is_empty negb].
  2:{ left. split; [|eauto]. intros (_ & Hres & _).
      destruct (proj1 (Hsnk j) (list_elem_of_here _ _)) as [Hj Hnone].
      apply (Hres j); [apply elem_of_app; auto | exact Hnone]. }
  assert (Hres : forall i,
             i ∈ AudioPatch.sourcePortConfigIds req ++ AudioPatch.sinkPortConfigIds req ->
             ~ is_missing st i).
  { intros i Hi Hm. apply elem_of_app in Hi. destruct Hi as [Hi|Hi].
    - assert (Hnil : i ∈ @nil Z) by (apply Hsrc; auto). inversion Hnil.
    - assert (Hnil : i ∈ @nil Z) by (apply Hsnk; auto). inversion Hnil. }
  destruct (existsb _ sinks) eqn:E5.
  { left. split; [|eauto]. intros (_ & _ & Hr & _).
    apply existsb_exists in E5. destruct E5 as (sink & Hsink & Hnone).
    apply bool_decide_eq_true in Hnone.
    apply list_elem_of_In, Hfound in Hsink. destruct Hsink as (i & Hi & Hc).
    apply (proj2 (Hroute _) (Hr i sink Hi Hc)), Hnone. }
  assert (Hrouted : forall i c, i ∈ AudioPatch.sinkPortConfigIds req ->
                                resolves_to st i c ->
                                exists r, route_for_request st req
                                            (AudioPortConfig.portId c) r).
  { intros i c Hi Hc. apply Hroute. intros Hnone.
    assert (Hin : In c sinks) by (apply list_elem_of_In, Hfound; eauto).
    assert (Hex : existsb
                    (fun sink =>
                       bool_decide
                         (allowedSinkPorts (Configuration.routes (mConfig st)) sources
                          !! AudioPortConfig.portId sink = None)) sinks = true).
    { apply existsb_exists. exists c. split; [exact Hin|].
      apply bool_decide_eq_true_2, Hnone. }
    rewrite Hex in E5. discriminate E5. }
  destruct (decide (AudioPatch.id req = 0)) as [Hzero|Hnz].
  - rewrite (bool_decide_eq_true_2 _ Hzero). cbn [negb andb].
    assert (Hreach : (AudioPatch.sourcePortConfigIds req <> []
                      /\ NoDup (AudioPatch.sourcePortConfigIds req)
                      /\ AudioPatch.sinkPortConfigIds req <> []
                      /\ NoDup (AudioPatch.sinkPortConfigIds req))
                     /\ (forall i, i ∈ AudioPatch.sourcePortConfigIds req
                                       ++ AudioPatch.sinkPortConfigIds req ->
                                   ~ is_missing st i)
                     /\ (forall i c, i ∈ AudioPatch.sinkPortConfigIds req ->
                                     resolves_to st i c ->
                                     exists r, route_for_request st req
                                                 (AudioPortConfig.portId c) r)
                     /\ (AudioPatch.id req = 0
                         \/ exists p, findById AudioPatch.id
                                        (Configuration.patches (mConfig st))
                                        (AudioPatch.id req) = Some p)) by auto.
    destruct (exclusive_sink_in_use _ (mPatches st)) eqn:E6.
    + right. left. split; [exact Hreach|]. split; [|reflexivity].
      apply exclusive_sink_in_use_spec in E6. destruct E6 as (k & x & Hk & Hx).
      exists k. split; [apply Hexcl, Hk|]. exists x. auto.
    + right. right. split; [exact Hreach|]. split; [|eauto].
      intros k Hk (x & Hx & _). apply Hexcl in Hk.
      assert (Hex : exclusive_sink_in_use
                      (allowedSinkPorts (Configuration.routes (mConfig st)) sources)
                      (mPatches st) = true)
        by (apply exclusive_sink_in_use_spec; eauto).
      rewrite Hex in E6. discriminate E6.
  - rewrite (bool_decide_eq_false_2 _ Hnz).
    destruct (findById AudioPatch.id (Configuration.patches (mConfig st))
                (AudioPatch.id req)) as [e|] eqn:He.
    2:{ rewrite (bool_decide_eq_false_2 (is_Some None))
          by (intros [? ?]; discriminate).
        cbn [negb andb]. left. split; [|eauto].
        intros (_ & _ & _ & [Hz|(p & Hp)]); [contradiction | discriminate Hp]. }
    rewrite (bool_decide_eq_true_2 (is_Some (Some e))) by eauto. cbn [negb andb].
    assert (Hreach : (AudioPatch.sourcePortConfigIds req <> []
                      /\ NoDup (AudioPatch.sourcePortConfigIds req)
                      /\ AudioPatch.sinkPortConfigIds req <> []
                      /\ NoDup (AudioPatch.sinkPortConfigIds req))
                     /\ (forall i, i ∈ AudioPatch.sourcePortConfigIds req
                                       ++ AudioPatch.sinkPortConfigIds req ->
                                   ~ is_missing st i)
                     /\ (forall i c, i ∈ AudioPatch.sinkPortConfigIds req ->
                                     resolves_to st i c ->
                                     exists r, route_for_request st req
                                                 (AudioPortConfig.portId c) r)
                     /\ (AudioPatch.id req = 0 \/ exists p, Some e = Some p)) by eauto 10.
    pose proof (proj2 (findById_Some _ _ _ _ He)) as Heid. rewrite Heid.
    assert (Hidx : forall k x,
               (k, x) ∈ mPatches (cleanUpPatch st (AudioPatch.id req))
               <-> (k, x) ∈ mPatches st /\ x <> AudioPatch.id req).
    { intros k x. unfold cleanUpPatch. simpl_store.
      rewrite elem_of_erase_all_values, elem_of_singleton. reflexivity. }
    destruct (exclusive_sink_in_use _ (mPatches (cleanUpPatch st _))) eqn:E6.
    + right. left. split; [exact Hreach|].
      split; [|unfold cleanUpPatch; rewrite restore_backup; reflexivity].
      apply exclusive_sink_in_use_spec in E6. destruct E6 as (k & x & Hk & Hx).
      apply Hidx in Hx. exists k. split; [apply Hexcl, Hk|]. exists x. tauto.
    + right. right. split; [exact Hreach|]. split; [|eauto].
      intros k Hk (x & Hx & [Hz|Hne]); [contradiction|]. apply Hexcl in Hk.
      assert (Hex : exclusive_sink_in_use
                      (allowedSinkPorts (Configuration.routes (mConfig st)) sources)
                      (mPatches (cleanUpPatch st (AudioPatch.id req))) = true).
      { apply exclusive_sink_in_use_spec. exists k, x. split; [exact Hk|].
        apply Hidx. auto. }
      rewrite Hex in E6. discriminate E6.
Qed.

(** [setAudioPatch] fails with an illegal argument exactly when the request
    does not reach the check of exclusive sink ports (an id list is empty or
    has a duplicate, an id does not resolve, a sink port has no route from a
    source port, or the id of the request is not 0 and names no patch); it
    fails with an illegal state exactly when the request reaches that check
    and some sink port, requested or not, that the sources reach over
    exclusive routes only is in the index under another patch; it makes or
    updates the patch exactly in the remaining case. *)
Theorem setAudioPatch_error_codes `{K : ModuleConstants} (st : Module)
    (req : AudioPatch.t) :
  (failed_with (setAudioPatch st req).2 EX_ILLEGAL_ARGUMENT
   <-> ~ reaches_exclusivity_check st req)
  /\ (failed_with (setAudioPatch st req).2 EX_ILLEGAL_STATE
      <-> reaches_exclusivity_check st req
          /\ exists k, only_exclusive_routes st req k /\ claimed_by_other st req k)
  /\ ((exists p, (setAudioPatch st req).2 = Ret p)
      <-> reaches_exclusivity_check st req
          /\ forall k, only_exclusive_routes st req k -> ~ claimed_by_other st req k).
Proof.
  unfold failed_with.
  destruct (setAudioPatch_outcome st req)
    as [(Hn & l & ->)|[(Hr & (k & Hk & Hc) & ->)|(Hr & Hfree & st' & p & ->)]];
    cbn [snd].
  - split; [|split].
    + split; [auto | eauto].
    + split; [intros [l' H]; discriminate H | intros [H _]; contradiction].
    + split; [intros [p H]; discriminate H | intros [H _]; contradiction].
  - split; [|split].
    + split; [intros [l' H]; discriminate H | contradiction].
    + split; [eauto | eauto].
    + split; [intros [p H]; discriminate H|].
      intros [_ H]. exfalso. exact (H k Hk Hc).
  - split; [|split].
    + split; [intros [l' H]; discriminate H | contradiction].
    + split; [intros [l' H]; discriminate H|].
      intros [_ (k & Hk & Hc)]. exfalso. exact (Hfree k Hk Hc).
    + split; [auto | eauto].
Qed.

(** The second patch of the sample goes from the second mix port to the USB
    template.  From the first mix port the same sink is refused although the
    route to it is not exclusive: the first mix port also has an exclusive
    route to the speaker, which the first patch holds. *)
Example setAudioPatch_checks_every_reachable_sink :
  (exists p, (setAudioPatch (K := Sample.constants) Sample.one_patch
                (Sample.patch 0 [45] [30])).2 = Ret p)
  /\ (setAudioPatch (K := Sample.constants)
        (with_mConfig Sample.one_patch
           (with_routes (mConfig Sample.one_patch)
              [AudioRoute.mk [1; 4] 2 true; AudioRoute.mk [1; 5] 3 false]))
        (Sample.patch 0 [11] [30])).2 = Exn EX_ILLEGAL_STATE LogOther.
Proof. vm_compute. split; [eexists|]; reflexivity. Qed.

(** ** Resetting a port config *)

Lemma multimap_find_None {V} (m : list (Z * V)) (k : Z) :
  multimap_find m k = None <-> forall x, (k, x) ∉ m.
Proof.
  unfold multimap_find. split.
  - intros H x Hin. apply list_elem_of_In in Hin.
    pose proof (find_none _ _ H _ Hin) as Hf. cbn in Hf.
    rewrite bool_decide_eq_true_2 in Hf by reflexivity. discriminate Hf.
  - intros H. destruct (List.find _ m) as [[k' x]|] eqn:Hf; [|reflexivity].
    apply find_some in Hf. destruct Hf as [Hin Hk].
    apply bool_decide_eq_true in Hk. cbn in Hk. subst k'.
    exfalso. exact (H x (proj2 (list_elem_of_In _ _) Hin)).
Qed.

(** After [setAudioPatch] has made or updated a patch, [resetAudioPortConfig]
    of any source or sink config of that patch fails with an illegal state
    and changes nothing. *)
Theorem patched_config_cannot_be_reset `{K : ModuleConstants} (st st' : Module)
    (req p : AudioPatch.t) (i : Z) :
  setAudioPatch st req = (st', Ret p) ->
  i ∈ AudioPatch.sourcePortConfigIds p ++ AudioPatch.sinkPortConfigIds p ->
  resetAudioPortConfig st' i = (st', Exn EX_ILLEGAL_STATE LogOther).
Proof.
  intros Hset Hi.
  assert (Hfacts : Configuration.portConfigs (mConfig st')
                   = Configuration.portConfigs (mConfig st)
                   /\ (exists c, resolves_to st i c)
                   /\ (i, AudioPatch.id p) ∈ mPatches st').
  { destruct (setAudioPatch_cases st req)
      as [(c & l & He)|[(_ & Hall & He)|(_ & Hall & _ & He)]];
      rewrite He in Hset; [discriminate Hset| |];
      injection Hset as <- <-; (split; [reflexivity|]);
      destruct (Hall i Hi) as [c Hc]; (split; [eauto|]).
    - unfold with_new_patch. apply elem_of_registerPatch. right.
      split; [reflexivity|]. exists i, c. auto.
    - unfold with_updated_patch. apply elem_of_registerPatch. right.
      split; [reflexivity|]. exists i, c. auto. }
  destruct Hfacts as (Hcfg & (c & Hc) & Hin).
  unfold resetAudioPortConfig. cbn zeta. unfold resolves_to in Hc.
  rewrite Hcfg, Hc.
  destruct (negb (Streams.count (mStreams st') i =? 0)); [reflexivity|].
  destruct (multimap_find (mPatches st') i) as [e|] eqn:Hf; [reflexivity|].
  exfalso. exact (proj1 (multimap_find_None _ _) Hf _ Hin).
Qed.

Lemma patched_config_cannot_be_reset_witness :
  resetAudioPortConfig Sample.one_patch 20
  = (Sample.one_patch, Exn EX_ILLEGAL_STATE LogOther).
Proof.
  assert (Hset : setAudioPatch (K := Sample.constants) Sample.module
                   (Sample.patch 0 [10] [20])
                 = (Sample.one_patch, Ret (AudioPatch.mk 1 [10] [20] 16 [10]))).
  { vm_compute. reflexivity. }
  apply (patched_config_cannot_be_reset (K := Sample.constants) Sample.module
           Sample.one_patch (Sample.patch 0 [10] [20])
           (AudioPatch.mk 1 [10] [20] 16 [10]) 20 Hset).
  compute_done.
Defined.

Section ByIdLookups.
Context {T : Type} (key : T -> Z).

Lemma findById_erase_same (v : list T) (i : Z) :
  NoDup (List.map key v) -> findById key (erase_at_id key v i) i = None.
Proof.
  intros Hnd. apply findById_None. intros e He.
  exact (proj2 (elem_of_erase_at_id key v i e Hnd He)).
Qed.

Lemma findById_erase_other (v : list T) (i j : Z) :
  j <> i -> findById key (erase_at_id key v i) j = findById key v j.
Proof.
  intros Hne. unfold findById. induction v as [|e v IH]; [reflexivity|]. cbn.
  case_bool_decide as Hi.
  - rewrite bool_decide_eq_false_2 by congruence. reflexivity.
  - cbn. rewrite IH. reflexivity.
Qed.

Lemma findById_assign_same (v : list T) (i : Z) (x e : T) :
  key x = i -> findById key v i = Some e ->
  findById key (assign_at_id key v i (fun _ => x)) i = Some x.
Proof.
  intros Hx. unfold findById. induction v as [|y v IH]; cbn; [discriminate|].
  case_bool_decide as Hy; cbn.
  - intros _. rewrite bool_decide_eq_true_2 by exact Hx. reflexivity.
  - rewrite bool_decide_eq_false_2 by exact Hy. exact IH.
Qed.

Lemma findById_assign_other (v : list T) (i j : Z) (x : T) :
  key x = i -> j <> i ->
  findById key (assign_at_id key v i (fun _ => x)) j = findById key v j.
Proof.
  intros Hx Hne. unfold findById. induction v as [|y v IH]; [reflexivity|]. cbn.
  case_bool_decide as Hy; cbn.
  - rewrite !bool_decide_eq_false_2 by congruence. reflexivity.
  - rewrite IH. reflexivity.
Qed.
End ByIdLookups.

(** For a config of a store with distinct config ids that has no stream and
    is not in the index, [resetAudioPortConfig] succeeds; the id then
    resolves to what the initial snapshot holds for it, to nothing when the
    snapshot has no such config, and every other id resolves as before. *)
Theorem resetAudioPortConfig_restores_snapshot (st : Module) (i : Z)
    (c : AudioPortConfig.t) :
  NoDup (List.map AudioPortConfig.id (Configuration.portConfigs (mConfig st))) ->
  findById AudioPortConfig.id (Configuration.portConfigs (mConfig st)) i = Some c ->
  Streams.count (mStreams st) i = 0 ->
  (forall patchId, (i, patchId) ∉ mPatches st) ->
  exists st',
    resetAudioPortConfig st i = (st', Ret ())
    /\ findById AudioPortConfig.id (Configuration.portConfigs (mConfig st')) i
       = findById AudioPortConfig.id (Configuration.initialConfigs (mConfig st)) i
    /\ forall j, j <> i ->
         findById AudioPortConfig.id (Configuration.portConfigs (mConfig st')) j
         = findById AudioPortConfig.id (Configuration.portConfigs (mConfig st)) j.
Proof.
  intros Hnd Hc Hstream Hindex.
  unfold resetAudioPortConfig. cbn zeta.
  rewrite Hc, Hstream. cbn [Z.eqb negb].
  rewrite (proj2 (multimap_find_None _ _) Hindex).
  destruct (findById AudioPortConfig.id (Configuration.initialConfigs (mConfig st)) i)
    as [initial|] eqn:Hinit.
  - pose proof (proj2 (findById_Some _ _ _ _ Hinit)) as Hid.
    case_bool_decide as Heq; cbn [negb].
    + eexists. split; [reflexivity|]. split; [|reflexivity]. rewrite Hc, Heq.
      reflexivity.
    + eexists. split; [reflexivity|]. simpl_store. split.
      * exact (findById_assign_same AudioPortConfig.id _ i initial c Hid Hc).
      * intros j Hj. exact (findById_assign_other AudioPortConfig.id _ i j initial Hid Hj).
  - eexists. split; [reflexivity|]. simpl_store. split.
    + exact (findById_erase_same AudioPortConfig.id _ i Hnd).
    + intros j Hj. exact (findById_erase_other AudioPortConfig.id _ i j Hj).
Qed.

Lemma resetAudioPortConfig_restores_snapshot_witness :
  exists st',
    resetAudioPortConfig Sample.module 11 = (st', Ret ())
    /\ findById AudioPortConfig.id (Configuration.portConfigs (mConfig st')) 11
       = findById AudioPortConfig.id
           (Configuration.initialConfigs (mConfig Sample.module)) 11
    /\ forall j, j <> 11 ->
         findById AudioPortConfig.id (Configuration.portConfigs (mConfig st')) j
         = findById AudioPortConfig.id
             (Configuration.portConfigs (mConfig Sample.module)) j.
Proof.
  apply (resetAudioPortConfig_restores_snapshot Sample.module 11
           (Sample.config_of 11 1 Sample.mix_port)).
  - compute_done.
  - vm_compute. reflexivity.
  - reflexivity.
  - intros patchId Hin. inversion Hin.
Defined.

(** ** Port configs: ids and identity *)

Lemma id_after_checks (port : AudioPort.t) (profile : AudioProfile.t)
    (seed req : AudioPortConfig.t) :
  AudioPortConfig.id
    (out_suggested
       (check_gain req
          (check_sampleRate profile req
             (check_channelMask profile req
                (check_format port req
                   (check_flags port req (Build_Negotiation seed true true)))))))
  = AudioPortConfig.id seed.
Proof.
  unfold check_gain, check_sampleRate, check_channelMask, check_format, check_flags.
  destruct (AudioPortConfig.flags req) as [fl|];
    destruct (AudioPortConfig.format req) as [f|];
    destruct (AudioPortConfig.channelMask req) as [m|];
    destruct (AudioPortConfig.sampleRate req) as [r|];
    destruct (AudioPortConfig.gain req) as [g|];
    repeat case_bool_decide;
    try destruct (findAudioProfile port f);
    reflexivity.
Qed.

(** The module after [setAudioPortConfig]: as before, or with a new config
    under the next id, for a request without id, or with the config of the
    requested id overwritten by a config of the same id and port. *)
Lemma setAudioPortConfig_shape (st : Module) (req : AudioPortConfig.t) :
  (setAudioPortConfig st req).1 = st
  \/ (AudioPortConfig.id req = 0
      /\ exists c port,
           AudioPortConfig.id c = Configuration.nextPortId (mConfig st)
           /\ findById AudioPort.id (Configuration.ports (mConfig st))
                (AudioPortConfig.portId req) = Some port
           /\ AudioPortConfig.portId c = AudioPort.id port
           /\ (setAudioPortConfig st req).1 = with_new_config st c)
  \/ (AudioPortConfig.id req <> 0
      /\ exists e c,
           findById AudioPortConfig.id (Configuration.portConfigs (mConfig st))
             (AudioPortConfig.id req) = Some e
           /\ AudioPortConfig.id c = AudioPortConfig.id req
           /\ AudioPortConfig.portId c = AudioPortConfig.portId e
           /\ (setAudioPortConfig st req).1
              = with_updated_config st (AudioPortConfig.id req) c).
Proof.
  unfold setAudioPortConfig. cbn zeta.
  destruct (decide (AudioPortConfig.id req = 0)) as [Hzero|Hnz].
  - rewrite (bool_decide_eq_true_2 _ Hzero).
    rewrite (bool_decide_eq_false_2 (is_Some None)) by (intros [? ?]; discriminate).
    cbn [negb andb].
    destruct (bool_decide (AudioPortConfig.portId req = 0)); [auto|].
    destruct (findById AudioPort.id (Configuration.ports (mConfig st)) _)
      as [port|] eqn:Hport; [|auto].
    destruct (generateDefaultPortConfig port) as [seed|] eqn:Hseed; [|auto].
    destruct (AudioPortConfig.format _) as [f|]; [|auto].
    destruct (findAudioProfile port f) as [profile|]; [|auto].
    destruct (requestedIsValid _ && requestedIsFullySpecified _); [|auto].
    right. left. split; [exact Hzero|].
    match goal with
    | |- context [with_portConfigs _ (_ ++ [?c])] => exists c, port
    end.
    split; [reflexivity|]. split; [reflexivity|]. split; [|reflexivity].
    cbn [set_id AudioPortConfig.portId]. rewrite portId_after_checks.
    apply generateDefaultPortConfig_portId, Hseed.
  - rewrite (bool_decide_eq_false_2 _ Hnz).
    destruct (findById AudioPortConfig.id (Configuration.portConfigs (mConfig st))
                (AudioPortConfig.id req)) as [e|] eqn:He.
    2:{ rewrite (bool_decide_eq_false_2 (is_Some None))
          by (intros [? ?]; discriminate). auto. }
    rewrite (bool_decide_eq_true_2 (is_Some (Some e))) by eauto. cbn [negb andb].
    destruct (bool_decide (AudioPortConfig.portId e = 0)); [auto|].
    destruct (findById AudioPort.id (Configuration.ports (mConfig st)) _)
      as [port|]; [|auto].
    destruct (AudioPortConfig.format _) as [f|]; [|auto].
    destruct (findAudioProfile port f) as [profile|]; [|auto].
    destruct (requestedIsValid _); [|auto].
    right. right. split; [exact Hnz|].
    match goal with
    | |- context [assign_at_id _ _ _ (fun _ => ?c)] => exists e, c
    end.
    split; [reflexivity|]. split; [|split; [|reflexivity]].
    + rewrite id_after_checks. apply (findById_Some _ _ _ _ He).
    + apply portId_after_checks.
Qed.

Lemma map_assign_found {T U} (key : T -> Z) (f : T -> U) (v : list T) (i : Z)
    (c e : T) :
  findById key v i = Some e -> f c = f e ->
  List.map f (assign_at_id key v i (fun _ => c)) = List.map f v.
Proof.
  unfold findById. induction v as [|y v IH]; intros He Hf; [reflexivity|].
  cbn in *. case_bool_decide; cbn.
  - injection He as <-. rewrite Hf. reflexivity.
  - rewrite (IH He Hf). reflexivity.
Qed.

(** Whatever the request, [setAudioPortConfig] with the id of a config keeps
    the list of config ids, the port of every config and the counter as they
    were: an update neither moves, adds, removes nor re-parents a config. *)
Theorem setAudioPortConfig_update_keeps_identity (st : Module)
    (req : AudioPortConfig.t) :
  AudioPortConfig.id req <> 0 ->
  let st' := (setAudioPortConfig st req).1 in
  List.map AudioPortConfig.id (Configuration.portConfigs (mConfig st'))
  = List.map AudioPortConfig.id (Configuration.portConfigs (mConfig st))
  /\ List.map AudioPortConfig.portId (Configuration.portConfigs (mConfig st'))
     = List.map AudioPortConfig.portId (Configuration.portConfigs (mConfig st))
  /\ Configuration.nextPortId (mConfig st') = Configuration.nextPortId (mConfig st).
Proof.
  intros Hnz. cbn zeta.
  destruct (setAudioPortConfig_shape st req)
    as [->|[(Hzero & _)|(_ & e & c & He & Hid & Hport & ->)]];
    [auto | contradiction |].
  unfold with_updated_config. simpl_store.
  split; [apply map_assign_at_id, Hid|]. split; [|reflexivity].
  exact (map_assign_found AudioPortConfig.id AudioPortConfig.portId _ _ c e He Hport).
Qed.

Lemma setAudioPortConfig_update_keeps_identity_witness :
  let req := AudioPortConfig.mk 10 0 (Some 48000) None None (Some 3) None
               AudioPortExt.unspecified in
  let st' := (setAudioPortConfig Sample.module req).1 in
  List.map AudioPortConfig.id (Configuration.portConfigs (mConfig st'))
  = List.map AudioPortConfig.id (Configuration.portConfigs (mConfig Sample.module))
  /\ List.map AudioPortConfig.portId (Configuration.portConfigs (mConfig st'))
     = List.map AudioPortConfig.portId
         (Configuration.portConfigs (mConfig Sample.module))
  /\ Configuration.nextPortId (mConfig st')
     = Configuration.nextPortId (mConfig Sample.module).
Proof.
  intros req.
  apply (setAudioPortConfig_update_keeps_identity Sample.module req).
  discriminate.
Defined.

Lemma Forall_lt_NoDup_snoc {T} (key : T -> Z) (v : list T) (x : T) :
  NoDup (List.map key v) -> Forall (fun e => key e < key x) v ->
  NoDup (List.map key (v ++ [x])).
Proof.
  intros Hnd Hlt. rewrite map_app. apply NoDup_app. split; [exact Hnd|]. split.
  - intros k Hk Hk'. cbn in Hk'. apply list_elem_of_singleton in Hk'. subst k.
    apply list_elem_of_In, in_map_iff in Hk. destruct Hk as (e & He & Hin).
    rewrite Forall_forall in Hlt.
    pose proof (Hlt e (proj2 (list_elem_of_In _ _) Hin)). lia.
  - cbn. apply NoDup_singleton.
Qed.

(** [setAudioPortConfig], [resetAudioPortConfig], [connectExternalDevice] and
    [disconnectExternalDevice] keep the ids of the port configs distinct and
    below the counter of port ids, whatever they return: no config is ever
    given the id of another config. *)
Theorem config_ids_stay_distinct (st : Module) :
  config_ids_consistent st ->
  (forall req, config_ids_consistent (setAudioPortConfig st req).1)
  /\ (forall id, config_ids_consistent (resetAudioPortConfig st id).1)
  /\ (forall req, config_ids_consistent (connectExternalDevice st req).1)
  /\ (forall portId, config_ids_consistent (disconnectExternalDevice st portId).1).
Proof.
  intros Hc. pose proof Hc as [Hnd Hlt]. repeat split.
  - destruct (setAudioPortConfig_shape st req)
      as [->|[(_ & c & port & Hid & _ & _ & ->)|(_ & e & c & He & Hid & _ & ->)]];
      [exact Hnd | |]; unfold with_new_config, with_updated_config; simpl_store.
    + apply Forall_lt_NoDup_snoc; [exact Hnd|]. rewrite Hid. exact Hlt.
    + rewrite map_assign_at_id by exact Hid. exact Hnd.
  - destruct (setAudioPortConfig_shape st req)
      as [->|[(_ & c & port & Hid & _ & _ & ->)|(_ & e & c & He & Hid & _ & ->)]];
      [exact Hlt | |]; unfold with_new_config, with_updated_config; simpl_store.
    + apply Forall_app. split.
      * eapply Forall_impl; [exact Hlt|]. cbn. lia.
      * apply Forall_singleton. lia.
    + apply Forall_assign_at_id; [|exact Hlt]. intros x Hx _. cbn beta.
      apply findById_Some in He. destruct He as [Hin He]. rewrite Hid, <- He.
      rewrite Forall_forall in Hlt. exact (Hlt e Hin).
  - unfold resetAudioPortConfig. cbn zeta.
    repeat match goal with
           | |- NoDup (List.map _ (Configuration.portConfigs
                                     (mConfig (match ?x with _ => _ end).1))) =>
               destruct x eqn:?
           end; cbn [fst]; try exact Hnd; simpl_store.
    + rewrite map_assign_at_id; [exact Hnd|].
      match goal with
      | H : findById _ (Configuration.initialConfigs _) _ = Some _ |- _ =>
          exact (proj2 (findById_Some _ _ _ _ H))
      end.
    + apply NoDup_erase_at_id, Hnd.
  - unfold resetAudioPortConfig. cbn zeta.
    repeat match goal with
           | |- Forall _ (Configuration.portConfigs
                            (mConfig (match ?x with _ => _ end).1)) =>
               destruct x eqn:?
           end; cbn [fst]; try exact Hlt; simpl_store.
    + match goal with
      | H : findById _ (Configuration.portConfigs _) _ = Some ?c,
        H' : findById _ (Configuration.initialConfigs _) _ = Some ?i |- _ =>
          apply findById_Some in H; apply findById_Some in H';
          destruct H as [Hin Hid]; destruct H' as [_ Hid']
      end.
      apply Forall_assign_at_id; [|exact Hlt]. intros x Hx _. cbn beta.
      rewrite Hid', <- Hid. rewrite Forall_forall in Hlt. exact (Hlt _ Hin).
    + apply Forall_erase_at_id, Hlt.
  - destruct (connectExternalDevice st req) as [st' o] eqn:Hco. cbn [fst].
    destruct o as [port| |];
      [|rewrite (connectExternalDevice_failure _ _ _ _ Hco); [exact Hnd|discriminate]..].
    apply connectExternalDevice_Ret in Hco. destruct Hco as (_ & _ & _ & _ & ->).
    exact Hnd.
  - destruct (connectExternalDevice st req) as [st' o] eqn:Hco. cbn [fst].
    destruct o as [port| |];
      [|rewrite (connectExternalDevice_failure _ _ _ _ Hco); [exact Hlt|discriminate]..].
    apply connectExternalDevice_Ret in Hco. destruct Hco as (_ & _ & _ & Hid & ->).
    simpl_store. eapply Forall_impl; [exact Hlt|]. cbn. lia.
  - unfold disconnectExternalDevice. cbn zeta.
    repeat match goal with
           | |- NoDup (List.map _ (Configuration.portConfigs
                                     (mConfig (match ?x with _ => _ end).1))) =>
               destruct x
           end; exact Hnd.
  - unfold disconnectExternalDevice. cbn zeta.
    repeat match goal with
           | |- Forall _ (Configuration.portConfigs
                            (mConfig (match ?x with _ => _ end).1)) =>
               destruct x
           end; exact Hlt.
Qed.

Lemma config_ids_stay_distinct_witness :
  config_ids_consistent
    (setAudioPortConfig Sample.usb_connected (Sample.new_config_request 51)).1.
Proof.
  assert (Hc : config_ids_consistent Sample.usb_connected) by compute_done.
  exact (proj1 (config_ids_stay_distinct Sample.usb_connected Hc)
           (Sample.new_config_request 51)).
Defined.

(** The default config of a port, sent back as a request, is applied: for a
    port of the store with a non-zero id for which
    [generateDefaultPortConfig] succeeds, [setAudioPortConfig] of that
    default config stores it under the next id of the counter. *)
Theorem default_config_request_is_applied (st : Module) (port : AudioPort.t)
    (d : AudioPortConfig.t) :
  findById AudioPort.id (Configuration.ports (mConfig st)) (AudioPort.id port)
  = Some port ->
  AudioPort.id port <> 0 ->
  generateDefaultPortConfig port = Some d ->
  let created := set_id d (Configuration.nextPortId (mConfig st)) in
  setAudioPortConfig st d = (with_new_config st created, Ret (created, true)).
Proof.
  intros Hport Hnz Hd. cbn zeta. pose proof Hd as Hd'.
  unfold generateDefaultPortConfig in Hd'.
  destruct (AudioPort.profiles port) as [|profile profiles] eqn:Hprofiles;
    [discriminate Hd'|].
  destruct (AudioProfile.channelMasks profile) as [|m masks] eqn:Hmasks;
    [discriminate Hd'|].
  destruct (AudioProfile.sampleRates profile) as [|r rates] eqn:Hrates;
    [discriminate Hd'|].
  injection Hd' as Hd'.
  assert (Hprofile : findAudioProfile port (AudioProfile.format profile) = Some profile).
  { unfold findAudioProfile. rewrite Hprofiles. cbn.
    rewrite bool_decide_eq_true_2 by reflexivity. reflexivity. }
  unfold setAudioPortConfig. cbn zeta. rewrite <- Hd'.
  cbn [AudioPortConfig.id AudioPortConfig.portId].
  rewrite (bool_decide_eq_true_2 (0 = 0)) by reflexivity.
  rewrite (bool_decide_eq_false_2 (is_Some None)) by (intros [? ?]; discriminate).
  cbn [negb andb]. rewrite (bool_decide_eq_false_2 _ Hnz), Hport, Hd, <- Hd'.
  unfold check_flags, check_format. cbn [AudioPortConfig.flags AudioPortConfig.format].
  rewrite (bool_decide_eq_true_2 (AudioPort.flags port = AudioPort.flags port))
    by reflexivity.
  rewrite Hprofile. cbn [out_suggested set_format AudioPortConfig.format].
  rewrite Hprofile.
  unfold check_gain, check_sampleRate, check_channelMask.
  cbn [AudioPortConfig.channelMask AudioPortConfig.sampleRate AudioPortConfig.gain
       out_suggested requestedIsValid requestedIsFullySpecified].
  rewrite Hmasks, Hrates.
  rewrite (bool_decide_eq_true_2 (m ∈ m :: masks)) by apply list_elem_of_here.
  rewrite (bool_decide_eq_true_2 (r ∈ r :: rates)) by apply list_elem_of_here.
  reflexivity.
Qed.

Lemma default_config_request_is_applied_witness :
  let d := AudioPortConfig.mk 0 1 (Some 48000) (Some Sample.stereo)
             (Some Sample.pcm16) None (Some (output 0))
             (AudioPortExt.mix (AudioPortMixExt.mk 0 0)) in
  setAudioPortConfig Sample.module d
  = (with_new_config Sample.module (set_id d 50), Ret (set_id d 50, true)).
Proof.
  intros d.
  assert (Hnz : AudioPort.id Sample.mix_port <> 0) by discriminate.
  exact (default_config_request_is_applied Sample.module Sample.mix_port d
           eq_refl Hnz eq_refl).
Defined.

(** ** External devices: a second connection, client configs, debug flags *)

Lemma already_connected_None (ports : list AudioPort.t) (device : AudioDevice.t)
    (connected : list Z) :
  already_connected ports device connected = None
  <-> Forall (other_device ports device) connected.
Proof.
  induction connected as [|i l IH]; cbn.
  - split; [constructor | reflexivity].
  - rewrite Forall_cons, <- IH. unfold other_device.
    destruct (findById AudioPort.id ports i) as [q|].
    2:{ split; [discriminate | intros [(q & d & H & _) _]; discriminate H]. }
    destruct (AudioPort.ext q) as [|d| |] eqn:Hext;
      try (split; [discriminate|];
           intros [(q' & d' & H & H' & _) _]; injection H as <-; congruence).
    case_bool_decide as Hd.
    + split; [discriminate|]. intros [(q' & d' & H & H' & Hne) _].
      injection H as <-. rewrite Hext in H'. injection H' as <-. contradiction.
    + split; [intros H; split; [eauto | exact H] | intros [_ H]; exact H].
Qed.

Lemma already_connected_hit (ports : list AudioPort.t) (device : AudioDevice.t)
    (connected : list Z) (k : Z) (p : AudioPort.t) (d : AudioPortDeviceExt.t) :
  k ∈ connected ->
  findById AudioPort.id ports k = Some p ->
  AudioPort.ext p = AudioPortExt.device d ->
  AudioPortDeviceExt.device d = device ->
  (forall i, i ∈ connected -> i <> k -> other_device ports device i) ->
  already_connected ports device connected = Some (Exn EX_ILLEGAL_STATE LogOther).
Proof.
  intros Hk Hp Hext Hdev. induction connected as [|i l IH]; intros Hothers;
    [inversion Hk|]. cbn.
  destruct (decide (i = k)) as [->|Hne].
  - rewrite Hp, Hext, bool_decide_eq_true_2 by exact Hdev. reflexivity.
  - destruct (Hothers i (list_elem_of_here _ _) Hne) as (q & dq & Hq & Hqe & Hqd).
    rewrite Hq, Hqe, bool_decide_eq_false_2 by exact Hqd.
    apply IH.
    + apply elem_of_cons in Hk. destruct Hk as [->|Hk]; [contradiction | exact Hk].
    + intros j Hj. apply Hothers, list_elem_of_further, Hj.
Qed.

Lemma elem_of_set_in_order (s : gset Z) (i : Z) : i ∈ set_in_order s <-> i ∈ s.
Proof.
  unfold set_in_order. rewrite merge_sort_Permutation. apply elem_of_elements.
Qed.

Lemma findById_app_found {T} (key : T -> Z) (v w : list T) (i : Z) (e : T) :
  findById key v i = Some e -> findById key (v ++ w) i = Some e.
Proof.
  unfold findById. induction v as [|y v IH]; cbn; [discriminate|].
  destruct (bool_decide (key y = i)); [auto | exact IH].
Qed.

(** What a successful [connectExternalDevice] has checked and done. *)
Lemma connectExternalDevice_Ret_checks (st st' : Module) (request port : AudioPort.t) :
  connectExternalDevice st request = (st', Ret port) ->
  exists template tdp idp,
    findById AudioPort.id (Configuration.ports (mConfig st)) (AudioPort.id request)
    = Some template
    /\ AudioPort.ext template = AudioPortExt.device tdp
    /\ AudioPort.profiles template = []
    /\ AudioDeviceDescription.connection
         (AudioDevice.type (AudioPortDeviceExt.device tdp)) <> EmptyString
    /\ AudioPort.ext request = AudioPortExt.device idp
    /\ already_connected (Configuration.ports (mConfig st))
         (AudioDevice.mk (AudioDevice.type (AudioPortDeviceExt.device tdp))
            (AudioDevice.address (AudioPortDeviceExt.device idp)))
         (set_in_order (mConnectedDevicePorts st)) = None
    /\ ModuleDebug.simulateDeviceConnections (mDebug st) = true
    /\ AudioPort.ext port
       = AudioPortExt.device
           (AudioPortDeviceExt.mk
              (AudioDevice.mk (AudioDevice.type (AudioPortDeviceExt.device tdp))
                 (AudioDevice.address (AudioPortDeviceExt.device idp)))
              (AudioPortDeviceExt.flags tdp)).
Proof.
  unfold connectExternalDevice. intros H.
  destruct (findById AudioPort.id _ (AudioPort.id request)) as [template|] eqn:Ht;
    [|discriminate H].
  destruct (AudioPort.ext template) as [|tdp| |] eqn:Hte; try discriminate H.
  destruct (AudioPort.profiles template) as [|? ?] eqn:Hp; [|discriminate H].
  cbn [is_empty negb] in H.
  case_bool_decide as Hconn; [discriminate H|].
  destruct (AudioPort.ext request) as [|idp| |] eqn:Hre; try discriminate H.
  destruct (already_connected _ _ _) as [o|] eqn:Hc.
  - injection H as _ ->. exfalso. exact (already_connected_no_value _ _ _ _ Hc).
  - destruct (ModuleDebug.simulateDeviceConnections (mDebug st)) eqn:Hsim;
      [|discriminate H].
    cbn [negb] in H. injection H as _ <-.
    exists template, tdp, idp.
    split; [reflexivity|]. split; [exact Hte|]. split; [exact Hp|].
    split; [exact Hconn|]. split; [reflexivity|]. split; [exact Hc|].
    split; reflexivity.
Qed.

(** After [connectExternalDevice] has connected a device, in a store where
    the id given to the new port was not yet the id of a port, the same
    request once more fails with an illegal state and changes nothing: a
    device is connected once. *)
Theorem connect_same_device_twice_refused (st st' : Module) (request port : AudioPort.t) :
  Forall (fun q => AudioPort.id q <> Configuration.nextPortId (mConfig st) + 1)
    (Configuration.ports (mConfig st)) ->
  connectExternalDevice st request = (st', Ret port) ->
  connectExternalDevice st' request = (st', Exn EX_ILLEGAL_STATE LogOther).
Proof.
  intros Hfresh Hconnect.
  destruct (connectExternalDevice_Ret_checks _ _ _ _ Hconnect)
    as (template & tdp & idp & Htemplate & Htext & Hprofiles & Hconn & Hreq
        & Hnone & _ & Hext).
  destruct (connectExternalDevice_Ret _ _ _ _ Hconnect) as (_ & _ & _ & Hid & Hst).
  set (dev := AudioDevice.mk (AudioDevice.type (AudioPortDeviceExt.device tdp))
                (AudioDevice.address (AudioPortDeviceExt.device idp))) in *.
  rewrite <- Hid in Hfresh.
  assert (Hports : Configuration.ports (mConfig st')
                   = Configuration.ports (mConfig st) ++ [port])
    by (rewrite Hst; reflexivity).
  assert (Hset : mConnectedDevicePorts st'
                 = {[ AudioPort.id port ]} ∪ mConnectedDevicePorts st)
    by (rewrite Hst; reflexivity).
  assert (Hhit : already_connected (Configuration.ports (mConfig st')) dev
                   (set_in_order (mConnectedDevicePorts st'))
                 = Some (Exn EX_ILLEGAL_STATE LogOther)).
  { rewrite Hports, Hset.
    apply (already_connected_hit _ _ _ (AudioPort.id port) port
             (AudioPortDeviceExt.mk dev (AudioPortDeviceExt.flags tdp))).
    - apply elem_of_set_in_order. set_solver.
    - apply findById_app_new, Hfresh.
    - exact Hext.
    - reflexivity.
    - intros i Hi Hne. apply elem_of_set_in_order in Hi.
      assert (Hold : i ∈ set_in_order (mConnectedDevicePorts st)).
      { apply elem_of_set_in_order.
        apply elem_of_union in Hi. destruct Hi as [Hi|Hi]; [|exact Hi].
        apply elem_of_singleton in Hi. contradiction. }
      apply already_connected_None in Hnone. rewrite Forall_forall in Hnone.
      destruct (Hnone i Hold) as (q & d & Hq & Hqe & Hqd).
      exists q, d. split; [apply findById_app_found, Hq | auto]. }
  unfold connectExternalDevice. cbn zeta.
  rewrite Hports, (findById_app_found _ _ _ _ _ Htemplate), Htext, Hprofiles.
  cbn [is_empty negb]. rewrite (bool_decide_eq_false_2 _ Hconn), Hreq.
  rewrite <- Hports. fold dev. rewrite Hhit. reflexivity.
Qed.

Lemma connect_same_device_twice_refused_witness :
  connectExternalDevice Sample.usb_connected Sample.usb_request
  = (Sample.usb_connected, Exn EX_ILLEGAL_STATE LogOther).
Proof.
  assert (Hfresh : Forall (fun q => AudioPort.id q
                                    <> Configuration.nextPortId (mConfig Sample.module) + 1)
                     (Configuration.ports (mConfig Sample.module))) by compute_done.
  assert (Hconnect : connectExternalDevice Sample.module Sample.usb_request
                     = (Sample.usb_connected,
                        Ret (AudioPort.mk 51 [Sample.profile16] (output 0) []
                               (AudioPortExt.device
                                  (AudioPortDeviceExt.mk
                                     (AudioDevice.mk
                                        (AudioDeviceDescription.mk 7 "usb") "card0")
                                     0))))).
  { vm_compute. reflexivity. }
  exact (connect_same_device_twice_refused _ _ _ _ Hfresh Hconnect).
Defined.

Lemma find_some_true {T} (f : T -> bool) (v : list T) (x : T) :
  x ∈ v -> f x = true -> exists y, List.find f v = Some y.
Proof.
  intros Hin Hf. destruct (List.find f v) as [y|] eqn:Hy; [eauto|].
  apply list_elem_of_In in Hin. rewrite (find_none _ _ Hy x Hin) in Hf.
  discriminate Hf.
Qed.

(** A connected device port with a config that is not in the initial
    snapshot cannot be disconnected: [disconnectExternalDevice] fails with an
    illegal state and changes nothing. *)
Theorem client_config_blocks_disconnect (st : Module) (portId : Z)
    (port : AudioPort.t) (d : AudioPortDeviceExt.t) (c : AudioPortConfig.t) :
  findById AudioPort.id (Configuration.ports (mConfig st)) portId = Some port ->
  AudioPort.ext port = AudioPortExt.device d ->
  portId ∈ mConnectedDevicePorts st ->
  c ∈ Configuration.portConfigs (mConfig st) ->
  AudioPortConfig.portId c = portId ->
  findById AudioPortConfig.id (Configuration.initialConfigs (mConfig st))
    (AudioPortConfig.id c) = None ->
  disconnectExternalDevice st portId = (st, Exn EX_ILLEGAL_STATE LogOther).
Proof.
  intros Hport Hext Hconnected Hc Hcp Hinit.
  unfold disconnectExternalDevice. cbn zeta.
  rewrite Hport, Hext, (bool_decide_eq_true_2 _ Hconnected). cbn [negb].
  assert (Hclient : is_client_config (Configuration.initialConfigs (mConfig st))
                      portId c = true).
  { unfold is_client_config. rewrite (bool_decide_eq_true_2 _ Hcp), Hinit.
    reflexivity. }
  destruct (find_some_true _ _ _ Hc Hclient) as [y ->]. reflexivity.
Qed.

Lemma client_config_blocks_disconnect_witness :
  let st := (setAudioPortConfig Sample.usb_connected (Sample.new_config_request 51)).1 in
  disconnectExternalDevice st 51 = (st, Exn EX_ILLEGAL_STATE LogOther).
Proof.
  intros st.
  apply (client_config_blocks_disconnect st 51
           (AudioPort.mk 51 [Sample.profile16] (output 0) []
              (AudioPortExt.device
                 (AudioPortDeviceExt.mk
                    (AudioDevice.mk (AudioDeviceDescription.mk 7 "usb") "card0") 0)))
           (AudioPortDeviceExt.mk
              (AudioDevice.mk (AudioDeviceDescription.mk 7 "usb") "card0") 0)
           (AudioPortConfig.mk 51 51 (Some 48000) (Some Sample.stereo)
              (Some Sample.pcm16) None (Some (output 0))
              (AudioPortExt.device
                 (AudioPortDeviceExt.mk
                    (AudioDevice.mk (AudioDeviceDescription.mk 7 "usb") "card0") 0))));
    first [vm_compute; reflexivity | compute_done].
Defined.

(** While a device connected by [connectExternalDevice] is connected,
    [setModuleDebug] refuses, with an illegal state, to switch the simulation
    of device connections off, and changes nothing. *)
Theorem simulation_stays_on_while_connected (st st' : Module)
    (request port : AudioPort.t) :
  connectExternalDevice st request = (st', Ret port) ->
  setModuleDebug st' (ModuleDebug.mk false) = (st', Exn EX_ILLEGAL_STATE LogOther).
Proof.
  intros Hconnect.
  destruct (connectExternalDevice_Ret_checks _ _ _ _ Hconnect)
    as (_ & _ & _ & _ & _ & _ & _ & _ & _ & Hsim & _).
  destruct (connectExternalDevice_Ret _ _ _ _ Hconnect) as (_ & _ & _ & _ & Hst).
  assert (Hdebug : ModuleDebug.simulateDeviceConnections (mDebug st') = true)
    by (rewrite Hst; exact Hsim).
  assert (Hin : AudioPort.id port ∈ mConnectedDevicePorts st').
  { rewrite Hst. simpl_store. apply elem_of_union. left. apply elem_of_singleton.
    reflexivity. }
  unfold setModuleDebug. rewrite Hdebug.
  rewrite (bool_decide_eq_false_2 (true = false)) by discriminate.
  rewrite (bool_decide_eq_false_2 (mConnectedDevicePorts st' = ∅)).
  - reflexivity.
  - intros Hempty. rewrite Hempty in Hin. exact (not_elem_of_empty _ Hin).
Qed.

Lemma simulation_stays_on_while_connected_witness :
  setModuleDebug Sample.usb_connected (ModuleDebug.mk false)
  = (Sample.usb_connected, Exn EX_ILLEGAL_STATE LogOther).
Proof.
  assert (Hconnect : connectExternalDevice Sample.module Sample.usb_request
                     = (Sample.usb_connected,
                        Ret (AudioPort.mk 51 [Sample.profile16] (output 0) []
                               (AudioPortExt.device
                                  (AudioPortDeviceExt.mk
                                     (AudioDevice.mk
                                        (AudioDeviceDescription.mk 7 "usb") "card0")
                                     0))))).
  { vm_compute. reflexivity. }
  exact (simulation_stays_on_while_connected _ _ _ _ Hconnect).
Defined.

(** ** Streams *)

Lemma multimap_count_cons {V} (e : Z * V) (m : list (Z * V)) (k' : Z) :
  multimap_count (e :: m) k'
  = (if bool_decide (e.1 = k') then 1 else 0) + multimap_count m k'.
Proof. unfold multimap_count. cbn. case_bool_decide; cbn; lia. Qed.

Lemma multimap_count_insert {V} (k k' : Z) (x : V) (m : list (Z * V)) :
  multimap_count (multimap_insert k x m) k'
  = multimap_count m k' + (if bool_decide (k = k') then 1 else 0).
Proof.
  induction m as [|[j y] m IH]; cbn [multimap_insert].
  - rewrite multimap_count_cons. cbn [fst]. unfold multimap_count. cbn. lia.
  - destruct (k <? j); rewrite !multimap_count_cons; cbn [fst]; [lia|].
    rewrite IH. lia.
Qed.

Lemma multimap_count_nonneg {V} (m : list (Z * V)) (k : Z) : 0 <= multimap_count m k.
Proof. unfold multimap_count. lia. Qed.

(** What [findPortIdForNewStream] has checked when it returns a port. *)
Lemma findPortIdForNewStream_Ret (st : Module) (id : Z) (port : AudioPort.t) :
  findPortIdForNewStream st id = Ret port ->
  exists c m,
    findById AudioPortConfig.id (Configuration.portConfigs (mConfig st)) id = Some c
    /\ AudioPortConfig.portId c <> id
    /\ findById AudioPort.id (Configuration.ports (mConfig st))
         (AudioPortConfig.portId c) = Some port
    /\ AudioPort.id port = AudioPortConfig.portId c
    /\ Streams.count (mStreams st) id = 0
    /\ AudioPort.ext port = AudioPortExt.mix m
    /\ (AudioPortMixExt.maxOpenStreamCount m = 0
        \/ Streams.count (mStreams st) (AudioPortConfig.portId c)
           < to_size_t (AudioPortMixExt.maxOpenStreamCount m)).
Proof.
  unfold findPortIdForNewStream. intros H.
  destruct (findById AudioPortConfig.id _ id) as [c|] eqn:Hc; [|discriminate H].
  case_bool_decide as Hne; [discriminate H|].
  destruct (findById AudioPort.id _ (AudioPortConfig.portId c)) as [q|] eqn:Hq;
    [|discriminate H].
  destruct (Z.eqb_spec (Streams.count (mStreams st) id) 0) as [Hz|Hz];
    [|discriminate H].
  cbn [negb] in H.
  destruct (AudioPort.ext q) as [| |m|] eqn:Hext; try discriminate H.
  destruct (Z.eqb_spec (AudioPortMixExt.maxOpenStreamCount m) 0) as [Hm|Hm];
    cbn [negb andb] in H.
  - injection H as <-. exists c, m.
    repeat split; auto. apply (findById_Some _ _ _ _ Hq).
  - destruct (Z.geb_spec (Streams.count (mStreams st) (AudioPortConfig.portId c))
                (to_size_t (AudioPortMixExt.maxOpenStreamCount m))) as [Hge|Hlt];
      [discriminate H|].
    injection H as <-. exists c, m.
    repeat split; auto. apply (findById_Some _ _ _ _ Hq).
Qed.

(** The module after a stream was opened: the stream is entered in the
    registry under the port config and its port, which
    [findPortIdForNewStream] had returned. *)
Lemma opened_stream_registered `{K : ModuleConstants} (st st' : Module)
    (portConfigId : Z) (s : StreamObject) :
  (exists args, OpenInputStreamArguments.portConfigId args = portConfigId
                /\ openInputStream st args = (st', Ret s))
  \/ (exists args, OpenOutputStreamArguments.portConfigId args = portConfigId
                   /\ openOutputStream st args = (st', Ret s)) ->
  exists port,
    findPortIdForNewStream st portConfigId = Ret port
    /\ st' = with_mStreams st
               (Streams.insert (mStreams st) (AudioPort.id port) portConfigId s).
Proof.
  intros [(args & <- & H)|(args & <- & H)];
    [unfold openInputStream in H | unfold openOutputStream in H]; cbn zeta in H;
    destruct (findPortIdForNewStream st _) as [port| |]; try discriminate H;
    destruct (AudioPort.flags port); try discriminate H.
  - destruct (createStreamDescriptor st _ _); try discriminate H.
    injection H as <- <-. eauto.
  - destruct (_ && _); [discriminate H|].
    destruct (createStreamDescriptor st _ _); try discriminate H.
    injection H as <- <-. eauto.
Qed.

Lemma openInputStream_failure `{K : ModuleConstants} (st st' : Module)
    (args : OpenInputStreamArguments.t) (o : outcome StreamObject) :
  openInputStream st args = (st', o) -> (forall s, o <> Ret s) -> st' = st.
Proof.
  unfold openInputStream. cbn zeta. intros H Hfail.
  repeat match type of H with
         | (match ?x with _ => _ end) = _ => destruct x
         end;
    injection H as <- <-; first [reflexivity | exfalso; eapply Hfail; reflexivity].
Qed.

Lemma openOutputStream_failure `{K : ModuleConstants} (st st' : Module)
    (args : OpenOutputStreamArguments.t) (o : outcome StreamObject) :
  openOutputStream st args = (st', o) -> (forall s, o <> Ret s) -> st' = st.
Proof.
  unfold openOutputStream. cbn zeta. intros H Hfail.
  repeat match type of H with
         | (match ?x with _ => _ end) = _ => destruct x
         end;
    injection H as <- <-; first [reflexivity | exfalso; eapply Hfail; reflexivity].
Qed.

(** Once [openInputStream] or [openOutputStream] has opened a stream on a
    port config, both refuse, with an illegal state and without changing
    anything, to open another stream on that port config. *)
Theorem port_config_hosts_one_stream `{K : ModuleConstants} (st st' : Module)
    (portConfigId : Z) (s : StreamObject) :
  (exists args, OpenInputStreamArguments.portConfigId args = portConfigId
                /\ openInputStream st args = (st', Ret s))
  \/ (exists args, OpenOutputStreamArguments.portConfigId args = portConfigId
                   /\ openOutputStream st args = (st', Ret s)) ->
  (forall args, OpenInputStreamArguments.portConfigId args = portConfigId ->
                openInputStream st' args = (st', Exn EX_ILLEGAL_STATE LogOther))
  /\ (forall args, OpenOutputStreamArguments.portConfigId args = portConfigId ->
                   openOutputStream st' args = (st', Exn EX_ILLEGAL_STATE LogOther)).
Proof.
  intros Hopen.
  destruct (opened_stream_registered _ _ _ _ Hopen) as (port & Hfind & Hst).
  destruct (findPortIdForNewStream_Ret _ _ _ Hfind)
    as (c & m & Hc & Hne & Hport & Hid & Hcount & _).
  assert (Hrefused : findPortIdForNewStream st' portConfigId
                     = Exn EX_ILLEGAL_STATE LogOther).
  { unfold findPortIdForNewStream. rewrite Hst. simpl_store.
    rewrite Hc, (bool_decide_eq_false_2 _ Hne), Hport.
    unfold Streams.count, Streams.insert.
    rewrite !multimap_count_insert.
    unfold Streams.count in Hcount. rewrite Hcount.
    rewrite (bool_decide_eq_true_2 (portConfigId = portConfigId)) by reflexivity.
    rewrite Hid, (bool_decide_eq_false_2 _ Hne). reflexivity. }
  split; intros args <-.
  - unfold openInputStream. cbn zeta. rewrite Hrefused. reflexivity.
  - unfold openOutputStream. cbn zeta. rewrite Hrefused. reflexivity.
Qed.

Lemma port_config_hosts_one_stream_witness :
  let opened := openOutputStream (K := Sample.constants) Sample.module
                  (OpenOutputStreamArguments.mk 10 0 None 64) in
  (forall args, OpenInputStreamArguments.portConfigId args = 10 ->
                openInputStream (K := Sample.constants) opened.1 args
                = (opened.1, Exn EX_ILLEGAL_STATE LogOther))
  /\ (forall args, OpenOutputStreamArguments.portConfigId args = 10 ->
                   openOutputStream (K := Sample.constants) opened.1 args
                   = (opened.1, Exn EX_ILLEGAL_STATE LogOther)).
Proof.
  intros opened.
  apply (port_config_hosts_one_stream (K := Sample.constants) Sample.module
           opened.1 10 (StreamOut 0 None)).
  right. exists (OpenOutputStreamArguments.mk 10 0 None 64).
  split; [reflexivity | vm_compute; reflexivity].
Defined.

(** For a mix port with a positive limit of open streams whose id is not
    also the id of a port config, when the number of streams entered under
    the port is within the limit, it still is after any [openInputStream] or
    [openOutputStream], successful or not. *)
Theorem open_stream_count_within_limit `{K : ModuleConstants} (st : Module)
    (port : AudioPort.t) (m : AudioPortMixExt.t) :
  findById AudioPort.id (Configuration.ports (mConfig st)) (AudioPort.id port)
  = Some port ->
  AudioPort.ext port = AudioPortExt.mix m ->
  0 < AudioPortMixExt.maxOpenStreamCount m < 2 ^ 63 ->
  is_missing st (AudioPort.id port) ->
  Streams.count (mStreams st) (AudioPort.id port)
  <= AudioPortMixExt.maxOpenStreamCount m ->
  (forall args,
     Streams.count (mStreams (openInputStream st args).1) (AudioPort.id port)
     <= AudioPortMixExt.maxOpenStreamCount m)
  /\ (forall args,
        Streams.count (mStreams (openOutputStream st args).1) (AudioPort.id port)
        <= AudioPortMixExt.maxOpenStreamCount m).
Proof.
  intros Hport Hext Hmax Hnoconfig Hcount.
  assert (Hstep : forall st' id s,
            ((exists args, OpenInputStreamArguments.portConfigId args = id
                           /\ openInputStream st args = (st', Ret s))
             \/ (exists args, OpenOutputStreamArguments.portConfigId args = id
                              /\ openOutputStream st args = (st', Ret s))) ->
            Streams.count (mStreams st') (AudioPort.id port)
            <= AudioPortMixExt.maxOpenStreamCount m).
  { intros st' id s Hopen.
    destruct (opened_stream_registered _ _ _ _ Hopen) as (q & Hfind & ->).
    destruct (findPortIdForNewStream_Ret _ _ _ Hfind)
      as (c & mq & Hc & Hne & Hq & Hid & _ & Hqext & Hlimit).
    simpl_store. unfold Streams.count, Streams.insert in *.
    rewrite !multimap_count_insert.
    assert (Hid_not : id <> AudioPort.id port).
    { intros ->. unfold is_missing in Hnoconfig. rewrite Hnoconfig in Hc.
      discriminate Hc. }
    rewrite (bool_decide_eq_false_2 _ Hid_not).
    case_bool_decide as Hsame; [|lia].
    rewrite Hid in Hsame. rewrite Hsame in Hq. rewrite Hport in Hq.
    injection Hq as <-. rewrite Hext in Hqext. injection Hqext as <-.
    rewrite Hsame in Hlimit. unfold to_size_t in Hlimit.
    rewrite Z.mod_small in Hlimit by lia. lia. }
  split; intros args.
  - destruct (openInputStream st args) as [st' o] eqn:Ho. cbn [fst].
    destruct o as [s| |];
      [apply (Hstep st' (OpenInputStreamArguments.portConfigId args) s); left; eauto
      |rewrite (openInputStream_failure _ _ _ _ Ho); [exact Hcount|discriminate]..].
  - destruct (openOutputStream st args) as [st' o] eqn:Ho. cbn [fst].
    destruct o as [s| |];
      [apply (Hstep st' (OpenOutputStreamArguments.portConfigId args) s); right; eauto
      |rewrite (openOutputStream_failure _ _ _ _ Ho); [exact Hcount|discriminate]..].
Qed.

Lemma open_stream_count_within_limit_witness :
  let limited := AudioPort.mk 1 [Sample.profile16] (output 0) []
                   (AudioPortExt.mix (AudioPortMixExt.mk 0 1)) in
  let st := with_mConfig Sample.module
              (with_ports (mConfig Sample.module) [limited]) in
  (forall args,
     Streams.count (mStreams (openInputStream (K := Sample.constants) st args).1) 1 <= 1)
  /\ (forall args,
        Streams.count (mStreams (openOutputStream (K := Sample.constants) st args).1) 1
        <= 1).
Proof.
  intros limited st.
  assert (Hmax : 0 < 1 < 2 ^ 63) by lia.
  assert (Hcount : Streams.count (mStreams st) 1 <= 1) by (vm_compute; discriminate).
  exact (open_stream_count_within_limit (K := Sample.constants) st limited
           (AudioPortMixExt.mk 0 1) eq_refl eq_refl Hmax eq_refl Hcount).
Defined.

(** With a limit of one stream on the mix port, a stream on the config 10
    keeps the config 11 of the same port from getting one. *)
Example second_stream_on_limited_port_refused :
  let limited := AudioPort.mk 1 [Sample.profile16] (output 0) []
                   (AudioPortExt.mix (AudioPortMixExt.mk 0 1)) in
  let st := with_mConfig Sample.module
              (with_ports (mConfig Sample.module) [limited]) in
  let opened := openOutputStream (K := Sample.constants) st
                  (OpenOutputStreamArguments.mk 10 0 None 64) in
  opened.2 = Ret (StreamOut 0 None)
  /\ openOutputStream (K := Sample.constants) opened.1
       (OpenOutputStreamArguments.mk 11 0 None 64)
     = (opened.1, Exn EX_ILLEGAL_STATE LogOther).
Proof. vm_compute. split; reflexivity. Qed.

(** ** What [cleanUpPatches] does to the patch list *)

Lemma erase_empty_loop_spec (hd : AudioPatch.t) (pre post : list AudioPatch.t)
    (erased : gset Z) :
  erase_empty_loop (length pre) (hd :: pre ++ post) erased
  = (hd :: List.filter has_both_ends pre ++ post,
     list_to_set (List.map AudioPatch.id
                    (List.filter (fun p => negb (has_both_ends p)) pre)) ∪ erased).
Proof.
  revert post erased. induction pre as [|x pre IH] using rev_ind; intros post erased.
  - cbn. f_equal. symmetry. apply (left_id_L ∅ (∪)).
  - rewrite length_app, Nat.add_comm. cbn [length Nat.add erase_empty_loop].
    rewrite <- app_assoc. cbn [app].
    assert (Hx : (hd :: pre ++ x :: post) !! S (length pre) = Some x).
    { change ((pre ++ x :: post) !! length pre = Some x).
      apply list_lookup_middle. reflexivity. }
    assert (Hdel : delete (S (length pre)) (hd :: pre ++ x :: post)
                   = hd :: pre ++ post).
    { change (hd :: delete (length pre) (pre ++ x :: post) = hd :: pre ++ post).
      rewrite delete_middle. reflexivity. }
    rewrite Hx, !List.filter_app. cbn [List.filter].
    fold (has_both_ends x).
    assert (Hb : is_empty (AudioPatch.sourcePortConfigIds x)
                 || is_empty (AudioPatch.sinkPortConfigIds x)
                 = negb (has_both_ends x)).
    { unfold has_both_ends. rewrite negb_involutive. reflexivity. }
    rewrite Hb.
    destruct (has_both_ends x); cbn [negb].
    + rewrite IH, !app_nil_r, <- app_assoc. reflexivity.
    + rewrite Hdel, IH, !app_nil_r, map_app, list_to_set_app_L. cbn [List.map].
      f_equal. apply set_eq. intros v.
      rewrite !elem_of_union, !elem_of_list_to_set, list_elem_of_singleton,
        elem_of_singleton. tauto.
Qed.

Lemma elem_of_multimap_equal_range (m : Patches) (k v : Z) :
  v ∈ multimap_equal_range m k <-> (k, v) ∈ m.
Proof.
  unfold multimap_equal_range.
  rewrite list_elem_of_In, in_map_iff. split.
  - intros ([k' v'] & Hv & Hin). apply filter_In in Hin. destruct Hin as [Hin Hk].
    apply bool_decide_eq_true in Hk. cbn in *. subst. apply list_elem_of_In, Hin.
  - intros Hin. exists (k, v). split; [reflexivity|]. apply filter_In.
    split; [apply list_elem_of_In, Hin | apply bool_decide_eq_true_2; reflexivity].
Qed.

Lemma strip_port_config_twice (c : Z) (p : AudioPatch.t) :
  strip_port_config c (strip_port_config c p) = strip_port_config c p.
Proof.
  unfold strip_port_config, erase_if. cbn.
  f_equal; induction (_ p) as [|x l IH]; cbn; try reflexivity;
    destruct (negb (bool_decide (x = c))) eqn:Hx; cbn; rewrite ?Hx, IH; reflexivity.
Qed.

Lemma strip_port_config_absent (c : Z) (p : AudioPatch.t) :
  c ∉ AudioPatch.sourcePortConfigIds p ++ AudioPatch.sinkPortConfigIds p ->
  strip_port_config c p = p.
Proof.
  intros Hc. apply not_elem_of_app in Hc. destruct Hc as [Hs Hk].
  unfold strip_port_config. rewrite !erase_if_absent by assumption.
  destruct p; reflexivity.
Qed.

Lemma assign_at_id_as_map {T} (key : T -> Z) (f : T -> T) (v : list T) (i : Z) :
  (forall e, key (f e) = key e) -> NoDup (List.map key v) ->
  assign_at_id key v i f
  = List.map (fun e => if bool_decide (key e = i) then f e else e) v.
Proof.
  intros Hf. induction v as [|e v IH]; intros Hnd; [reflexivity|]. cbn in *.
  apply NoDup_cons in Hnd. destruct Hnd as [He Hnd].
  case_bool_decide as Hk.
  - f_equal. clear IH. induction v as [|y v IHv]; [reflexivity|]. cbn in *.
    apply not_elem_of_cons in He. destruct He as [Hy Hv].
    apply NoDup_cons in Hnd. destruct Hnd as [_ Hnd].
    rewrite bool_decide_eq_false_2 by congruence. f_equal. apply IHv; assumption.
  - f_equal. apply IH, Hnd.
Qed.

Lemma strip_all_as_map (c : Z) (range : list Z) (patches : list AudioPatch.t) :
  NoDup (List.map AudioPatch.id patches) ->
  foldl (fun ps patchId =>
           assign_at_id AudioPatch.id ps patchId (strip_port_config c))
        patches range
  = List.map (fun p => if bool_decide (AudioPatch.id p ∈ range)
                       then strip_port_config c p else p) patches.
Proof.
  revert patches. induction range as [|i range IH]; intros patches Hnd.
  - cbn. symmetry. erewrite List.map_ext; [apply List.map_id|]. intros p.
    cbn beta. rewrite bool_decide_eq_false_2 by apply not_elem_of_nil. reflexivity.
  - cbn [foldl].
    rewrite (assign_at_id_as_map AudioPatch.id (strip_port_config c) patches i)
      by (auto using Hnd).
    rewrite IH.
    + rewrite List.map_map. apply List.map_ext. intros p.
      destruct (decide (AudioPatch.id p = i)) as [Hi|Hi].
      * rewrite (bool_decide_eq_true_2 _ Hi).
        rewrite (bool_decide_eq_true_2 (AudioPatch.id p ∈ i :: range))
          by (rewrite Hi; apply list_elem_of_here).
        destruct (bool_decide (AudioPatch.id (strip_port_config c p) ∈ range));
          [apply strip_port_config_twice | reflexivity].
      * rewrite (bool_decide_eq_false_2 _ Hi).
        destruct (decide (AudioPatch.id p ∈ range)) as [Hr|Hr].
        -- rewrite (bool_decide_eq_true_2 _ Hr).
           rewrite bool_decide_eq_true_2 by (apply list_elem_of_further, Hr).
           reflexivity.
        -- rewrite (bool_decide_eq_false_2 _ Hr).
           rewrite bool_decide_eq_false_2; [reflexivity|].
           rewrite elem_of_cons. tauto.
    + rewrite List.map_map.
      erewrite List.map_ext; [exact Hnd|]. intros p. cbn beta.
      case_bool_decide; reflexivity.
Qed.

(** In a store whose patch ids are distinct and whose index has, for every
    patch, the ids of the patch as keys, [cleanUpPatches] of a port config id
    takes that id out of the source and the sink list of every patch, keeps
    the first patch of the list whatever is left of it, and keeps of the
    others, in order, those that still have a source and a sink; no patch of
    the list then refers to the id. *)
Theorem cleanUpPatches_patch_list (st : Module) (c : Z) (hd : AudioPatch.t)
    (tl : list AudioPatch.t) :
  NoDup (List.map AudioPatch.id (Configuration.patches (mConfig st))) ->
  (forall p, p ∈ Configuration.patches (mConfig st) ->
     c ∈ AudioPatch.sourcePortConfigIds p ++ AudioPatch.sinkPortConfigIds p ->
     (c, AudioPatch.id p) ∈ mPatches st) ->
  Configuration.patches (mConfig st) = hd :: tl ->
  Configuration.patches (mConfig (cleanUpPatches st c))
  = strip_port_config c hd
    :: List.filter has_both_ends (List.map (strip_port_config c) tl)
  /\ Forall (fun p => (c ∉ AudioPatch.sourcePortConfigIds p)
                      /\ (c ∉ AudioPatch.sinkPortConfigIds p))
       (Configuration.patches (mConfig (cleanUpPatches st c))).
Proof.
  intros Hnd Hindex Hpatches.
  assert (Hstripped :
    foldl (fun ps patchId =>
             assign_at_id AudioPatch.id ps patchId (strip_port_config c))
          (Configuration.patches (mConfig st))
          (multimap_equal_range (mPatches st) c)
    = List.map (strip_port_config c) (Configuration.patches (mConfig st))).
  { rewrite (strip_all_as_map c _ _ Hnd). apply List.map_ext_in. intros p Hp.
    case_bool_decide as Hr; [reflexivity|]. symmetry.
    apply strip_port_config_absent. intros Hc. apply Hr.
    apply elem_of_multimap_equal_range, Hindex; [apply list_elem_of_In, Hp | exact Hc]. }
  assert (Hlist : Configuration.patches (mConfig (cleanUpPatches st c))
                  = strip_port_config c hd
                    :: List.filter has_both_ends (List.map (strip_port_config c) tl)).
  { pose proof (erase_empty_loop_spec (strip_port_config c hd)
                  (List.map (strip_port_config c) tl) [] ∅) as Hloop.
    rewrite !app_nil_r in Hloop.
    unfold cleanUpPatches. rewrite Hstripped, Hpatches. cbn [is_empty List.map length].
    rewrite Nat.sub_succ, Nat.sub_0_r, Hloop. reflexivity. }
  split; [exact Hlist|]. rewrite Hlist.
  assert (Hstrip : forall p,
             (c ∉ AudioPatch.sourcePortConfigIds (strip_port_config c p))
             /\ (c ∉ AudioPatch.sinkPortConfigIds (strip_port_config c p))).
  { intros p. unfold strip_port_config, erase_if. cbn.
    split; intros Hin; apply list_elem_of_In, filter_In in Hin;
      destruct Hin as [_ Hin]; rewrite bool_decide_eq_true_2 in Hin by reflexivity;
      discriminate Hin. }
  constructor; [apply Hstrip|].
  apply Forall_forall. intros p Hp. apply list_elem_of_In, filter_In in Hp.
  destruct Hp as [Hp _]. apply in_map_iff in Hp. destruct Hp as (q & <- & _).
  apply Hstrip.
Qed.

Lemma cleanUpPatches_patch_list_witness :
  Configuration.patches (mConfig (cleanUpPatches Sample.two_patches 45))
  = strip_port_config 45 (AudioPatch.mk 1 [10] [20] 16 [10])
    :: List.filter has_both_ends
         (List.map (strip_port_config 45) [AudioPatch.mk 2 [45] [30] 16 [10]])
  /\ Forall (fun p => (45 ∉ AudioPatch.sourcePortConfigIds p)
                      /\ (45 ∉ AudioPatch.sinkPortConfigIds p))
       (Configuration.patches (mConfig (cleanUpPatches Sample.two_patches 45))).
Proof.
  apply (cleanUpPatches_patch_list Sample.two_patches 45).
  - compute_done.
  - intros p Hp Hc. apply list_elem_of_In in Hp. vm_compute in Hp.
    destruct Hp as [<-|[<-|[]]].
    + exfalso. apply list_elem_of_In in Hc. cbn in Hc. lia.
    + compute_done.
  - vm_compute. reflexivity.
Defined.

(** ** The routes of a connected port *)

Lemma elem_of_connect_routes (t k : Z) (routes : list AudioRoute.t) (r' : AudioRoute.t) :
  r' ∈ connect_routes t k routes
  <-> (exists r, r ∈ routes /\ r' = extend_route t k r)
      \/ (exists r, r ∈ routes /\ AudioRoute.sinkPortId r = t
                    /\ r' = AudioRoute.mk (AudioRoute.sourcePortIds r) k
                              (AudioRoute.isExclusive r)).
Proof.
  unfold connect_routes. rewrite elem_of_app, !list_elem_of_In, in_map_iff, in_concat.
  split.
  - intros [(r & <- & Hr)|(l & Hl & Hin)].
    + left. exists r. split; [apply list_elem_of_In, Hr | reflexivity].
    + right. apply in_map_iff in Hl. destruct Hl as (r & <- & Hr).
      unfold clone_route in Hin. case_bool_decide as Hs; [|destruct Hin].
      destruct Hin as [<-|[]]. exists r.
      split; [apply list_elem_of_In, Hr | auto].
  - intros [(r & Hr & ->)|(r & Hr & Hs & ->)].
    + left. exists r. split; [reflexivity | apply list_elem_of_In, Hr].
    + right. exists (clone_route t k r). split.
      * apply in_map_iff. exists r. split; [reflexivity | apply list_elem_of_In, Hr].
      * unfold clone_route. rewrite bool_decide_eq_true_2 by exact Hs. left.
        reflexivity.
Qed.

(** After [connectExternalDevice] has made a port from a template, in a
    store whose routes did not refer to the id of the new port: a port has a
    route to the new port exactly when it had one, of the same exclusivity,
    to the template; and the new port has a route to a sink exactly when the
    template had one, of the same exclusivity, to that sink and the sink is
    not the template itself. *)
Theorem connected_port_inherits_routes (st st' : Module) (request port : AudioPort.t) :
  Forall (fun r => AudioRoute.sinkPortId r <> Configuration.nextPortId (mConfig st) + 1
                   /\ (Configuration.nextPortId (mConfig st) + 1
                       ∉ AudioRoute.sourcePortIds r))
    (Configuration.routes (mConfig st)) ->
  connectExternalDevice st request = (st', Ret port) ->
  let t := AudioPort.id request in
  let k := AudioPort.id port in
  (forall s excl,
     (exists r', r' ∈ Configuration.routes (mConfig st')
                 /\ AudioRoute.sinkPortId r' = k /\ s ∈ AudioRoute.sourcePortIds r'
                 /\ AudioRoute.isExclusive r' = excl)
     <-> (exists r, r ∈ Configuration.routes (mConfig st)
                    /\ AudioRoute.sinkPortId r = t /\ s ∈ AudioRoute.sourcePortIds r
                    /\ AudioRoute.isExclusive r = excl))
  /\ (forall d excl,
        (exists r', r' ∈ Configuration.routes (mConfig st')
                    /\ AudioRoute.sinkPortId r' = d /\ d <> k
                    /\ k ∈ AudioRoute.sourcePortIds r'
                    /\ AudioRoute.isExclusive r' = excl)
        <-> (d <> t
             /\ exists r, r ∈ Configuration.routes (mConfig st)
                          /\ AudioRoute.sinkPortId r = d
                          /\ t ∈ AudioRoute.sourcePortIds r
                          /\ AudioRoute.isExclusive r = excl)).
Proof.
  intros Hfresh Hconnect. cbn zeta.
  destruct (connectExternalDevice_Ret _ _ _ _ Hconnect) as (_ & _ & _ & Hid & ->).
  simpl_store. rewrite <- Hid in Hfresh. rewrite Forall_forall in Hfresh.
  set (t := AudioPort.id request). set (k := AudioPort.id port) in *.
  assert (Hextend : forall r, r ∈ Configuration.routes (mConfig st) ->
            AudioRoute.sinkPortId (extend_route t k r) = AudioRoute.sinkPortId r
            /\ AudioRoute.isExclusive (extend_route t k r) = AudioRoute.isExclusive r
            /\ (k ∈ AudioRoute.sourcePortIds (extend_route t k r)
                <-> AudioRoute.sinkPortId r <> t /\ t ∈ AudioRoute.sourcePortIds r)).
  { intros r Hr. destruct (Hfresh r Hr) as [_ Hk]. unfold extend_route.
    case_bool_decide as Hs; [|case_bool_decide as Ht]; cbn.
    - split; [reflexivity|]. split; [reflexivity|]. tauto.
    - split; [reflexivity|]. split; [reflexivity|].
      rewrite elem_of_app, list_elem_of_singleton. tauto.
    - split; [reflexivity|]. split; [reflexivity|]. tauto. }
  split.
  - intros s excl. split.
    + intros (r' & Hr' & Hsink & Hs & He). apply elem_of_connect_routes in Hr'.
      destruct Hr' as [(r & Hr & ->)|(r & Hr & Hrt & ->)].
      * exfalso. destruct (Hextend r Hr) as (Hsk & _). rewrite Hsk in Hsink.
        exact (proj1 (Hfresh r Hr) Hsink).
      * exists r. auto.
    + intros (r & Hr & Hsink & Hs & He).
      exists (AudioRoute.mk (AudioRoute.sourcePortIds r) k (AudioRoute.isExclusive r)).
      split; [|auto]. apply elem_of_connect_routes. right. exists r. auto.
  - intros d excl. split.
    + intros (r' & Hr' & Hsink & Hdk & Hk & He). apply elem_of_connect_routes in Hr'.
      destruct Hr' as [(r & Hr & ->)|(r & Hr & Hrt & ->)].
      * destruct (Hextend r Hr) as (Hsk & Hex & Hin). rewrite Hsk in Hsink.
        rewrite Hex in He. apply Hin in Hk. destruct Hk as [Hnt Ht].
        split; [congruence|]. exists r. auto.
      * cbn in Hsink. congruence.
    + intros (Hdt & r & Hr & Hsink & Ht & He).
      destruct (Hextend r Hr) as (Hsk & Hex & Hin).
      exists (extend_route t k r).
      split; [apply elem_of_connect_routes; left; eauto|].
      split; [congruence|]. split; [|split; [|congruence]].
      * intros ->. exact (proj1 (Hfresh r Hr) Hsink).
      * apply Hin. split; [congruence | exact Ht].
Qed.

Lemma connected_port_inherits_routes_witness :
  (forall s excl,
     (exists r', r' ∈ Configuration.routes (mConfig Sample.usb_connected)
                 /\ AudioRoute.sinkPortId r' = 51 /\ s ∈ AudioRoute.sourcePortIds r'
                 /\ AudioRoute.isExclusive r' = excl)
     <-> (exists r, r ∈ Configuration.routes (mConfig Sample.module)
                    /\ AudioRoute.sinkPortId r = 3 /\ s ∈ AudioRoute.sourcePortIds r
                    /\ AudioRoute.isExclusive r = excl))
  /\ (forall d excl,
        (exists r', r' ∈ Configuration.routes (mConfig Sample.usb_connected)
                    /\ AudioRoute.sinkPortId r' = d /\ d <> 51
                    /\ 51 ∈ AudioRoute.sourcePortIds r'
                    /\ AudioRoute.isExclusive r' = excl)
        <-> (d <> 3
             /\ exists r, r ∈ Configuration.routes (mConfig Sample.module)
                          /\ AudioRoute.sinkPortId r = d
                          /\ 3 ∈ AudioRoute.sourcePortIds r
                          /\ AudioRoute.isExclusive r = excl)).
Proof.
  assert (Hfresh : Forall (fun r => AudioRoute.sinkPortId r
                                    <> Configuration.nextPortId (mConfig Sample.module) + 1
                                    /\ (Configuration.nextPortId (mConfig Sample.module) + 1
                                        ∉ AudioRoute.sourcePortIds r))
                     (Configuration.routes (mConfig Sample.module))) by compute_done.
  assert (Hconnect : connectExternalDevice Sample.module Sample.usb_request
                     = (Sample.usb_connected,
                        Ret (AudioPort.mk 51 [Sample.profile16] (output 0) []
                               (AudioPortExt.device
                                  (AudioPortDeviceExt.mk
                                     (AudioDevice.mk
                                        (AudioDeviceDescription.mk 7 "usb") "card0")
                                     0))))).
  { vm_compute. reflexivity. }
  exact (connected_port_inherits_routes _ _ _ _ Hfresh Hconnect).
Defined.
